(** * LightGBM: leaf partition store and block scheduler

    A shallow embedding of
    - [Threading::BlockInfo] and [Threading::For]
      (include/LightGBM/utils/threading.h),
    - [DataPartition] (treelearner/data_partition.hpp),
    - [AlignmentAllocator::max_size] and [AlignmentAllocator::allocate]
      (LightGBM/meta.h),
    followed by the properties the specification states about them.

    Conventions.  [data_size_t] is [int32_t] and block counts are [int]:
    both are [Z] with two's-complement wrap-around written out ([wrap32]).
    Vectors are lists.  Every vector access is bounds checked: an access
    outside the vector, which is undefined behaviour in the source, ends
    the run with a [Fault].  Every access is recorded in an access trace,
    so that statements about what a call reads and writes can be made
    about the same definitions that compute its result.

    The body of an OpenMP loop is run for the block indices in increasing
    order; the bodies of one loop write pairwise different vector
    elements. *)

From stdpp Require Import base list numbers.

Local Open Scope Z_scope.

(** ** Part I: the embedding *)

(** *** 32-bit signed arithmetic *)

Definition INT_MAX : Z := 2147483647.
Definition INT_MIN : Z := -2147483648.

Definition wrap32 (z : Z) : Z := (z + 2147483648) mod 4294967296 - 2147483648.

Definition add32 (a b : Z) : Z := wrap32 (a + b).
Definition sub32 (a b : Z) : Z := wrap32 (a - b).
Definition mul32 (a b : Z) : Z := wrap32 (a * b).
(** C++ integer division truncates towards zero. *)
Definition div32 (a b : Z) : Z := wrap32 (a `quot` b).

(** *** Access traces, faults and the monad that threads them *)

Inductive buffer : Type :=
| LeafBegin | LeafCount | Indices | TempLeft | TempRight | UsedData
| OffsetsBuf | LeftCnts | RightCnts | LeftWritePos | RightWritePos.

(** [Rd b off len] reads the [len] elements of [b] from position [off] on;
    [Wr b off len] writes them. *)
Inductive event : Type :=
| Rd (b : buffer) (off len : Z)
| Wr (b : buffer) (off len : Z).

(** A run either completes with a value or stops at the first access
    outside a vector; the trace lists the accesses made up to there. *)
Inductive outcome (A : Type) : Type :=
| Ok (a : A) (tr : list event)
| Fault (b : buffer) (off len : Z) (tr : list event).

Arguments Ok {A} a tr.
Arguments Fault {A} b off len tr.

Definition ret {A : Type} (a : A) : outcome A := Ok a [].

(** [prepend tr m]: the accesses [tr] were made before [m] ran. *)
Definition prepend {A : Type} (tr : list event) (m : outcome A) : outcome A :=
  match m with
  | Ok a tr' => Ok a (tr ++ tr')
  | Fault b off len tr' => Fault b off len (tr ++ tr')
  end.

Definition bind {A B : Type} (m : outcome A) (k : A -> outcome B) : outcome B :=
  match m with
  | Ok a tr => prepend tr (k a)
  | Fault b off len tr => Fault b off len tr
  end.

Notation "x <- m ;; k" := (bind m (fun x => k))
  (at level 100, m at next level, right associativity,
   format "'[v' x  <-  m  ;;  '/' k ']'").

Definition trace {A : Type} (m : outcome A) : list event :=
  match m with Ok _ tr => tr | Fault _ _ _ tr => tr end.

(** *** Vectors *)

Definition in_bounds (v : list Z) (off len : Z) : bool :=
  (0 <=? off) && (0 <=? len) && (off + len <=? Z.of_nat (length v)).

(** [v[i]] *)
Definition vget (b : buffer) (v : list Z) (i : Z) : outcome Z :=
  match (if 0 <=? i then v !! Z.to_nat i else None) with
  | Some x => Ok x [Rd b i 1]
  | None => Fault b i 1 []
  end.

(** [v[i] = x] *)
Definition vset (b : buffer) (v : list Z) (i x : Z) : outcome (list Z) :=
  if in_bounds v i 1 then Ok (<[Z.to_nat i := x]> v) [Wr b i 1]
  else Fault b i 1 [].

(** Reading [len] consecutive elements from [v.data() + off]. *)
Definition vread (b : buffer) (v : list Z) (off len : Z) : outcome (list Z) :=
  if in_bounds v off len
  then Ok (take (Z.to_nat len) (drop (Z.to_nat off) v)) [Rd b off len]
  else Fault b off len [].

(** Writing the elements [l] to [v.data() + off]. *)
Definition vwrite (b : buffer) (v : list Z) (off : Z) (l : list Z)
  : outcome (list Z) :=
  let len := Z.of_nat (length l) in
  if in_bounds v off len
  then Ok (take (Z.to_nat off) v ++ l ++ drop (Z.to_nat off + length l) v)
          [Wr b off len]
  else Fault b off len [].

(** [std::fill(v.begin(), v.end(), x)] *)
Definition vfill (b : buffer) (v : list Z) (x : Z) : outcome (list Z) :=
  Ok (replicate (length v) x) [Wr b 0 (Z.of_nat (length v))].

(** [std::copy_n(src.data() + off, n, dst.data() + pos)]: nothing is read
    or written unless [n] is positive. *)
Definition copy_n (bs : buffer) (src : list Z) (off n : Z)
           (bd : buffer) (dst : list Z) (pos : Z) : outcome (list Z) :=
  if n <=? 0 then ret dst
  else l <- vread bs src off n ;; vwrite bd dst pos l.

(** *** Block scheduler (threading.h) *)

Section Threading.

(** [kAlignedSize] is declared outside the files at hand; it is the
    number of elements of one alignment unit. *)
Variable kAlignedSize : Z.

(** Modelled from the spec: the macro [SIZE_ALIGNED] is not among the
    sources; the specification says that it rounds a block size up to an
    alignment boundary, that is to the next multiple of [kAlignedSize]. *)
Definition SIZE_ALIGNED (t : Z) : Z :=
  mul32 (div32 (sub32 (add32 t kAlignedSize) 1) kAlignedSize) kAlignedSize.

(** [BlockInfo(cnt, min_cnt_per_block, &out_nblock, &block_size)].
    [omp_num_threads] is the answer of [omp_get_num_threads()] inside the
    parallel region; the result pairs the two out-parameters. *)
Definition BlockInfo (omp_num_threads cnt min_cnt_per_block : Z) : Z * Z :=
  let num_threads := omp_num_threads in
  let out_nblock :=
    Z.min num_threads
          (div32 (sub32 (add32 cnt min_cnt_per_block) 1) min_cnt_per_block) in
  if 1 <? out_nblock
  then (out_nblock,
        SIZE_ALIGNED (div32 (sub32 (add32 cnt out_nblock) 1) out_nblock))
  else (out_nblock, cnt).

(** The overload [BlockInfo(num_threads, cnt, min_cnt_per_block, ...)]. *)
Definition BlockInfo_threads (num_threads cnt min_cnt_per_block : Z) : Z * Z :=
  let out_nblock :=
    Z.min num_threads
          (div32 (sub32 (add32 cnt min_cnt_per_block) 1) min_cnt_per_block) in
  if 1 <? out_nblock
  then (out_nblock,
        SIZE_ALIGNED (div32 (sub32 (add32 cnt out_nblock) 1) out_nblock))
  else (out_nblock, cnt).

(** The loop [for (int i = 0; i < n_block; ++i)] of [For], entered at [i]
    with [todo] iterations left.  [i + 1] cannot overflow: [i < n_block]. *)
Fixpoint For_loop {S : Type} (inner_fun : Z -> Z -> Z -> S -> outcome S)
         (todo : nat) (i start end_ num_inner : Z) (s : S) : outcome S :=
  match todo with
  | O => ret s
  | Datatypes.S todo' =>
      let inner_start := add32 start (mul32 num_inner i) in
      let inner_end := Z.min end_ (add32 inner_start num_inner) in
      s' <- inner_fun i inner_start inner_end s ;;
      For_loop inner_fun todo' (i + 1) start end_ num_inner s'
  end.

(** [Threading::For(start, end, min_block_size, inner_fun)]; the state [s]
    is what the body captures by reference.  Returns [n_block]. *)
Definition For {S : Type} (omp_num_threads start end_ min_block_size : Z)
           (inner_fun : Z -> Z -> Z -> S -> outcome S) (s : S)
  : outcome (Z * S) :=
  let '(n_block, num_inner) :=
    BlockInfo omp_num_threads (sub32 end_ start) min_block_size in
  s' <- For_loop inner_fun (Z.to_nat n_block) 0 start end_ num_inner s ;;
  ret (n_block, s').

End Threading.

(** *** Leaf partition store (data_partition.hpp) *)

(** The split decision of the dataset,
    [Dataset::Split(feature, threshold, num_threshold, default_left,
                    data_indices, cnt, lte_indices, gt_indices)]:
    from the [cnt] ids at [data_indices] it produces the ids it writes to
    [lte_indices] and those it writes to [gt_indices], and returns the
    number of the former.  The dataset is not part of the sources. *)
Definition Dataset : Type :=
  Z -> list Z -> Z -> bool -> list Z -> list Z * list Z.

Record DataPartition : Type := mkDataPartition {
  num_data_ : Z;
  num_leaves_ : Z;
  leaf_begin_ : list Z;
  leaf_count_ : list Z;
  indices_ : list Z;
  temp_left_indices_ : list Z;
  temp_right_indices_ : list Z;
  (** [None] is [nullptr]; otherwise the caller's array *)
  used_data_indices_ : option (list Z);
  used_data_count_ : Z;
  num_threads_ : Z;
  offsets_buf_ : list Z;
  left_cnts_buf_ : list Z;
  right_cnts_buf_ : list Z;
  left_write_pos_buf_ : list Z;
  right_write_pos_buf_ : list Z
}.

Definition set_leaf_begin (v : list Z) (dp : DataPartition) : DataPartition :=
  mkDataPartition (num_data_ dp) (num_leaves_ dp) v (leaf_count_ dp)
    (indices_ dp) (temp_left_indices_ dp) (temp_right_indices_ dp)
    (used_data_indices_ dp) (used_data_count_ dp) (num_threads_ dp)
    (offsets_buf_ dp) (left_cnts_buf_ dp) (right_cnts_buf_ dp)
    (left_write_pos_buf_ dp) (right_write_pos_buf_ dp).

Definition set_leaf_count (v : list Z) (dp : DataPartition) : DataPartition :=
  mkDataPartition (num_data_ dp) (num_leaves_ dp) (leaf_begin_ dp) v
    (indices_ dp) (temp_left_indices_ dp) (temp_right_indices_ dp)
    (used_data_indices_ dp) (used_data_count_ dp) (num_threads_ dp)
    (offsets_buf_ dp) (left_cnts_buf_ dp) (right_cnts_buf_ dp)
    (left_write_pos_buf_ dp) (right_write_pos_buf_ dp).

Definition set_indices (v : list Z) (dp : DataPartition) : DataPartition :=
  mkDataPartition (num_data_ dp) (num_leaves_ dp) (leaf_begin_ dp)
    (leaf_count_ dp) v (temp_left_indices_ dp) (temp_right_indices_ dp)
    (used_data_indices_ dp) (used_data_count_ dp) (num_threads_ dp)
    (offsets_buf_ dp) (left_cnts_buf_ dp) (right_cnts_buf_ dp)
    (left_write_pos_buf_ dp) (right_write_pos_buf_ dp).

Definition set_temp_left_indices (v : list Z) (dp : DataPartition) : DataPartition :=
  mkDataPartition (num_data_ dp) (num_leaves_ dp) (leaf_begin_ dp)
    (leaf_count_ dp) (indices_ dp) v (temp_right_indices_ dp)
    (used_data_indices_ dp) (used_data_count_ dp) (num_threads_ dp)
    (offsets_buf_ dp) (left_cnts_buf_ dp) (right_cnts_buf_ dp)
    (left_write_pos_buf_ dp) (right_write_pos_buf_ dp).

Definition set_temp_right_indices (v : list Z) (dp : DataPartition) : DataPartition :=
  mkDataPartition (num_data_ dp) (num_leaves_ dp) (leaf_begin_ dp)
    (leaf_count_ dp) (indices_ dp) (temp_left_indices_ dp) v
    (used_data_indices_ dp) (used_data_count_ dp) (num_threads_ dp)
    (offsets_buf_ dp) (left_cnts_buf_ dp) (right_cnts_buf_ dp)
    (left_write_pos_buf_ dp) (right_write_pos_buf_ dp).

Definition set_used_data_indices (v : option (list Z)) (dp : DataPartition) : DataPartition :=
  mkDataPartition (num_data_ dp) (num_leaves_ dp) (leaf_begin_ dp)
    (leaf_count_ dp) (indices_ dp) (temp_left_indices_ dp)
    (temp_right_indices_ dp) v (used_data_count_ dp) (num_threads_ dp)
    (offsets_buf_ dp) (left_cnts_buf_ dp) (right_cnts_buf_ dp)
    (left_write_pos_buf_ dp) (right_write_pos_buf_ dp).

Definition set_used_data_count (v : Z) (dp : DataPartition) : DataPartition :=
  mkDataPartition (num_data_ dp) (num_leaves_ dp) (leaf_begin_ dp)
    (leaf_count_ dp) (indices_ dp) (temp_left_indices_ dp)
    (temp_right_indices_ dp) (used_data_indices_ dp) v (num_threads_ dp)
    (offsets_buf_ dp) (left_cnts_buf_ dp) (right_cnts_buf_ dp)
    (left_write_pos_buf_ dp) (right_write_pos_buf_ dp).

Definition set_num_data (v : Z) (dp : DataPartition) : DataPartition :=
  mkDataPartition v (num_leaves_ dp) (leaf_begin_ dp) (leaf_count_ dp)
    (indices_ dp) (temp_left_indices_ dp) (temp_right_indices_ dp)
    (used_data_indices_ dp) (used_data_count_ dp) (num_threads_ dp)
    (offsets_buf_ dp) (left_cnts_buf_ dp) (right_cnts_buf_ dp)
    (left_write_pos_buf_ dp) (right_write_pos_buf_ dp).

Definition set_num_leaves (v : Z) (dp : DataPartition) : DataPartition :=
  mkDataPartition (num_data_ dp) v (leaf_begin_ dp) (leaf_count_ dp)
    (indices_ dp) (temp_left_indices_ dp) (temp_right_indices_ dp)
    (used_data_indices_ dp) (used_data_count_ dp) (num_threads_ dp)
    (offsets_buf_ dp) (left_cnts_buf_ dp) (right_cnts_buf_ dp)
    (left_write_pos_buf_ dp) (right_write_pos_buf_ dp).

Definition set_offsets_buf (v : list Z) (dp : DataPartition) : DataPartition :=
  mkDataPartition (num_data_ dp) (num_leaves_ dp) (leaf_begin_ dp)
    (leaf_count_ dp) (indices_ dp) (temp_left_indices_ dp)
    (temp_right_indices_ dp) (used_data_indices_ dp) (used_data_count_ dp)
    (num_threads_ dp) v (left_cnts_buf_ dp) (right_cnts_buf_ dp)
    (left_write_pos_buf_ dp) (right_write_pos_buf_ dp).

Definition set_left_cnts_buf (v : list Z) (dp : DataPartition) : DataPartition :=
  mkDataPartition (num_data_ dp) (num_leaves_ dp) (leaf_begin_ dp)
    (leaf_count_ dp) (indices_ dp) (temp_left_indices_ dp)
    (temp_right_indices_ dp) (used_data_indices_ dp) (used_data_count_ dp)
    (num_threads_ dp) (offsets_buf_ dp) v (right_cnts_buf_ dp)
    (left_write_pos_buf_ dp) (right_write_pos_buf_ dp).

Definition set_right_cnts_buf (v : list Z) (dp : DataPartition) : DataPartition :=
  mkDataPartition (num_data_ dp) (num_leaves_ dp) (leaf_begin_ dp)
    (leaf_count_ dp) (indices_ dp) (temp_left_indices_ dp)
    (temp_right_indices_ dp) (used_data_indices_ dp) (used_data_count_ dp)
    (num_threads_ dp) (offsets_buf_ dp) (left_cnts_buf_ dp) v
    (left_write_pos_buf_ dp) (right_write_pos_buf_ dp).

Definition set_left_write_pos_buf (v : list Z) (dp : DataPartition) : DataPartition :=
  mkDataPartition (num_data_ dp) (num_leaves_ dp) (leaf_begin_ dp)
    (leaf_count_ dp) (indices_ dp) (temp_left_indices_ dp)
    (temp_right_indices_ dp) (used_data_indices_ dp) (used_data_count_ dp)
    (num_threads_ dp) (offsets_buf_ dp) (left_cnts_buf_ dp) (right_cnts_buf_
    dp) v (right_write_pos_buf_ dp).

Definition set_right_write_pos_buf (v : list Z) (dp : DataPartition) : DataPartition :=
  mkDataPartition (num_data_ dp) (num_leaves_ dp) (leaf_begin_ dp)
    (leaf_count_ dp) (indices_ dp) (temp_left_indices_ dp)
    (temp_right_indices_ dp) (used_data_indices_ dp) (used_data_count_ dp)
    (num_threads_ dp) (offsets_buf_ dp) (left_cnts_buf_ dp) (right_cnts_buf_
    dp) (left_write_pos_buf_ dp) v.

(** [v.resize(n)]: keeps the first [n] elements, pads with zeros.  A
    vector is modelled by its elements, not by the storage behind them:
    an access past the size is a fault, also where a vector that was
    shrunk still owns the storage. *)
Definition vresize (n : Z) (v : list Z) : list Z := resize (Z.to_nat n) 0 v.

(** The constructor; [omp_num_threads] as in [BlockInfo].  The field
    [used_data_count_] is left uninitialised by the source: [junk] is
    whatever it holds. *)
Definition DataPartition_new (omp_num_threads junk num_data num_leaves : Z)
  : DataPartition :=
  let num_threads := omp_num_threads in
  mkDataPartition num_data num_leaves
    (vresize num_leaves []) (vresize num_leaves [])
    (vresize num_data []) (vresize num_data []) (vresize num_data [])
    None junk num_threads
    (vresize num_threads []) (vresize num_threads []) (vresize num_threads [])
    (vresize num_threads []) (vresize num_threads []).

Definition ResetLeaves (num_leaves : Z) (dp : DataPartition) : DataPartition :=
  let dp := set_num_leaves num_leaves dp in
  let dp := set_leaf_begin (vresize (num_leaves_ dp) (leaf_begin_ dp)) dp in
  set_leaf_count (vresize (num_leaves_ dp) (leaf_count_ dp)) dp.

Definition ResetNumData (num_data : Z) (dp : DataPartition) : DataPartition :=
  let dp := set_num_data num_data dp in
  let dp := set_indices (vresize (num_data_ dp) (indices_ dp)) dp in
  let dp :=
    set_temp_left_indices (vresize (num_data_ dp) (temp_left_indices_ dp)) dp in
  set_temp_right_indices (vresize (num_data_ dp) (temp_right_indices_ dp)) dp.

Definition SetUsedDataIndices (used_data_indices : option (list Z))
           (num_used_data : Z) (dp : DataPartition) : DataPartition :=
  set_used_data_count num_used_data
    (set_used_data_indices used_data_indices dp).

(** The loop [for (i = 0; i < num_data_; ++i) indices_[i] = i] of [Init]. *)
Fixpoint Init_loop (todo : nat) (i : Z) (indices : list Z)
  : outcome (list Z) :=
  match todo with
  | O => ret indices
  | Datatypes.S todo' =>
      indices' <- vset Indices indices i i ;;
      Init_loop todo' (i + 1) indices'
  end.

Definition Init (dp : DataPartition) : outcome DataPartition :=
  lb <- vfill LeafBegin (leaf_begin_ dp) 0 ;;
  lc <- vfill LeafCount (leaf_count_ dp) 0 ;;
  match used_data_indices_ dp with
  | None =>
      (* if using all data *)
      lc <- vset LeafCount lc 0 (num_data_ dp) ;;
      idx <- Init_loop (Z.to_nat (num_data_ dp)) 0 (indices_ dp) ;;
      ret (set_indices idx (set_leaf_count lc (set_leaf_begin lb dp)))
  | Some used =>
      (* if bagging *)
      lc <- vset LeafCount lc 0 (used_data_count_ dp) ;;
      src <- vread UsedData used 0 (used_data_count_ dp) ;;
      idx <- vwrite Indices (indices_ dp) 0 src ;;
      ret (set_indices idx (set_leaf_count lc (set_leaf_begin lb dp)))
  end.

(** [GetIndexOnLeaf(leaf, &out_len)]: the returned pointer is
    [indices_.data() + begin], given here by its offset. *)
Definition GetIndexOnLeaf (leaf : Z) (dp : DataPartition) : outcome (Z * Z) :=
  begin <- vget LeafBegin (leaf_begin_ dp) leaf ;;
  out_len <- vget LeafCount (leaf_count_ dp) leaf ;;
  ret (begin, out_len).

Definition leaf_count (leaf : Z) (dp : DataPartition) : outcome Z :=
  vget LeafCount (leaf_count_ dp) leaf.

Definition leaf_begin (leaf : Z) (dp : DataPartition) : outcome Z :=
  vget LeafBegin (leaf_begin_ dp) leaf.

Definition num_leaves (dp : DataPartition) : Z := num_leaves_ dp.

Section Split.

Variable kAlignedSize : Z.
Variable dataset : Dataset.
Variables (feature : Z) (threshold : list Z) (num_threshold : Z)
          (default_left : bool).

(** The body handed to [Threading::For] by [Split]; [begin] is the offset
    of [left_start] in [indices_]. *)
Definition Split_block (begin : Z) (i cur_start cur_end : Z)
           (dp : DataPartition) : outcome DataPartition :=
  let cur_cnt := sub32 cur_end cur_start in
  if cur_cnt <=? 0 then
    lc <- vset LeftCnts (left_cnts_buf_ dp) i 0 ;;
    rc <- vset RightCnts (right_cnts_buf_ dp) i 0 ;;
    ret (set_right_cnts_buf rc (set_left_cnts_buf lc dp))
  else
    data_indices <- vread Indices (indices_ dp) (begin + cur_start) cur_cnt ;;
    let '(lte_indices, gt_indices) :=
      dataset feature threshold num_threshold default_left data_indices in
    tl <- vwrite TempLeft (temp_left_indices_ dp) cur_start lte_indices ;;
    tr <- vwrite TempRight (temp_right_indices_ dp) cur_start gt_indices ;;
    let cur_left_count := Z.of_nat (length lte_indices) in
    ob <- vset OffsetsBuf (offsets_buf_ dp) i cur_start ;;
    lc <- vset LeftCnts (left_cnts_buf_ dp) i cur_left_count ;;
    rc <- vset RightCnts (right_cnts_buf_ dp) i (sub32 cur_cnt cur_left_count) ;;
    ret (set_right_cnts_buf rc (set_left_cnts_buf lc (set_offsets_buf ob
          (set_temp_right_indices tr (set_temp_left_indices tl dp))))).

(** The loop [for (int i = 1; i < nblock; ++i)] that turns the per-block
    counts into write positions. *)
Fixpoint write_pos_loop (todo : nat) (i : Z) (dp : DataPartition)
  : outcome DataPartition :=
  match todo with
  | O => ret dp
  | Datatypes.S todo' =>
      lp <- vget LeftWritePos (left_write_pos_buf_ dp) (i - 1) ;;
      lc <- vget LeftCnts (left_cnts_buf_ dp) (i - 1) ;;
      lw <- vset LeftWritePos (left_write_pos_buf_ dp) i (add32 lp lc) ;;
      rp <- vget RightWritePos (right_write_pos_buf_ dp) (i - 1) ;;
      rc <- vget RightCnts (right_cnts_buf_ dp) (i - 1) ;;
      rw <- vset RightWritePos (right_write_pos_buf_ dp) i (add32 rp rc) ;;
      write_pos_loop todo' (i + 1)
        (set_right_write_pos_buf rw (set_left_write_pos_buf lw dp))
  end.

(** The loop [for (int i = 0; i < nblock; ++i)] that copies the blocks'
    scratch sections back; [left_start] and [right_start] are offsets in
    [indices_]. *)
Fixpoint copy_loop (todo : nat) (i left_start right_start : Z)
         (dp : DataPartition) : outcome DataPartition :=
  match todo with
  | O => ret dp
  | Datatypes.S todo' =>
      lo <- vget OffsetsBuf (offsets_buf_ dp) i ;;
      lc <- vget LeftCnts (left_cnts_buf_ dp) i ;;
      lp <- vget LeftWritePos (left_write_pos_buf_ dp) i ;;
      idx <- copy_n TempLeft (temp_left_indices_ dp) lo lc
                    Indices (indices_ dp) (left_start + lp) ;;
      ro <- vget OffsetsBuf (offsets_buf_ dp) i ;;
      rc <- vget RightCnts (right_cnts_buf_ dp) i ;;
      rp <- vget RightWritePos (right_write_pos_buf_ dp) i ;;
      idx <- copy_n TempRight (temp_right_indices_ dp) ro rc
                    Indices idx (right_start + rp) ;;
      copy_loop todo' (i + 1) left_start right_start (set_indices idx dp)
  end.

(** [Split(leaf, dataset, feature, threshold, num_threshold, default_left,
    right_leaf)] *)
Definition Split (omp_num_threads leaf right_leaf : Z) (dp : DataPartition)
  : outcome DataPartition :=
  (* get leaf boundary *)
  begin <- vget LeafBegin (leaf_begin_ dp) leaf ;;
  cnt <- vget LeafCount (leaf_count_ dp) leaf ;;
  let left_start := begin in
  r <- For kAlignedSize omp_num_threads 0 cnt 1024 (Split_block left_start) dp ;;
  let '(nblock, dp) := r in
  lw <- vset LeftWritePos (left_write_pos_buf_ dp) 0 0 ;;
  rw <- vset RightWritePos (right_write_pos_buf_ dp) 0 0 ;;
  let dp := set_right_write_pos_buf rw (set_left_write_pos_buf lw dp) in
  dp <- write_pos_loop (Z.to_nat (nblock - 1)) 1 dp ;;
  lp <- vget LeftWritePos (left_write_pos_buf_ dp) (nblock - 1) ;;
  lc <- vget LeftCnts (left_cnts_buf_ dp) (nblock - 1) ;;
  let left_cnt := add32 lp lc in
  let right_start := left_start + left_cnt in
  dp <- copy_loop (Z.to_nat nblock) 0 left_start right_start dp ;;
  (* update leaf boundary *)
  lc <- vset LeafCount (leaf_count_ dp) leaf left_cnt ;;
  lb <- vset LeafBegin (leaf_begin_ dp) right_leaf (add32 left_cnt begin) ;;
  lc <- vset LeafCount lc right_leaf (sub32 cnt left_cnt) ;;
  ret (set_leaf_begin lb (set_leaf_count lc dp)).

End Split.

(** *** Aligned allocator (meta.h) *)

Section AlignmentAllocator.

(** [std::size_t] has [size_bits] bits; [sizeof_T] is [sizeof(T)]. *)
Variable size_bits : Z.
Variable sizeof_T : Z.
Variable Alignment : Z.

Definition wrap_size (z : Z) : Z := z mod 2 ^ size_bits.

(** [(size_t)0 - (size_t)1) / sizeof(T)] *)
Definition max_size : Z := wrap_size (0 - 1) `div` sizeof_T.

(** How a call of [allocate] ends. *)
Inductive alloc_result : Type :=
| Returns (p : option Z)      (** [None] is [NULL] *)
| Throws_length_error
| Throws_bad_alloc.

(** [allocate(n)].  [_mm_malloc] is the platform's aligned allocation,
    [None] for [NULL]; the second component lists the requests made to
    it, as (size in bytes, alignment). *)
Definition allocate (_mm_malloc : Z -> Z -> option Z) (n : Z)
  : alloc_result * list (Z * Z) :=
  if n =? 0 then (Returns None, [])
  else if max_size <? n then (Throws_length_error, [])
  else
    let bytes := wrap_size (n * sizeof_T) in
    match _mm_malloc bytes Alignment with
    | None => (Throws_bad_alloc, [(bytes, Alignment)])
    | Some pv => (Returns (Some pv), [(bytes, Alignment)])
    end.

End AlignmentAllocator.

(** *** Further operations of the sources *)

(** The operations below are modelled without their access trace: the
    result is [None] when an access falls outside a vector. *)
Definition untraced {A : Type} (m : outcome A) : option A :=
  match m with
  | Ok a _ => Some a
  | Fault _ _ _ _ => None
  end.

(** [v[i]] for a vector that is no member of the store. *)
Definition at_ {A : Type} (v : list A) (i : Z) : option A :=
  if 0 <=? i then v !! Z.to_nat i else None.

(** The loop
    [for (i = 0; i < leaf_pred.size(); ++i)
       indices_per_leaf[leaf_pred[i]].push_back(i)]
    of [ResetByLeafPred], entered at [i] with [todo] iterations left. *)
Fixpoint push_back_loop (todo : nat) (i : Z) (leaf_pred : list Z)
         (indices_per_leaf : list (list Z)) : option (list (list Z)) :=
  match todo with
  | O => Some indices_per_leaf
  | Datatypes.S todo' =>
      leaf ← at_ leaf_pred i;
      ids ← at_ indices_per_leaf leaf;
      push_back_loop todo' (i + 1) leaf_pred
                     (<[Z.to_nat leaf := ids ++ [i]]> indices_per_leaf)
  end.

(** The loop [for (int i = 0; i < num_leaves_; ++i)] of [ResetByLeafPred]
    that lays the leaves out one behind the other. *)
Fixpoint layout_loop (todo : nat) (i offset : Z)
         (indices_per_leaf : list (list Z)) (dp : DataPartition)
  : option DataPartition :=
  match todo with
  | O => Some dp
  | Datatypes.S todo' =>
      lb ← untraced (vset LeafBegin (leaf_begin_ dp) i offset);
      ids ← at_ indices_per_leaf i;
      lc ← untraced (vset LeafCount (leaf_count_ dp) i
                          (wrap32 (Z.of_nat (length ids))));
      begin ← untraced (vget LeafBegin lb i);
      idx ← untraced (vwrite Indices (indices_ dp) begin ids);
      cnt ← untraced (vget LeafCount lc i);
      layout_loop todo' (i + 1) (add32 offset cnt) indices_per_leaf
                  (set_indices idx (set_leaf_count lc (set_leaf_begin lb dp)))
  end.

(** [ResetByLeafPred(leaf_pred, num_leaves)] *)
Definition ResetByLeafPred (leaf_pred : list Z) (num_leaves : Z)
           (dp : DataPartition) : option DataPartition :=
  let dp := ResetLeaves num_leaves dp in
  let indices_per_leaf := replicate (Z.to_nat (num_leaves_ dp)) [] in
  indices_per_leaf ←
    push_back_loop (Z.to_nat (wrap32 (Z.of_nat (length leaf_pred)))) 0
                   leaf_pred indices_per_leaf;
  layout_loop (Z.to_nat (num_leaves_ dp)) 0 0 indices_per_leaf dp.

(** *** [Threading::BalancedFor] (threading.h) *)

(** Calling the body for the tasks of one group, [for (auto j : group)]. *)
Fixpoint run_tasks {S : Type} (inner_fun : Z -> S -> option S)
         (tasks : list Z) (s : S) : option S :=
  match tasks with
  | [] => Some s
  | j :: tasks' => s' ← inner_fun j s; run_tasks inner_fun tasks' s'
  end.

(** The loop [for (int i = 0; i < num_threads; ++i)] over the groups. *)
Fixpoint run_groups {S : Type} (inner_fun : Z -> S -> option S)
         (todo : nat) (i : Z) (groups : list (list Z)) (s : S) : option S :=
  match todo with
  | O => Some s
  | Datatypes.S todo' =>
      group ← at_ groups i;
      s' ← run_tasks inner_fun group s;
      run_groups inner_fun todo' (i + 1) groups s'
  end.

Section BalancedFor.

(** [ArrayArgs<INDEX_T>::ArgMin] is declared outside the files at hand;
    it maps a vector to a position in it. *)
Variable ArgMin : list Z -> Z.

(** The loop [for (int i = 0; i < n; ++i)] that puts task [i] on the
    group [ArgMin(group_sizes)], for [INDEX_T = int]. *)
Fixpoint assign_loop (todo : nat) (i : Z) (size group_sizes : list Z)
         (groups : list (list Z)) : option (list Z * list (list Z)) :=
  match todo with
  | O => Some (group_sizes, groups)
  | Datatypes.S todo' =>
      let cur_group := wrap32 (ArgMin group_sizes) in
      group_size ← at_ group_sizes cur_group;
      size_i ← at_ size i;
      group ← at_ groups cur_group;
      assign_loop todo' (i + 1) size
        (<[Z.to_nat cur_group := add32 group_size size_i]> group_sizes)
        (<[Z.to_nat cur_group := group ++ [i]]> groups)
  end.

(** [Threading::BalancedFor(n, size, inner_fun)]; the state [s] is what
    the body captures by reference, and the body answers [None] when it
    fails. *)
Definition BalancedFor {S : Type} (omp_num_threads n : Z) (size : list Z)
           (inner_fun : Z -> S -> option S) (s : S) : option S :=
  let num_threads := omp_num_threads in
  let groups := replicate (Z.to_nat num_threads) [] in
  let group_sizes := replicate (Z.to_nat num_threads) 0 in
  r ← assign_loop (Z.to_nat n) 0 size group_sizes groups;
  run_groups inner_fun (Z.to_nat num_threads) 0 r.2 s.

End BalancedFor.

(** ** Part II: the vocabulary of the specification *)

Definition int32 (z : Z) : Prop := INT_MIN <= z <= INT_MAX.

(** Mathematical ceiling of [a / b]. *)
Definition ceil_div (a b : Z) : Z := - ((- a) `div` b).

(** [r] is [t] rounded up to the next multiple of [align]. *)
Definition rounded_up (align t r : Z) : Prop :=
  (align | r) /\ t <= r < t + align.

(** The block [i] of a range that starts at [start], ends at [end_] and is
    cut every [bs] elements: index, lower bound, upper bound. *)
Definition block (start end_ bs i : Z) : Z * Z * Z :=
  (i, start + i * bs, Z.min end_ (start + (i + 1) * bs)).

Definition blocks (start end_ nb bs : Z) : list (Z * Z * Z) :=
  block start end_ bs <$> seqZ 0 nb.

(** Position [p] lies in block [i]; a block whose lower bound is not
    below its upper bound holds no position. *)
Definition in_block (start end_ bs i p : Z) : Prop :=
  start + i * bs <= p < Z.min end_ (start + (i + 1) * bs).

(** Calling a body once for every block of a list, in the order of the
    list. *)
Fixpoint run_blocks {S : Type} (inner_fun : Z -> Z -> Z -> S -> outcome S)
         (bl : list (Z * Z * Z)) (s : S) : outcome S :=
  match bl with
  | [] => ret s
  | (i, lo, hi) :: bl' =>
      s' <- inner_fun i lo hi s ;; run_blocks inner_fun bl' s'
  end.

(** No intermediate value of [For] leaves the range of [int]. *)
Definition For_fits (align T start end_ m : Z) : Prop :=
  INT_MIN <= start /\
  end_ - start + m <= INT_MAX /\
  Z.max end_ (end_ - start) + (align + 1) * T <= INT_MAX.

(** The run [m] completes, with a value and a trace that satisfy [Q]. *)
Definition ok_with {A : Type} (m : outcome A) (Q : A -> list event -> Prop)
  : Prop :=
  match m with
  | Ok a tr => Q a tr
  | Fault _ _ _ _ => False
  end.

(** The [len] elements of [v] from position [off] on. *)
Definition slice (v : list Z) (off len : Z) : list Z :=
  take (Z.to_nat len) (drop (Z.to_nat off) v).

(** [v] with the elements from position [off] on replaced by [l]. *)
Definition splice (v : list Z) (off : Z) (l : list Z) : list Z :=
  take (Z.to_nat off) v ++ l ++ drop (Z.to_nat off + length l) v.

Definition sumZ (l : list Z) : Z := foldr Z.add 0 l.

Abbreviation lengthZ l := (Z.of_nat (length l)) (only parsing).

(** The vectors of a store have the sizes the constructor and the
    [Reset] operations give them. *)
Definition wf (dp : DataPartition) : Prop :=
  lengthZ (leaf_begin_ dp) = num_leaves_ dp /\
  lengthZ (leaf_count_ dp) = num_leaves_ dp /\
  lengthZ (indices_ dp) = num_data_ dp /\
  lengthZ (temp_left_indices_ dp) = num_data_ dp /\
  lengthZ (temp_right_indices_ dp) = num_data_ dp /\
  lengthZ (offsets_buf_ dp) = num_threads_ dp /\
  lengthZ (left_cnts_buf_ dp) = num_threads_ dp /\
  lengthZ (right_cnts_buf_ dp) = num_threads_ dp /\
  lengthZ (left_write_pos_buf_ dp) = num_threads_ dp /\
  lengthZ (right_write_pos_buf_ dp) = num_threads_ dp.

(** The bagging subset, if one is set, has [used_data_count_] elements
    and fits the index array. *)
Definition bagging_ok (dp : DataPartition) : Prop :=
  match used_data_indices_ dp with
  | None => True
  | Some used =>
      0 <= used_data_count_ dp <= num_data_ dp /\
      used_data_count_ dp <= lengthZ used
  end.

(** The active example ids: all of them, or the bagging subset in its
    given order. *)
Definition active (dp : DataPartition) : list Z :=
  match used_data_indices_ dp with
  | None => seqZ 0 (num_data_ dp)
  | Some used => slice used 0 (used_data_count_ dp)
  end.

(** The ids that [GetIndexOnLeaf(leaf)] hands out: the returned count
    many elements from the returned pointer on. *)
Definition leaf_range (dp : DataPartition) (leaf : Z) : list Z :=
  match GetIndexOnLeaf leaf dp with
  | Ok (begin, len) _ => slice (indices_ dp) begin len
  | Fault _ _ _ _ => []
  end.

(** Position [p] of [indices_] belongs to [leaf]. *)
Definition in_leaf (dp : DataPartition) (leaf p : Z) : Prop :=
  exists begin cnt,
    0 <= leaf /\
    leaf_begin_ dp !! Z.to_nat leaf = Some begin /\
    leaf_count_ dp !! Z.to_nat leaf = Some cnt /\
    begin <= p < begin + cnt.

(** The leaf ranges lie in the prefix [0, total) of [indices_], cover it
    and do not overlap. *)
Definition tiles (dp : DataPartition) (total : Z) : Prop :=
  (forall leaf begin cnt,
      0 <= leaf ->
      leaf_begin_ dp !! Z.to_nat leaf = Some begin ->
      leaf_count_ dp !! Z.to_nat leaf = Some cnt ->
      0 <= begin /\ 0 <= cnt /\ begin + cnt <= total) /\
  (forall p, 0 <= p < total -> exists leaf, in_leaf dp leaf p) /\
  (forall p leaf1 leaf2, in_leaf dp leaf1 p -> in_leaf dp leaf2 p ->
                         leaf1 = leaf2).

(** The partition invariant of the store. *)
Definition partition_invariant (dp : DataPartition) : Prop :=
  let total := lengthZ (active dp) in
  wf dp /\
  sumZ (leaf_count_ dp) = total /\
  total <= num_data_ dp /\
  tiles dp total /\
  slice (indices_ dp) 0 total ≡ₚ active dp.

(** [p] is split into [l] and [r], each keeping the order it has in [p]. *)
Inductive stable_partition : list Z -> list Z -> list Z -> Prop :=
| stable_nil : stable_partition [] [] []
| stable_left x l r p :
    stable_partition l r p -> stable_partition (x :: l) r (x :: p)
| stable_right x l r p :
    stable_partition l r p -> stable_partition l (x :: r) (x :: p).

(** The dataset's split decision hands every id of the slice to exactly
    one side ... *)
Definition oracle_counts (dataset : Dataset) : Prop :=
  forall feature threshold num_threshold default_left data_indices,
    let '(lte, gt) :=
      dataset feature threshold num_threshold default_left data_indices in
    lengthZ lte + lengthZ gt = lengthZ data_indices.

(** ... and does not reorder the ids it keeps on the same side. *)
Definition oracle_stable (dataset : Dataset) : Prop :=
  forall feature threshold num_threshold default_left data_indices,
    let '(lte, gt) :=
      dataset feature threshold num_threshold default_left data_indices in
    stable_partition lte gt data_indices.

(** What the split decision makes of one block of the leaf: nothing for
    a block without positions, else its answer on the block's slice of
    the leaf's ids. *)
Definition block_out (oracle : list Z -> list Z * list Z) (indices : list Z)
           (begin : Z) (blk : Z * Z * Z) : list Z * list Z :=
  let '(_, lo, hi) := blk in
  if hi - lo <=? 0 then ([], []) else oracle (slice indices (begin + lo) (hi - lo)).

(** The accesses of the body of [Split] on one block. *)
Definition scatter_trace (begin : Z) (blk : Z * Z * Z) (out : list Z * list Z)
  : list event :=
  let '(i, lo, hi) := blk in
  if hi - lo <=? 0 then [Wr LeftCnts i 1; Wr RightCnts i 1]
  else [Rd Indices (begin + lo) (hi - lo);
        Wr TempLeft lo (lengthZ out.1); Wr TempRight lo (lengthZ out.2);
        Wr OffsetsBuf i 1; Wr LeftCnts i 1; Wr RightCnts i 1].

(** The store with its per-call scratch vectors replaced. *)
Definition with_scratch (tl tr ob lc rc : list Z) (dp : DataPartition)
  : DataPartition :=
  set_right_cnts_buf rc (set_left_cnts_buf lc (set_offsets_buf ob
    (set_temp_right_indices tr (set_temp_left_indices tl dp)))).

(** What [Split] requires of a call: a well-formed store, no more threads
    than at construction, valid and different leaves, the leaf's range
    [begin, begin + cnt) inside the index array, and counts far enough
    from [INT_MAX]. *)
Definition Split_pre (align T leaf right_leaf : Z) (dp : DataPartition)
           (begin cnt : Z) : Prop :=
  wf dp /\
  1 <= T <= num_threads_ dp /\
  0 <= leaf /\ 0 <= right_leaf < num_leaves_ dp /\ leaf <> right_leaf /\
  leaf_begin_ dp !! Z.to_nat leaf = Some begin /\
  leaf_count_ dp !! Z.to_nat leaf = Some cnt /\
  0 <= begin /\ 0 <= cnt /\ begin + cnt <= num_data_ dp /\
  num_data_ dp + 1024 <= INT_MAX /\
  num_data_ dp + (align + 1) * T <= INT_MAX.

(** The accesses of the first parallel loop of [Split]. *)
Definition scatter_traces (oracle : list Z -> list Z * list Z)
           (indices : list Z) (begin : Z) (bl : list (Z * Z * Z))
  : list event :=
  concat ((fun blk => scatter_trace begin blk (block_out oracle indices begin blk))
            <$> bl).

(** The scratch vectors hold the results of the blocks below [k]. *)
Definition scattered (oracle : list Z -> list Z * list Z) (indices : list Z)
           (begin cnt bs k : Z) (tl tr ob lc rc : list Z) : Prop :=
  forall j, 0 <= j < k ->
    let blk := block 0 cnt bs j in
    let out := block_out oracle indices begin blk in
    lc !! Z.to_nat j = Some (lengthZ out.1) /\
    rc !! Z.to_nat j = Some (lengthZ out.2) /\
    (blk.2 - blk.1.2 <= 0 -> out = ([], [])) /\
    (0 < blk.2 - blk.1.2 ->
     ob !! Z.to_nat j = Some blk.1.2 /\
     slice tl blk.1.2 (lengthZ out.1) = out.1 /\
     slice tr blk.1.2 (lengthZ out.2) = out.2 /\
     lengthZ out.1 + lengthZ out.2 = blk.2 - blk.1.2).

(** The accesses of one round of the loop that computes the write
    positions. *)
Definition prefix_trace (i : Z) : list event :=
  [Rd LeftWritePos (i - 1) 1; Rd LeftCnts (i - 1) 1; Wr LeftWritePos i 1;
   Rd RightWritePos (i - 1) 1; Rd RightCnts (i - 1) 1; Wr RightWritePos i 1].

(** The answers of the split decision on the blocks of a leaf, block by
    block. *)
Definition block_outs (oracle : list Z -> list Z * list Z) (indices : list Z)
           (begin cnt nb bs : Z) : list (list Z * list Z) :=
  block_out oracle indices begin <$> blocks 0 cnt nb bs.

(** Where block [k] is to write: behind what the blocks before it have. *)
Definition write_pos (ls : list (list Z)) (k : Z) : Z :=
  lengthZ (concat (take (Z.to_nat k) ls)).

(** The accesses of the second parallel loop of [Split] on one block. *)
Definition gather_trace (left_start right_start : Z)
           (outs : list (list Z * list Z)) (blk : Z * Z * Z) : list event :=
  let '(i, lo, _) := blk in
  let out := default ([], []) (outs !! Z.to_nat i) in
  [Rd OffsetsBuf i 1; Rd LeftCnts i 1; Rd LeftWritePos i 1]
  ++ (if lengthZ out.1 <=? 0 then []
      else [Rd TempLeft lo (lengthZ out.1);
            Wr Indices (left_start + write_pos outs.*1 i) (lengthZ out.1)])
  ++ [Rd OffsetsBuf i 1; Rd RightCnts i 1; Rd RightWritePos i 1]
  ++ (if lengthZ out.2 <=? 0 then []
      else [Rd TempRight lo (lengthZ out.2);
            Wr Indices (right_start + write_pos outs.*2 i) (lengthZ out.2)]).

(** All the accesses of a call of [Split] on a leaf with range
    [begin, begin + cnt), laid out in [nb] blocks of size [bs]. *)
Definition Split_trace (oracle : list Z -> list Z * list Z) (indices : list Z)
           (leaf right_leaf begin cnt nb bs : Z) : list event :=
  let bl := blocks 0 cnt nb bs in
  let outs := block_outs oracle indices begin cnt nb bs in
  let left_cnt := lengthZ (concat outs.*1) in
  [Rd LeafBegin leaf 1; Rd LeafCount leaf 1]
  ++ scatter_traces oracle indices begin bl
  ++ [Wr LeftWritePos 0 1; Wr RightWritePos 0 1]
  ++ concat (prefix_trace <$> seqZ 1 (nb - 1))
  ++ [Rd LeftWritePos (nb - 1) 1; Rd LeftCnts (nb - 1) 1]
  ++ concat (gather_trace begin (begin + left_cnt) outs <$> bl)
  ++ [Wr LeafCount leaf 1; Wr LeafBegin right_leaf 1; Wr LeafCount right_leaf 1].

(** The store [dp'] that a call of [Split] leaves behind, given the store
    [dp] it started from. *)
Definition Split_post (oracle : list Z -> list Z * list Z)
           (dp : DataPartition) (leaf right_leaf begin cnt nb bs : Z)
           (dp' : DataPartition) : Prop :=
  let outs := block_outs oracle (indices_ dp) begin cnt nb bs in
  let left_cnt := lengthZ (concat outs.*1) in
  num_data_ dp' = num_data_ dp /\
  num_leaves_ dp' = num_leaves_ dp /\
  used_data_indices_ dp' = used_data_indices_ dp /\
  used_data_count_ dp' = used_data_count_ dp /\
  num_threads_ dp' = num_threads_ dp /\
  leaf_begin_ dp'
  = <[Z.to_nat right_leaf := begin + left_cnt]> (leaf_begin_ dp) /\
  leaf_count_ dp'
  = <[Z.to_nat right_leaf := cnt - left_cnt]>
      (<[Z.to_nat leaf := left_cnt]> (leaf_count_ dp)) /\
  indices_ dp'
  = splice (indices_ dp) begin (concat outs.*1 ++ concat outs.*2) /\
  left_cnt + lengthZ (concat outs.*2) = cnt /\
  lengthZ (temp_left_indices_ dp') = lengthZ (temp_left_indices_ dp) /\
  lengthZ (temp_right_indices_ dp') = lengthZ (temp_right_indices_ dp) /\
  lengthZ (offsets_buf_ dp') = lengthZ (offsets_buf_ dp) /\
  lengthZ (left_cnts_buf_ dp') = lengthZ (left_cnts_buf_ dp) /\
  lengthZ (right_cnts_buf_ dp') = lengthZ (right_cnts_buf_ dp) /\
  lengthZ (left_write_pos_buf_ dp') = lengthZ (left_write_pos_buf_ dp) /\
  lengthZ (right_write_pos_buf_ dp') = lengthZ (right_write_pos_buf_ dp).

(** A call [Split(leaf, ..., right_leaf)] as the tree learner makes it:
    valid leaves, [right_leaf] not in use yet, no more threads than at
    construction, counts far enough from [INT_MAX]. *)
Definition valid_split (align T leaf right_leaf : Z) (dp : DataPartition)
           (cnt : Z) : Prop :=
  1 <= T <= num_threads_ dp /\
  0 <= leaf < num_leaves_ dp /\
  0 <= right_leaf < num_leaves_ dp /\
  leaf_count_ dp !! Z.to_nat leaf = Some cnt /\
  leaf_count_ dp !! Z.to_nat right_leaf = Some 0 /\
  num_data_ dp + 1024 <= INT_MAX /\
  num_data_ dp + (align + 1) * T <= INT_MAX.



(** *** Write before read *)

#[global] Instance buffer_eq_dec : EqDecision buffer.
Proof. solve_decision. Defined.

(** The scratch sequences of the store ... *)
Definition is_temp (b : buffer) : bool :=
  match b with TempLeft | TempRight => true | _ => false end.

(** ... and all of its per-call scratch state. *)
Definition is_scratch (b : buffer) : bool :=
  match b with
  | TempLeft | TempRight | OffsetsBuf | LeftCnts | RightCnts
  | LeftWritePos | RightWritePos => true
  | _ => false
  end.

(** The per-call scratch state without the block offsets. *)
Definition is_scratch_except_offsets (b : buffer) : bool :=
  match b with
  | TempLeft | TempRight | LeftCnts | RightCnts
  | LeftWritePos | RightWritePos => true
  | _ => false
  end.

(** Some write among [seen] covers the elements [off, off + len) of [b]. *)
Definition covered (b : buffer) (off len : Z) (seen : list event) : bool :=
  existsb (fun e => match e with
                    | Wr b' off' len' =>
                        bool_decide (b' = b) && (off' <=? off)
                        && (off + len <=? off' + len')
                    | Rd _ _ _ => false
                    end) seen.

(** Every read in [tr] of a buffer selected by [P] is covered by a write
    made before it, in [seen] or earlier in [tr]. *)
Fixpoint write_before_read (P : buffer -> bool) (seen tr : list event) : bool :=
  match tr with
  | [] => true
  | e :: tr' =>
      match e with
      | Rd b off len => if P b then covered b off len seen else true
      | Wr _ _ _ => true
      end && write_before_read P (e :: seen) tr'
  end.

(** *** Example data *)

(** A split decision that routes the even ids left. *)
Definition even_left : Dataset :=
  fun _ _ _ _ data_indices =>
    (filter (fun x => Z.even x = true) data_indices,
     filter (fun x => Z.even x = false) data_indices).

(** A split decision that routes every id left. *)
Definition all_left : Dataset := fun _ _ _ _ data_indices => (data_indices, []).

(** A store for 8 examples and 4 leaves built with 4 threads, after
    [Init]. *)
Definition store8 : DataPartition :=
  set_indices [0; 1; 2; 3; 4; 5; 6; 7]
    (set_leaf_count [8; 0; 0; 0] (DataPartition_new 4 0 8 4)).

(** [store8] after [Split(0, ..., 1)] with [all_left]: leaf 1 is empty. *)
Definition store8_all_left : DataPartition :=
  match Split 32 all_left 0 [] 0 true 4 0 1 store8 with
  | Ok dp _ => dp
  | Fault _ _ _ _ => store8
  end.

(** A store for 10 examples and 4 leaves built with 4 threads, with the
    bagging subset [5; 2; 9; 1; 7] set. *)
Definition bagged5 : DataPartition :=
  SetUsedDataIndices (Some [5; 2; 9; 1; 7]) 5 (DataPartition_new 4 0 10 4).

(** [bagged5] after [Init]: leaf 0 holds [5; 2; 9; 1; 7]. *)
Definition store5 : DataPartition :=
  match Init bagged5 with
  | Ok dp _ => dp
  | Fault _ _ _ _ => bagged5
  end.

(** [store5] after two calls of [Split] with [even_left]: leaf 0 holds
    [2], leaf 2 holds [5; 9; 1; 7] and leaf 1 is empty. *)
Definition store5_split : DataPartition :=
  match Split 32 even_left 0 [] 0 true 4 0 1 store5 with
  | Ok dp _ =>
      match Split 32 even_left 0 [] 0 true 4 1 2 dp with
      | Ok dp' _ => dp'
      | Fault _ _ _ _ => dp
      end
  | Fault _ _ _ _ => store5
  end.

(** A store for 2048 examples and 2 leaves built with one thread, after
    [Init]. *)
Definition store2048 : DataPartition :=
  set_indices (seqZ 0 2048)
    (set_leaf_count [2048; 0] (DataPartition_new 1 0 2048 2)).

(** A store for 34817 examples built with 34 threads, after [Init]. *)
Definition store34817 : DataPartition :=
  set_indices (seqZ 0 34817)
    (set_leaf_count [34817; 0] (DataPartition_new 34 0 34817 2)).

(** *** Vocabulary for the further properties *)

(** The split decision routes each id on its own: [goes_left] tells, from
    the arguments of the call and the id, whether the id goes left; the
    ids of each side keep their order. *)
Definition routes_by (dataset : Dataset)
           (goes_left : Z -> list Z -> Z -> bool -> Z -> bool) : Prop :=
  forall feature threshold num_threshold default_left data_indices,
    dataset feature threshold num_threshold default_left data_indices
    = (filter (fun x => goes_left feature threshold num_threshold
                                  default_left x = true) data_indices,
       filter (fun x => goes_left feature threshold num_threshold
                                  default_left x = false) data_indices).

(** The examples among the first [n] that [leaf_pred] puts on [leaf], in
    increasing order. *)
Definition on_leaf_upto (leaf_pred : list Z) (n leaf : Z) : list Z :=
  filter (fun i => leaf_pred !! Z.to_nat i = Some leaf) (seqZ 0 n).

(** The examples that [leaf_pred] puts on [leaf]. *)
Definition on_leaf (leaf_pred : list Z) (leaf : Z) : list Z :=
  on_leaf_upto leaf_pred (Z.of_nat (length leaf_pred)) leaf.

(** The size of a group of tasks: the sum of the sizes of its tasks. *)
Definition load (size : list Z) (group : list Z) : Z :=
  sumZ ((fun j => default 0 (size !! Z.to_nat j)) <$> group).

(** [ArgMin] answers a position of the vector it is given ... *)
Definition ArgMin_in_range (ArgMin : list Z -> Z) : Prop :=
  forall v, v <> [] -> 0 <= ArgMin v < Z.of_nat (length v).

(** ... at which the vector is smallest. *)
Definition ArgMin_smallest (ArgMin : list Z -> Z) : Prop :=
  forall v (j : nat) x y,
    v !! Z.to_nat (ArgMin v) = Some x -> v !! j = Some y -> x <= y.

(** An [ArgMin] for the examples: the position of the first smallest
    element. *)
Fixpoint first_min (best_pos best cur : Z) (v : list Z) : Z :=
  match v with
  | [] => best_pos
  | x :: v' =>
      if x <? best then first_min cur x (cur + 1) v'
      else first_min best_pos best (cur + 1) v'
  end.

Definition first_ArgMin (v : list Z) : Z :=
  match v with
  | [] => 0
  | x :: v' => first_min 0 x 1 v'
  end.

(** What an access touches, and whether it writes. *)
Definition touched (e : event) : buffer * Z * Z :=
  match e with
  | Rd b off len | Wr b off len => (b, off, len)
  end.

Definition is_write (e : event) : bool :=
  match e with
  | Wr _ _ _ => true
  | Rd _ _ _ => false
  end.

(** Two accesses conflict when one of them writes and they touch a common
    element of the same vector. *)
Definition conflict (e1 e2 : event) : Prop :=
  (is_write e1 = true \/ is_write e2 = true) /\
  (touched e1).1.1 = (touched e2).1.1 /\
  exists p,
    (touched e1).1.2 <= p < (touched e1).1.2 + (touched e1).2 /\
    (touched e2).1.2 <= p < (touched e2).1.2 + (touched e2).2.

(** ** Part III: lemmas and theorems *)

(** *** Arithmetic *)

(** Range side conditions are linear once the constants are unfolded. *)
Ltac range32 := unfold int32, INT_MIN, INT_MAX in *; lia.

Lemma wrap32_id z : int32 z -> wrap32 z = z.
Proof.
  unfold int32, INT_MIN, INT_MAX, wrap32. intros H.
  rewrite Z.mod_small; lia.
Qed.

Lemma add32_id a b : int32 (a + b) -> add32 a b = a + b.
Proof. apply wrap32_id. Qed.

Lemma sub32_id a b : int32 (a - b) -> sub32 a b = a - b.
Proof. apply wrap32_id. Qed.

Lemma mul32_id a b : int32 (a * b) -> mul32 a b = a * b.
Proof. apply wrap32_id. Qed.

Lemma div32_nonneg a b : 0 <= a <= INT_MAX -> 0 < b -> div32 a b = a `div` b.
Proof.
  intros Ha Hb. unfold div32. rewrite Z.quot_div_nonneg by lia.
  apply wrap32_id.
  assert (0 <= a `div` b) by (apply Z.div_pos; lia).
  assert (a `div` b <= a) by (apply Z.div_le_upper_bound; nia).
  range32.
Qed.

Lemma ceil_div_eq a b : 0 < b -> ceil_div a b = (a + b - 1) `div` b.
Proof.
  intros Hb. unfold ceil_div.
  pose proof (Z.div_mod (- a) b ltac:(lia)) as H1.
  pose proof (Z.mod_pos_bound (- a) b Hb) as H2.
  apply Z.div_unique with (r := b - 1 - (- a) `mod` b); nia.
Qed.

Lemma ceil_div_bounds a b : 0 < b -> a <= ceil_div a b * b < a + b.
Proof.
  intros Hb. unfold ceil_div.
  pose proof (Z.div_mod (- a) b ltac:(lia)) as H1.
  pose proof (Z.mod_pos_bound (- a) b Hb) as H2. nia.
Qed.

Lemma ceil_div_nonneg a b : 0 < b -> 0 <= a -> 0 <= ceil_div a b.
Proof. intros Hb Ha. pose proof (ceil_div_bounds a b Hb). nia. Qed.

Lemma ceil_div_pos a b : 0 < b -> 0 < a -> 0 < ceil_div a b.
Proof. intros Hb Ha. pose proof (ceil_div_bounds a b Hb). nia. Qed.

Lemma ceil_div_le a b : 0 < b -> 0 <= a -> ceil_div a b <= a.
Proof.
  intros Hb Ha. pose proof (ceil_div_bounds a b Hb).
  destruct (decide (a = 0)) as [->|]; nia.
Qed.

Lemma ceil_div_0 b : 0 < b -> ceil_div 0 b = 0.
Proof. intros Hb. pose proof (ceil_div_bounds 0 b Hb). nia. Qed.

(** *** The monad *)

Lemma ok_with_ret {A : Type} (a : A) (Q : A -> list event -> Prop) :
  Q a [] -> ok_with (ret a) Q.
Proof. done. Qed.

Lemma ok_with_bind {A B : Type} (m : outcome A) (k : A -> outcome B)
      (Q : B -> list event -> Prop) :
  ok_with m (fun a tr1 => ok_with (k a) (fun b tr2 => Q b (tr1 ++ tr2))) ->
  ok_with (x <- m ;; k x) Q.
Proof.
  destruct m as [a tr1|]; [|done]. cbn [ok_with bind].
  by destruct (k a).
Qed.

Lemma ok_with_mono {A : Type} (m : outcome A) (Q Q' : A -> list event -> Prop) :
  ok_with m Q -> (forall a tr, Q a tr -> Q' a tr) -> ok_with m Q'.
Proof. destruct m; [|done]. simpl. auto. Qed.

Lemma ok_with_inv {A : Type} (m : outcome A) (Q : A -> list event -> Prop) :
  ok_with m Q -> exists a tr, m = Ok a tr /\ Q a tr.
Proof. destruct m as [a tr|]; [|done]. simpl. eauto. Qed.

Lemma ok_with_intro {A : Type} (m : outcome A) (Q : A -> list event -> Prop)
      a tr :
  m = Ok a tr -> Q a tr -> ok_with m Q.
Proof. by intros ->. Qed.

(** *** Vectors *)

Lemma in_bounds_true v off len :
  0 <= off -> 0 <= len -> off + len <= lengthZ v -> in_bounds v off len = true.
Proof.
  unfold in_bounds. intros.
  rewrite !andb_true_iff, !Z.leb_le. lia.
Qed.

Lemma ok_vget b v i x (Q : Z -> list event -> Prop) :
  0 <= i -> v !! Z.to_nat i = Some x -> Q x [Rd b i 1] ->
  ok_with (vget b v i) Q.
Proof.
  intros Hi Hx HQ. unfold vget.
  destruct (0 <=? i) eqn:E; [|apply Z.leb_gt in E; lia].
  by rewrite Hx.
Qed.

Lemma ok_vset b v i x (Q : list Z -> list event -> Prop) :
  0 <= i < lengthZ v -> Q (<[Z.to_nat i := x]> v) [Wr b i 1] ->
  ok_with (vset b v i x) Q.
Proof.
  intros Hi HQ. unfold vset. by rewrite in_bounds_true by lia.
Qed.

Lemma ok_vread b v off len (Q : list Z -> list event -> Prop) :
  0 <= off -> 0 <= len -> off + len <= lengthZ v ->
  Q (slice v off len) [Rd b off len] ->
  ok_with (vread b v off len) Q.
Proof.
  intros H1 H2 H3 HQ. unfold vread. by rewrite in_bounds_true.
Qed.

Lemma ok_vwrite b v off l (Q : list Z -> list event -> Prop) :
  0 <= off -> off + lengthZ l <= lengthZ v ->
  Q (splice v off l) [Wr b off (lengthZ l)] ->
  ok_with (vwrite b v off l) Q.
Proof.
  intros H1 H2 HQ. unfold vwrite.
  by rewrite in_bounds_true by lia.
Qed.

Lemma ok_vfill b v x (Q : list Z -> list event -> Prop) :
  Q (replicate (length v) x) [Wr b 0 (Z.of_nat (length v))] ->
  ok_with (vfill b v x) Q.
Proof. done. Qed.

Lemma length_slice v off len :
  0 <= off -> 0 <= len -> off + len <= lengthZ v ->
  lengthZ (slice v off len) = len.
Proof.
  unfold slice. intros. rewrite length_take, length_drop. lia.
Qed.

Lemma length_splice v off l :
  0 <= off -> off + lengthZ l <= lengthZ v ->
  lengthZ (splice v off l) = lengthZ v.
Proof.
  unfold splice. intros.
  rewrite !length_app, length_take, length_drop. lia.
Qed.

Lemma lookup_slice v off len (i : nat) :
  0 <= off -> 0 <= len ->
  slice v off len !! i
  = if decide (Z.of_nat i < len) then v !! (Z.to_nat off + i)%nat else None.
Proof.
  intros Hoff Hlen. unfold slice. case_decide.
  - rewrite lookup_take_lt by lia. by rewrite lookup_drop.
  - by rewrite lookup_take_ge by lia.
Qed.

Lemma lookup_splice v off l (i : nat) :
  0 <= off -> off + lengthZ l <= lengthZ v ->
  splice v off l !! i
  = if decide (off <= Z.of_nat i < off + lengthZ l)
    then l !! (i - Z.to_nat off)%nat else v !! i.
Proof.
  unfold splice. intros Hoff Hlen.
  destruct (decide (Z.of_nat i < off)).
  - rewrite lookup_app_l by (rewrite length_take; lia).
    rewrite lookup_take_lt by lia. case_decide; [lia | done].
  - rewrite lookup_app_r by (rewrite length_take; lia).
    rewrite length_take, Nat.min_l by lia.
    case_decide.
    + by rewrite lookup_app_l by lia.
    + rewrite lookup_app_r by lia. rewrite lookup_drop. f_equal. lia.
Qed.

(** Reading back what was just written. *)
Lemma slice_splice_same v off l :
  0 <= off -> off + lengthZ l <= lengthZ v ->
  slice (splice v off l) off (lengthZ l) = l.
Proof.
  intros Hoff Hlen. apply list_eq. intros i.
  rewrite lookup_slice by lia.
  case_decide as Hi.
  - rewrite lookup_splice by done.
    rewrite decide_True by lia. f_equal. lia.
  - symmetry. apply lookup_ge_None. lia.
Qed.

(** A write does not change what lies outside of it. *)
Lemma slice_splice_disjoint v off l off' len :
  0 <= off -> off + lengthZ l <= lengthZ v -> 0 <= off' -> 0 <= len ->
  off' + len <= off \/ off + lengthZ l <= off' ->
  slice (splice v off l) off' len = slice v off' len.
Proof.
  intros Hoff Hlen Hoff' Hlen' Hdisj. apply list_eq. intros i.
  rewrite !lookup_slice by done. case_decide; [|done].
  rewrite lookup_splice by done. rewrite decide_False; [done | lia].
Qed.

Lemma splice_nil v off : 0 <= off <= lengthZ v -> splice v off [] = v.
Proof.
  intros H. unfold splice. simpl. rewrite Nat.add_0_r. apply take_drop.
Qed.

Lemma lengthZ_app {A : Type} (l1 l2 : list A) :
  lengthZ (l1 ++ l2) = lengthZ l1 + lengthZ l2.
Proof. rewrite length_app. lia. Qed.

Lemma lengthZ_nonneg {A : Type} (l : list A) : 0 <= lengthZ l.
Proof. lia. Qed.

(** Two adjacent writes are one write of the concatenation. *)
Lemma splice_splice_adjacent v off l1 l2 :
  0 <= off -> off + lengthZ l1 + lengthZ l2 <= lengthZ v ->
  splice (splice v off l1) (off + lengthZ l1) l2 = splice v off (l1 ++ l2).
Proof.
  intros Hoff Hlen.
  pose proof (lengthZ_nonneg l1). pose proof (lengthZ_nonneg l2).
  assert (lengthZ (splice v off l1) = lengthZ v) as E1
    by (apply length_splice; lia).
  pose proof (lengthZ_app l1 l2) as E2.
  apply list_eq. intros i.
  rewrite (lookup_splice (splice v off l1)) by lia.
  rewrite (lookup_splice v off l1) by lia.
  rewrite (lookup_splice v off (l1 ++ l2)) by lia.
  rewrite E2.
  repeat case_decide; try lia; try done.
  - rewrite lookup_app_r by lia. f_equal. lia.
  - by rewrite lookup_app_l by lia.
Qed.

(** Writes to disjoint places commute. *)
Lemma splice_comm v off1 l1 off2 l2 :
  0 <= off1 -> off1 + lengthZ l1 <= off2 -> off2 + lengthZ l2 <= lengthZ v ->
  splice (splice v off1 l1) off2 l2 = splice (splice v off2 l2) off1 l1.
Proof.
  intros H1 H2 H3.
  pose proof (lengthZ_nonneg l1). pose proof (lengthZ_nonneg l2).
  assert (lengthZ (splice v off1 l1) = lengthZ v) as E1
    by (apply length_splice; lia).
  assert (lengthZ (splice v off2 l2) = lengthZ v) as E2
    by (apply length_splice; lia).
  apply list_eq. intros i.
  rewrite (lookup_splice (splice v off1 l1)) by lia.
  rewrite (lookup_splice (splice v off2 l2)) by lia.
  rewrite (lookup_splice v off1 l1) by lia.
  rewrite (lookup_splice v off2 l2) by lia.
  repeat case_decide; try lia; done.
Qed.

Lemma splice_take_drop v off l :
  0 <= off -> off + lengthZ l <= lengthZ v ->
  take (Z.to_nat off) (splice v off l) = take (Z.to_nat off) v /\
  drop (Z.to_nat (off + lengthZ l)) (splice v off l)
  = drop (Z.to_nat (off + lengthZ l)) v /\
  slice (splice v off l) off (lengthZ l) = l.
Proof.
  intros H1 H2. split_and!.
  - unfold splice. rewrite take_app_le by (rewrite length_take; lia).
    rewrite take_take. f_equal. lia.
  - unfold splice in *. rewrite app_assoc, drop_app_ge
      by (rewrite length_app, length_take; lia).
    rewrite length_app, length_take, drop_drop. f_equal. lia.
  - by apply slice_splice_same.
Qed.


(** *** Block scheduler *)

Section ThreadingFacts.

Variable kAlignedSize : Z.
Hypothesis kAlignedSize_pos : 1 <= kAlignedSize.

Lemma SIZE_ALIGNED_exact t :
  0 <= t -> t + kAlignedSize <= INT_MAX ->
  SIZE_ALIGNED kAlignedSize t
  = (t + kAlignedSize - 1) `div` kAlignedSize * kAlignedSize.
Proof using kAlignedSize_pos.
  intros Ht Hfit. unfold SIZE_ALIGNED.
  rewrite add32_id by range32.
  rewrite sub32_id by range32.
  rewrite div32_nonneg by range32.
  apply mul32_id.
  pose proof (Z.div_mod (t + kAlignedSize - 1) kAlignedSize ltac:(lia)) as H1.
  pose proof (Z.mod_pos_bound (t + kAlignedSize - 1) kAlignedSize ltac:(lia)) as H2.
  unfold int32, INT_MIN, INT_MAX in *. nia.
Qed.

Lemma SIZE_ALIGNED_rounded_up t :
  0 <= t -> t + kAlignedSize <= INT_MAX ->
  rounded_up kAlignedSize t (SIZE_ALIGNED kAlignedSize t).
Proof using kAlignedSize_pos.
  intros Ht Hfit. rewrite SIZE_ALIGNED_exact by done.
  pose proof (Z.div_mod (t + kAlignedSize - 1) kAlignedSize ltac:(lia)) as H1.
  pose proof (Z.mod_pos_bound (t + kAlignedSize - 1) kAlignedSize ltac:(lia)) as H2.
  split; [apply Z.divide_factor_r | nia].
Qed.

Lemma BlockInfo_threads_eq T cnt m :
  BlockInfo_threads kAlignedSize T cnt m = BlockInfo kAlignedSize T cnt m.
Proof. reflexivity. Qed.

(** What [BlockInfo] computes when nothing overflows. *)
Lemma BlockInfo_exact T cnt m :
  0 <= cnt -> 1 <= m -> 1 <= T ->
  cnt + m <= INT_MAX -> cnt + T <= INT_MAX -> cnt + kAlignedSize <= INT_MAX ->
  let nb := Z.min T (ceil_div cnt m) in
  BlockInfo kAlignedSize T cnt m
  = (nb, if 1 <? nb then SIZE_ALIGNED kAlignedSize (ceil_div cnt nb) else cnt).
Proof.
  intros Hc Hm HT Hfit1 Hfit2 Hfit3 nb. unfold BlockInfo.
  rewrite add32_id by range32.
  rewrite sub32_id by range32.
  rewrite div32_nonneg by range32.
  rewrite <- ceil_div_eq by lia. fold nb.
  destruct (1 <? nb) eqn:E; [|done].
  apply Z.ltb_lt in E.
  rewrite add32_id by range32.
  rewrite sub32_id by range32.
  rewrite div32_nonneg by range32.
  by rewrite <- ceil_div_eq by lia.
Qed.

Lemma BlockInfo_spec T cnt m nb bs :
  0 <= cnt -> 1 <= m -> 1 <= T ->
  cnt + m <= INT_MAX -> cnt + T <= INT_MAX -> cnt + kAlignedSize <= INT_MAX ->
  BlockInfo kAlignedSize T cnt m = (nb, bs) ->
  nb = Z.min T (ceil_div cnt m) /\
  (nb <= 1 -> bs = cnt) /\
  (1 < nb -> rounded_up kAlignedSize (ceil_div cnt nb) bs) /\
  cnt <= nb * bs /\ 0 <= nb <= T /\ 0 <= bs /\
  (0 < cnt -> 1 <= nb /\ 1 <= bs) /\
  nb * bs <= cnt + (kAlignedSize + 1) * T.
Proof using kAlignedSize_pos.
  intros Hc Hm HT Hfit1 Hfit2 Hfit3 HB.
  rewrite BlockInfo_exact in HB by done.
  injection HB as Hnb Hbs.
  pose proof (ceil_div_nonneg cnt m ltac:(lia) Hc) as Hq0.
  assert (0 < cnt -> 0 < ceil_div cnt m) as Hq1
    by (intros; apply ceil_div_pos; lia).
  assert (cnt = 0 -> ceil_div cnt m = 0) as Hq2
    by (intros ->; apply ceil_div_0; lia).
  destruct (1 <? Z.min T (ceil_div cnt m)) eqn:E.
  - apply Z.ltb_lt in E.
    assert (0 < cnt) by (destruct (decide (cnt = 0)); [lia | lia]).
    rewrite Hnb in Hbs, E.
    pose proof (ceil_div_bounds cnt nb ltac:(lia)) as Hc1.
    pose proof (ceil_div_le cnt nb ltac:(lia) Hc) as Hc2.
    pose proof (ceil_div_pos cnt nb ltac:(lia) ltac:(lia)) as Hc3.
    pose proof (SIZE_ALIGNED_rounded_up (ceil_div cnt nb) ltac:(lia) ltac:(lia))
      as [Hdiv Hrng].
    rewrite Hbs in Hdiv, Hrng.
    repeat split; try lia; try done; nia.
  - apply Z.ltb_ge in E. subst bs.
    assert (cnt = 0 /\ nb = 0 \/ 0 < cnt /\ nb = 1) as [[-> ->]|[? ->]]
      by (destruct (decide (cnt = 0)); [left | right]; lia).
    + repeat split; try lia; intros; lia.
    + repeat split; try lia; intros; lia.
Qed.

(** The loop of [For] calls the body on consecutive blocks. *)
Lemma For_loop_run_blocks {S : Type} (f : Z -> Z -> Z -> S -> outcome S)
      (n : nat) (i start end_ bs : Z) (s : S) :
  0 <= i -> 0 <= bs -> INT_MIN <= start ->
  bs * (i + Z.of_nat n) <= INT_MAX ->
  start + bs * (i + Z.of_nat n) <= INT_MAX ->
  For_loop f n i start end_ bs s
  = run_blocks f (block start end_ bs <$> seqZ i (Z.of_nat n)) s.
Proof.
  revert i s. induction n as [|n IH]; intros i s Hi Hbs Hst H1 H2; [done|].
  rewrite seqZ_cons by lia. cbn [For_loop fmap list_fmap run_blocks block].
  rewrite mul32_id by (unfold int32, INT_MIN, INT_MAX in *; nia).
  rewrite add32_id by (unfold int32, INT_MIN, INT_MAX in *; nia).
  rewrite add32_id by (unfold int32, INT_MIN, INT_MAX in *; nia).
  replace (start + bs * i + bs) with (start + (i + 1) * bs) by lia.
  replace (start + bs * i) with (start + i * bs) by lia.
  destruct (f i _ _ s) as [s' tr|]; [|done]. cbn [bind].
  replace (Z.pred (Z.of_nat (Datatypes.S n))) with (Z.of_nat n) by lia.
  replace (Z.succ i) with (i + 1) by lia.
  rewrite IH; [done | lia | lia | lia | |];
    (replace (i + 1 + Z.of_nat n) with (i + Z.of_nat (Datatypes.S n)) by lia; done).
Qed.

Lemma For_fits_BlockInfo T start end_ m :
  start <= end_ -> 1 <= m -> 1 <= T ->
  For_fits kAlignedSize T start end_ m ->
  0 <= end_ - start /\ int32 (end_ - start) /\
  end_ - start + m <= INT_MAX /\ end_ - start + T <= INT_MAX /\
  end_ - start + kAlignedSize <= INT_MAX.
Proof using kAlignedSize_pos.
  intros Hse Hm HT (Hst & Hf1 & Hf2).
  unfold int32, INT_MIN, INT_MAX in *. repeat split; nia.
Qed.

(** [For] calls the body once for each block that [BlockInfo] lays out,
    and returns the number of blocks. *)
Lemma For_run_blocks {S : Type} (f : Z -> Z -> Z -> S -> outcome S)
      (T start end_ m nb bs : Z) (s : S) :
  start <= end_ -> 1 <= m -> 1 <= T ->
  For_fits kAlignedSize T start end_ m ->
  BlockInfo kAlignedSize T (end_ - start) m = (nb, bs) ->
  For kAlignedSize T start end_ m f s
  = (s' <- run_blocks f (blocks start end_ nb bs) s ;; ret (nb, s')).
Proof using kAlignedSize_pos.
  intros Hse Hm HT Hfits HB.
  pose proof (For_fits_BlockInfo _ _ _ _ Hse Hm HT Hfits)
    as (Hc & Hc32 & Hf1 & Hf2 & Hf3).
  pose proof (BlockInfo_spec _ _ _ _ _ Hc Hm HT Hf1 Hf2 Hf3 HB)
    as (_ & _ & _ & Hcov & Hnb & Hbs & _ & Hup).
  destruct Hfits as (Hst & _ & Hmax).
  unfold For. rewrite sub32_id by done. rewrite HB.
  rewrite For_loop_run_blocks; rewrite ?Z2Nat.id; try lia.
  - done.
Qed.

Lemma length_blocks start end_ nb bs :
  Z.of_nat (length (blocks start end_ nb bs)) = Z.max 0 nb.
Proof. unfold blocks. rewrite length_fmap, length_seqZ. lia. Qed.

Lemma blocks_lookup start end_ nb bs i :
  0 <= i < nb ->
  blocks start end_ nb bs !! Z.to_nat i = Some (block start end_ bs i).
Proof.
  intros Hi. unfold blocks. rewrite list_lookup_fmap.
  rewrite lookup_seqZ_lt by lia. simpl. do 2 f_equal. lia.
Qed.

(** The blocks cover the range and nothing else. *)
Lemma blocks_cover start end_ nb bs p :
  0 <= nb -> 0 <= bs -> end_ - start <= nb * bs ->
  start <= p < end_ <-> exists i, 0 <= i < nb /\ in_block start end_ bs i p.
Proof.
  intros Hnb Hbs Hcov. unfold in_block. split.
  - intros Hp.
    assert (0 < bs) as Hbs' by nia.
    exists ((p - start) `div` bs).
    pose proof (Z.div_mod (p - start) bs ltac:(lia)) as H1.
    pose proof (Z.mod_pos_bound (p - start) bs Hbs') as H2.
    assert (0 <= (p - start) `div` bs) by (apply Z.div_pos; lia).
    repeat split; try lia; nia.
  - intros (i & Hi & Hlo & Hhi). nia.
Qed.

(** No position lies in two blocks. *)
Lemma blocks_disjoint start end_ bs i j p :
  0 <= bs ->
  in_block start end_ bs i p -> in_block start end_ bs j p -> i = j.
Proof. unfold in_block. intros Hbs Hi Hj. nia. Qed.

(** On an empty range [BlockInfo] lays out no block at all. *)
Lemma BlockInfo_empty T m :
  1 <= m <= INT_MAX -> 0 <= T ->
  BlockInfo kAlignedSize T 0 m = (0, 0).
Proof.
  intros Hm HT. unfold BlockInfo.
  rewrite add32_id by range32.
  rewrite sub32_id by range32.
  rewrite div32_nonneg by range32.
  rewrite Z.div_small by lia.
  by replace (Z.min T 0) with 0 by lia.
Qed.

Lemma For_empty {S : Type} (f : Z -> Z -> Z -> S -> outcome S)
      (T start m : Z) (s : S) :
  1 <= m <= INT_MAX -> 0 <= T ->
  For kAlignedSize T start start m f s = Ok (0, s) [].
Proof.
  intros Hm HT. unfold For.
  replace (sub32 start start) with 0
    by (unfold sub32; rewrite Z.sub_diag; done).
  by rewrite BlockInfo_empty.
Qed.

(** C5. [BlockInfo] postcondition: for every count >= 0, minimum block
    size >= 1 and thread count T >= 1 such that count +
    min_count_per_block, count + T and count + alignment are at most
    INT_MAX (so that no [int] sum that the function forms overflows), the
    number of blocks is
    min(T, ceil(count / min_count_per_block)); with one block the block
    size is the count, with more than one it is ceil(count / num_blocks)
    rounded up to the alignment boundary; in every case
    num_blocks * block_size >= count and num_blocks <= T.  Both overloads
    compute the same pair. *)
Theorem BlockInfo_postcondition (T cnt min_cnt_per_block : Z) :
  0 <= cnt -> 1 <= min_cnt_per_block -> 1 <= T ->
  cnt + min_cnt_per_block <= INT_MAX ->
  cnt + T <= INT_MAX ->
  cnt + kAlignedSize <= INT_MAX ->
  exists num_blocks block_size,
    BlockInfo kAlignedSize T cnt min_cnt_per_block = (num_blocks, block_size) /\
    BlockInfo_threads kAlignedSize T cnt min_cnt_per_block
      = (num_blocks, block_size) /\
    num_blocks = Z.min T (ceil_div cnt min_cnt_per_block) /\
    (num_blocks = 1 -> block_size = cnt) /\
    (1 < num_blocks ->
     rounded_up kAlignedSize (ceil_div cnt num_blocks) block_size) /\
    cnt <= num_blocks * block_size /\
    num_blocks <= T.
Proof using kAlignedSize_pos.
  intros Hc Hm HT Hf1 Hf2 Hf3.
  destruct (BlockInfo kAlignedSize T cnt min_cnt_per_block) as [nb bs] eqn:HB.
  pose proof (BlockInfo_spec _ _ _ _ _ Hc Hm HT Hf1 Hf2 Hf3 HB)
    as (Hnb & H1 & Hgt & Hcov & Hle & _).
  exists nb, bs. rewrite BlockInfo_threads_eq.
  split_and!; try done; try lia.
Qed.

(** C6. [Threading::For] coverage and return value: for start <= end,
    min_block_size >= 1 and a thread count T >= 1 such that
    end - start + min_block_size and
    max(end, end - start) + (alignment + 1) * T are at most INT_MAX (so
    that nothing [For] and [BlockInfo] compute overflows [int]), with
    (num_blocks, block_size) the answer of
    [BlockInfo] for the length of the range, [For] is exactly the
    sequence of one call of the body per block index i in
    [0, num_blocks), on [start + i*block_size,
    min(end, start + (i+1)*block_size)), followed by returning
    num_blocks; every position of [start, end) lies in one of these
    blocks, every position of a block lies in [start, end), and no
    position lies in two blocks. *)
Theorem For_coverage {S : Type} (inner_fun : Z -> Z -> Z -> S -> outcome S)
        (T start end_ min_block_size num_blocks block_size : Z) (s : S) :
  start <= end_ -> 1 <= min_block_size -> 1 <= T ->
  For_fits kAlignedSize T start end_ min_block_size ->
  BlockInfo kAlignedSize T (end_ - start) min_block_size
    = (num_blocks, block_size) ->
  For kAlignedSize T start end_ min_block_size inner_fun s
    = (s' <- run_blocks inner_fun (blocks start end_ num_blocks block_size) s ;;
       ret (num_blocks, s')) /\
  blocks start end_ num_blocks block_size
    = (fun i => (i, start + i * block_size,
                 Z.min end_ (start + (i + 1) * block_size)))
        <$> seqZ 0 num_blocks /\
  (forall p, start <= p < end_ <->
             exists i, 0 <= i < num_blocks /\
                       in_block start end_ block_size i p) /\
  (forall i j p, in_block start end_ block_size i p ->
                 in_block start end_ block_size j p -> i = j).
Proof using kAlignedSize_pos.
  intros Hse Hm HT Hfits HB.
  pose proof (For_fits_BlockInfo _ _ _ _ Hse Hm HT Hfits)
    as (Hc & Hc32 & Hf1 & Hf2 & Hf3).
  pose proof (BlockInfo_spec _ _ _ _ _ Hc Hm HT Hf1 Hf2 Hf3 HB)
    as (_ & _ & _ & Hcov & Hnb & Hbs & _ & Hup).
  split; [by apply For_run_blocks|].
  split; [done|].
  split.
  - intros p. apply blocks_cover; lia.
  - intros i j p. by apply blocks_disjoint.
Qed.

End ThreadingFacts.

(** 5000 elements, blocks of at least 1024, 4 threads, alignment 32:
    4 blocks of 1280 elements. *)
Lemma BlockInfo_postcondition_witness :
  exists num_blocks block_size,
    BlockInfo 32 4 5000 1024 = (num_blocks, block_size) /\
    BlockInfo_threads 32 4 5000 1024 = (num_blocks, block_size) /\
    num_blocks = Z.min 4 (ceil_div 5000 1024) /\
    (num_blocks = 1 -> block_size = 5000) /\
    (1 < num_blocks -> rounded_up 32 (ceil_div 5000 num_blocks) block_size) /\
    5000 <= num_blocks * block_size /\
    num_blocks <= 4.
Proof.
  apply (BlockInfo_postcondition 32 ltac:(lia) 4 5000 1024);
    unfold INT_MAX; lia.
Defined.

(** The same layout, with a body that records its arguments. *)
Lemma For_coverage_witness :
  For 32 4 0 5000 1024
      (fun i lo hi (calls : list (Z * Z * Z)) => ret (calls ++ [(i, lo, hi)])) []
    = (s' <- run_blocks
               (fun i lo hi (calls : list (Z * Z * Z)) =>
                  ret (calls ++ [(i, lo, hi)]))
               (blocks 0 5000 4 1280) [] ;;
       ret (4, s')) /\
  blocks 0 5000 4 1280
    = (fun i => (i, 0 + i * 1280, Z.min 5000 (0 + (i + 1) * 1280)))
        <$> seqZ 0 4 /\
  (forall p, 0 <= p < 5000 <->
             exists i, 0 <= i < 4 /\ in_block 0 5000 1280 i p) /\
  (forall i j p, in_block 0 5000 1280 i p ->
                 in_block 0 5000 1280 j p -> i = j).
Proof.
  apply (For_coverage 32 ltac:(lia) _ 4 0 5000 1024 4 1280 []);
    [lia | lia | lia | unfold For_fits, INT_MIN, INT_MAX; lia | reflexivity].
Defined.

(** At count = INT_MAX the sums that [BlockInfo] forms wrap around.  With
    4 threads and a minimum block size of 1 it answers 4 blocks of size
    -536870880: they do not hold the count, and the size is not
    ceil(count / 4) rounded up.  With a minimum block size of 1024 it
    answers -2097151 blocks, not min(4, ceil(count / 1024)) = 4. *)
Lemma BlockInfo_wraps_at_INT_MAX :
  2147483647 = INT_MAX /\
  BlockInfo 32 4 2147483647 1 = (4, -536870880) /\
  4 * -536870880 < 2147483647 /\
  ~ rounded_up 32 (ceil_div 2147483647 4) (-536870880) /\
  BlockInfo 32 4 2147483647 1024 = (-2097151, 2147483647) /\
  Z.min 4 (ceil_div 2147483647 1024) = 4.
Proof.
  assert (ceil_div 2147483647 4 = 536870912) as E by (vm_compute; reflexivity).
  split_and!.
  - reflexivity.
  - vm_compute. reflexivity.
  - lia.
  - rewrite E. intros [_ H]. lia.
  - vm_compute. reflexivity.
  - vm_compute. reflexivity.
Qed.

(** The range [0, INT_MAX) with 4 threads and a minimum block size of 1:
    the length plus the block size wraps around, [BlockInfo] answers a
    negative block size, and [For] calls the body on four ranges that hold
    no position; position 0 of the range lies in none of the blocks. *)
Lemma For_wraps_at_INT_MAX :
  0 <= 2147483647 /\
  BlockInfo 32 4 (2147483647 - 0) 1 = (4, -536870880) /\
  For 32 4 0 2147483647 1
      (fun i lo hi (calls : list (Z * Z * Z)) => ret (calls ++ [(i, lo, hi)])) []
  = Ok (4, [(0, 0, -536870880); (1, -536870880, -1073741760);
            (2, -1073741760, -1610612640); (3, -1610612640, -2147483520)])
       [] /\
  0 <= 0 < 2147483647 /\
  ~ (exists i, 0 <= i < 4 /\ in_block 0 2147483647 (-536870880) i 0).
Proof.
  split_and!.
  - lia.
  - vm_compute. reflexivity.
  - vm_compute. reflexivity.
  - lia.
  - lia.
  - intros (i & Hi & Hb). unfold in_block in Hb. lia.
Qed.

(** *** Aligned allocator *)

Section AllocatorFacts.

Variables (size_bits sizeof_T Alignment : Z).
Hypothesis size_bits_pos : 0 < size_bits.
Hypothesis sizeof_T_pos : 1 <= sizeof_T.

Lemma max_size_eq :
  max_size size_bits sizeof_T = (2 ^ size_bits - 1) `div` sizeof_T.
Proof using size_bits_pos.
  unfold max_size, wrap_size.
  assert (1 < 2 ^ size_bits) by (apply Z.pow_gt_1; lia).
  replace (0 - 1) with (-1) by lia.
  rewrite <- (Z.mod_unique (-1) (2 ^ size_bits) (-1) (2 ^ size_bits - 1));
    [done | lia | lia].
Qed.

(** Below [max_size] the byte count does not wrap. *)
Lemma bytes_no_wrap n :
  0 <= n <= max_size size_bits sizeof_T ->
  wrap_size size_bits (n * sizeof_T) = n * sizeof_T.
Proof using size_bits_pos sizeof_T_pos.
  intros Hn. rewrite max_size_eq in Hn. unfold wrap_size.
  assert (1 < 2 ^ size_bits) by (apply Z.pow_gt_1; lia).
  pose proof (Z.div_mod (2 ^ size_bits - 1) sizeof_T ltac:(lia)) as H1.
  pose proof (Z.mod_pos_bound (2 ^ size_bits - 1) sizeof_T ltac:(lia)) as H2.
  apply Z.mod_small. nia.
Qed.

(** C8. Error behaviour of [AlignmentAllocator::allocate]: for every
    element count n of type [size_t], the call throws the length error
    iff n exceeds max_size() = SIZE_MAX / sizeof(T); otherwise, for
    n == 0 it returns null without asking for memory, and for n > 0 it
    asks for n * sizeof(T) bytes (the product does not wrap) exactly
    once and throws bad_alloc when that request fails and returns its
    pointer when it succeeds. *)
Theorem allocate_error_behaviour (_mm_malloc : Z -> Z -> option Z) (n : Z) :
  0 <= n < 2 ^ size_bits ->
  max_size size_bits sizeof_T = (2 ^ size_bits - 1) `div` sizeof_T /\
  ((allocate size_bits sizeof_T Alignment _mm_malloc n).1 = Throws_length_error
   <-> max_size size_bits sizeof_T < n) /\
  (n = 0 ->
   allocate size_bits sizeof_T Alignment _mm_malloc n = (Returns None, [])) /\
  (0 < n <= max_size size_bits sizeof_T ->
   match _mm_malloc (n * sizeof_T) Alignment with
   | None =>
       allocate size_bits sizeof_T Alignment _mm_malloc n
       = (Throws_bad_alloc, [(n * sizeof_T, Alignment)])
   | Some pv =>
       allocate size_bits sizeof_T Alignment _mm_malloc n
       = (Returns (Some pv), [(n * sizeof_T, Alignment)])
   end) /\
  (length (allocate size_bits sizeof_T Alignment _mm_malloc n).2 <= 1)%nat.
Proof using size_bits_pos sizeof_T_pos.
  intros Hn.
  assert (0 <= max_size size_bits sizeof_T) as Hmax.
  { rewrite max_size_eq. apply Z.div_pos; [|lia].
    assert (1 < 2 ^ size_bits) by (apply Z.pow_gt_1; lia). lia. }
  split; [apply max_size_eq|].
  unfold allocate.
  destruct (n =? 0) eqn:E0; [apply Z.eqb_eq in E0 | apply Z.eqb_neq in E0].
  { simpl. split_and!; try done; try lia.
    split; [done | lia]. }
  destruct (max_size size_bits sizeof_T <? n) eqn:E1;
    [apply Z.ltb_lt in E1 | apply Z.ltb_ge in E1].
  { simpl. split_and!; try done; try lia. }
  rewrite bytes_no_wrap by lia.
  destruct (_mm_malloc (n * sizeof_T) Alignment) as [pv|]; simpl;
    (split_and!; try done; try lia; split; [done | lia]).
Qed.

End AllocatorFacts.

(** 64-bit [size_t], 4-byte elements, 32-byte alignment, a platform
    allocation that always fails, three elements: bad_alloc after one
    request for 12 bytes. *)
Lemma allocate_error_behaviour_witness :
  0 <= 3 < 2 ^ 64 /\
  (max_size 64 4 = (2 ^ 64 - 1) `div` 4 /\
   ((allocate 64 4 32 (fun _ _ => None) 3).1 = Throws_length_error
    <-> max_size 64 4 < 3) /\
   (3 = 0 -> allocate 64 4 32 (fun _ _ => None) 3 = (Returns None, [])) /\
   (0 < 3 <= max_size 64 4 ->
    allocate 64 4 32 (fun _ _ => None) 3 = (Throws_bad_alloc, [(3 * 4, 32)])) /\
   (length (allocate 64 4 32 (fun _ _ => None) 3).2 <= 1)%nat).
Proof.
  split; [lia|].
  apply (allocate_error_behaviour 64 4 32 ltac:(lia) ltac:(lia)
           (fun _ _ => None) 3).
  lia.
Defined.

(** *** Leaf partition store: [Init] *)

Lemma insert_splice v i x :
  0 <= i < lengthZ v -> <[Z.to_nat i := x]> v = splice v i [x].
Proof.
  intros Hi. apply list_eq. intros j.
  rewrite lookup_splice by (simpl; lia).
  simpl.
  destruct (decide (j = Z.to_nat i)) as [->|Hne].
  - rewrite list_lookup_insert_eq by lia.
    rewrite decide_True by lia. by rewrite Nat.sub_diag.
  - rewrite list_lookup_insert_ne by done.
    rewrite decide_False; [done | lia].
Qed.

Lemma Init_loop_spec (n : nat) (i : Z) (v : list Z) :
  0 <= i -> i + Z.of_nat n <= lengthZ v ->
  ok_with (Init_loop n i v)
          (fun v' _ => v' = splice v i (seqZ i (Z.of_nat n))).
Proof.
  revert i v. induction n as [|n IH]; intros i v Hi Hlen.
  - simpl. symmetry. apply splice_nil. lia.
  - cbn [Init_loop]. apply ok_with_bind, ok_vset; [lia|].
    eapply ok_with_mono.
    { apply IH; [lia|]. rewrite insert_splice by lia.
      rewrite length_splice; simpl; lia. }
    intros v' tr ->. simpl.
    rewrite insert_splice by lia.
    rewrite (seqZ_cons i) by lia.
    replace (Z.succ i) with (i + 1) by lia.
    replace (i + 1) with (i + lengthZ [i]) by (simpl; lia).
    replace (Z.pred (Z.of_nat (Datatypes.S n))) with (Z.of_nat n) by lia.
    rewrite splice_splice_adjacent; [done | lia |].
    rewrite length_seqZ. simpl. lia.
Qed.

Lemma splice_full v l : lengthZ l = lengthZ v -> splice v 0 l = l.
Proof.
  intros Hl. unfold splice in *. simpl.
  rewrite drop_ge by lia. apply app_nil_r.
Qed.

Lemma sumZ_replicate_0 (n : nat) : sumZ (replicate n 0) = 0.
Proof. unfold sumZ. induction n as [|n IH]; [done|]. simpl. lia. Qed.

Lemma lengthZ_seqZ m n : 0 <= n -> lengthZ (seqZ m n) = n.
Proof. intros Hn. rewrite length_seqZ. lia. Qed.

Lemma lengthZ_replicate {A : Type} (n : nat) (x : A) :
  lengthZ (replicate n x) = Z.of_nat n.
Proof. by rewrite length_replicate. Qed.

Lemma vget_lookup b v i x :
  0 <= i -> v !! Z.to_nat i = Some x -> vget b v i = Ok x [Rd b i 1].
Proof.
  intros Hi Hx. unfold vget.
  destruct (0 <=? i) eqn:E; [|apply Z.leb_gt in E; lia]. by rewrite Hx.
Qed.

Lemma leaf_range_eq dp leaf begin cnt :
  0 <= leaf ->
  leaf_begin_ dp !! Z.to_nat leaf = Some begin ->
  leaf_count_ dp !! Z.to_nat leaf = Some cnt ->
  leaf_range dp leaf = slice (indices_ dp) begin cnt.
Proof.
  intros Hl Hb Hc. unfold leaf_range, GetIndexOnLeaf.
  rewrite (vget_lookup _ _ _ _ Hl Hb), (vget_lookup _ _ _ _ Hl Hc). done.
Qed.

Lemma active_length dp :
  wf dp -> bagging_ok dp ->
  0 <= lengthZ (active dp) <= num_data_ dp /\
  lengthZ (active dp)
  = match used_data_indices_ dp with
    | None => num_data_ dp
    | Some _ => used_data_count_ dp
    end.
Proof.
  intros Hwf Hbag. unfold active, bagging_ok in *.
  destruct Hwf as (_ & _ & Hidx & _).
  pose proof (lengthZ_nonneg (indices_ dp)).
  destruct (used_data_indices_ dp) as [used|].
  - rewrite length_slice by lia. lia.
  - rewrite lengthZ_seqZ by lia. lia.
Qed.

(** What [Init] leaves behind. *)
Lemma Init_spec dp :
  wf dp -> 1 <= num_leaves_ dp -> bagging_ok dp ->
  ok_with (Init dp)
    (fun dp' _ =>
       dp' = set_indices (splice (indices_ dp) 0 (active dp))
               (set_leaf_count
                  (lengthZ (active dp)
                   :: replicate (Z.to_nat (num_leaves_ dp - 1)) 0)
                  (set_leaf_begin (replicate (Z.to_nat (num_leaves_ dp)) 0)
                                  dp))).
Proof.
  intros Hwf Hnl Hbag.
  pose proof (active_length dp Hwf Hbag) as [Hal Hal'].
  destruct Hwf as (Hlb & Hlc & Hidx & _).
  unfold Init.
  apply ok_with_bind, ok_vfill. apply ok_with_bind, ok_vfill.
  assert (length (leaf_begin_ dp) = Z.to_nat (num_leaves_ dp)) as ->
    by lia.
  assert (length (leaf_count_ dp) = Z.to_nat (num_leaves_ dp)) as ->
    by lia.
  assert (forall x, <[Z.to_nat 0 := x]> (replicate (Z.to_nat (num_leaves_ dp)) 0)
                    = x :: replicate (Z.to_nat (num_leaves_ dp - 1)) 0) as Hins.
  { intros x. replace (Z.to_nat (num_leaves_ dp))
      with (Datatypes.S (Z.to_nat (num_leaves_ dp - 1))) by lia. done. }
  unfold active, bagging_ok in *.
  destruct (used_data_indices_ dp) as [used|].
  - apply ok_with_bind, ok_vset; [rewrite lengthZ_replicate; lia|].
    apply ok_with_bind, ok_vread; [lia | lia | lia |].
    apply ok_with_bind, ok_vwrite; [lia | lia |].
    apply ok_with_ret. rewrite Hins. by rewrite Hal'.
  - apply ok_with_bind, ok_vset; [rewrite lengthZ_replicate; lia|].
    apply ok_with_bind. eapply ok_with_mono.
    { apply Init_loop_spec; lia. }
    intros idx tr ->. apply ok_with_ret.
    rewrite Hins, Z2Nat.id by lia. by rewrite Hal'.
Qed.

Lemma leaf_range_unfold dp leaf :
  leaf_range dp leaf
  = if decide (0 <= leaf)
    then match leaf_begin_ dp !! Z.to_nat leaf,
               leaf_count_ dp !! Z.to_nat leaf with
         | Some begin, Some cnt => slice (indices_ dp) begin cnt
         | _, _ => []
         end
    else [].
Proof.
  unfold leaf_range, GetIndexOnLeaf, vget. case_decide as Hl.
  - destruct (0 <=? leaf) eqn:E; [|apply Z.leb_gt in E; lia].
    destruct (leaf_begin_ dp !! Z.to_nat leaf); [|done].
    by destruct (leaf_count_ dp !! Z.to_nat leaf).
  - destruct (0 <=? leaf) eqn:E; [apply Z.leb_le in E; lia | done].
Qed.

Lemma slice_0_0 v off : slice v off 0 = [].
Proof. done. Qed.

(** C4. [Init] postcondition: [Init] returns; without a bagging subset
    leaf 0 holds the identity permutation (leaf_count[0] = num_data,
    indices = 0 .. num_data-1), with a bagging subset S it holds exactly S
    in the given order (leaf_count[0] = |S|, indices[i] = S[i]); every
    other leaf has leaf_count = 0 and leaf_begin = 0; every leaf's ids
    are active ids and the leaf counts add up to the active count. *)
Theorem Init_postcondition (dp : DataPartition) :
  wf dp -> 1 <= num_leaves_ dp -> bagging_ok dp ->
  exists dp' tr,
    Init dp = Ok dp' tr /\
    (used_data_indices_ dp = None ->
     leaf_count_ dp' !! 0%nat = Some (num_data_ dp) /\
     indices_ dp' = seqZ 0 (num_data_ dp)) /\
    (forall used, used_data_indices_ dp = Some used ->
       let S := slice used 0 (used_data_count_ dp) in
       lengthZ S = used_data_count_ dp /\
       leaf_count_ dp' !! 0%nat = Some (lengthZ S) /\
       slice (indices_ dp') 0 (lengthZ S) = S) /\
    leaf_begin_ dp' !! 0%nat = Some 0 /\
    leaf_range dp' 0 = active dp /\
    (forall leaf, 1 <= leaf < num_leaves_ dp ->
       leaf_count_ dp' !! Z.to_nat leaf = Some 0 /\
       leaf_begin_ dp' !! Z.to_nat leaf = Some 0) /\
    (forall leaf id, id ∈ leaf_range dp' leaf -> id ∈ active dp) /\
    sumZ (leaf_count_ dp') = lengthZ (active dp).
Proof.
  intros Hwf Hnl Hbag.
  destruct (ok_with_inv _ _ (Init_spec dp Hwf Hnl Hbag)) as (dp' & tr & HI & ->).
  pose proof (active_length dp Hwf Hbag) as [Hal Hal'].
  pose proof Hwf as (Hlb & Hlc & Hidx & _).
  eexists _, tr. split; [exact HI|]. clear HI.
  set (S := active dp) in *.
  assert (slice (splice (indices_ dp) 0 S) 0 (lengthZ S) = S) as Hrd
    by (apply slice_splice_same; lia).
  assert (forall leaf, 1 <= leaf < num_leaves_ dp ->
            replicate (Z.to_nat (num_leaves_ dp)) 0 !! Z.to_nat leaf = Some 0 /\
            (lengthZ S :: replicate (Z.to_nat (num_leaves_ dp - 1)) 0)
              !! Z.to_nat leaf = Some 0) as Hother.
  { intros leaf Hleaf. split.
    - apply lookup_replicate_2. lia.
    - replace (Z.to_nat leaf) with (Datatypes.S (Z.to_nat (leaf - 1))) by lia.
      simpl. apply lookup_replicate_2. lia. }
  assert (replicate (Z.to_nat (num_leaves_ dp)) 0 !! 0%nat = Some 0) as Hb0
    by (apply lookup_replicate_2; lia).
  simpl. split_and!.
  - intros Hnone. subst S. unfold active in *. rewrite Hnone in *.
    split; [by rewrite Hal'|]. apply splice_full. lia.
  - intros used Hsome. subst S. unfold active in *. rewrite Hsome in *.
    simpl. split; [done|]. split; [done|]. exact Hrd.
  - exact Hb0.
  - rewrite (leaf_range_eq _ 0 0 (lengthZ S)); done.
  - intros leaf Hleaf. destruct (Hother leaf Hleaf). done.
  - intros leaf id. rewrite leaf_range_unfold. simpl.
    case_decide as Hl0; [|by intros ?%elem_of_nil].
    destruct (decide (leaf = 0)) as [->|Hne].
    + change (Z.to_nat 0) with 0%nat. rewrite Hb0. simpl. by rewrite Hrd.
    + destruct (decide (leaf < num_leaves_ dp)) as [Hlt|Hge].
      * destruct (Hother leaf ltac:(lia)) as [-> ->].
        rewrite slice_0_0. by intros ?%elem_of_nil.
      * rewrite (lookup_ge_None_2 (replicate _ _))
          by (rewrite length_replicate; lia).
        by intros ?%elem_of_nil.
  - unfold sumZ. simpl. fold (sumZ (replicate (Z.to_nat (num_leaves_ dp - 1)) 0)).
    rewrite sumZ_replicate_0. lia.
Qed.

(** *** Leaf partition store: [Split] *)

(** Stores are compared in record form: setters unfolded, projections
    of a built record reduced. *)
Ltac norm_dp :=
  cbn [num_data_ num_leaves_ leaf_begin_ leaf_count_ indices_
       temp_left_indices_ temp_right_indices_ used_data_indices_
       used_data_count_ num_threads_ offsets_buf_ left_cnts_buf_
       right_cnts_buf_ left_write_pos_buf_ right_write_pos_buf_
       set_leaf_begin set_leaf_count set_indices set_temp_left_indices
       set_temp_right_indices set_used_data_indices set_used_data_count
       set_num_data set_num_leaves set_offsets_buf set_left_cnts_buf
       set_right_cnts_buf set_left_write_pos_buf set_right_write_pos_buf
       with_scratch] in *.

Lemma with_scratch_fields tl tr ob lc rc dp :
  temp_left_indices_ (with_scratch tl tr ob lc rc dp) = tl /\
  temp_right_indices_ (with_scratch tl tr ob lc rc dp) = tr /\
  offsets_buf_ (with_scratch tl tr ob lc rc dp) = ob /\
  left_cnts_buf_ (with_scratch tl tr ob lc rc dp) = lc /\
  right_cnts_buf_ (with_scratch tl tr ob lc rc dp) = rc /\
  indices_ (with_scratch tl tr ob lc rc dp) = indices_ dp.
Proof. done. Qed.

Lemma with_scratch_id dp :
  dp = with_scratch (temp_left_indices_ dp) (temp_right_indices_ dp)
         (offsets_buf_ dp) (left_cnts_buf_ dp) (right_cnts_buf_ dp) dp.
Proof. by destruct dp. Qed.

Lemma lookup_insert_Z (v : list Z) (i j x : Z) :
  0 <= i < lengthZ v -> 0 <= j ->
  <[Z.to_nat i := x]> v !! Z.to_nat j
  = if decide (i = j) then Some x else v !! Z.to_nat j.
Proof.
  intros Hi Hj. case_decide as E.
  - subst. by rewrite list_lookup_insert_eq by lia.
  - by rewrite list_lookup_insert_ne by lia.
Qed.

Lemma lengthZ_insert (v : list Z) (i : nat) (x : Z) :
  lengthZ (<[i := x]> v) = lengthZ v.
Proof. by rewrite length_insert. Qed.

Lemma sumZ_take_S (l : list Z) (k : nat) x :
  l !! k = Some x -> sumZ (take (Datatypes.S k) l) = sumZ (take k l) + x.
Proof.
  intros Hx. rewrite (take_S_r _ _ _ Hx). unfold sumZ.
  rewrite foldr_app. simpl. generalize (take k l). intros l'.
  induction l' as [|y l' IH]; simpl; lia.
Qed.

(** The loop that turns counts into write positions, from round [i] on:
    it stores the sums of the counts before each block. *)
Lemma write_pos_spec (n : nat) :
  forall (i : Z) dp,
  1 <= i ->
  i + Z.of_nat n <= lengthZ (left_cnts_buf_ dp) ->
  i + Z.of_nat n <= lengthZ (right_cnts_buf_ dp) ->
  i + Z.of_nat n <= lengthZ (left_write_pos_buf_ dp) ->
  i + Z.of_nat n <= lengthZ (right_write_pos_buf_ dp) ->
  (forall j, (j <= Z.to_nat i + n)%nat ->
             int32 (sumZ (take j (left_cnts_buf_ dp))) /\
             int32 (sumZ (take j (right_cnts_buf_ dp)))) ->
  (forall j, 0 <= j < i ->
     left_write_pos_buf_ dp !! Z.to_nat j
     = Some (sumZ (take (Z.to_nat j) (left_cnts_buf_ dp))) /\
     right_write_pos_buf_ dp !! Z.to_nat j
     = Some (sumZ (take (Z.to_nat j) (right_cnts_buf_ dp)))) ->
  ok_with (write_pos_loop n i dp)
    (fun dp' t =>
       t = concat (prefix_trace <$> seqZ i (Z.of_nat n)) /\
       exists lw' rw',
         dp' = set_right_write_pos_buf rw' (set_left_write_pos_buf lw' dp) /\
         lengthZ lw' = lengthZ (left_write_pos_buf_ dp) /\
         lengthZ rw' = lengthZ (right_write_pos_buf_ dp) /\
         forall j, 0 <= j < i + Z.of_nat n ->
           lw' !! Z.to_nat j
           = Some (sumZ (take (Z.to_nat j) (left_cnts_buf_ dp))) /\
           rw' !! Z.to_nat j
           = Some (sumZ (take (Z.to_nat j) (right_cnts_buf_ dp)))).
Proof.
  induction n as [|n IH]; intros i dp Hi Hlc Hrc Hlw Hrw Hfit Hinv.
  { simpl. split; [done|].
    exists (left_write_pos_buf_ dp), (right_write_pos_buf_ dp).
    split_and!; try done; [by destruct dp|].
    intros j Hj. apply Hinv. lia. }
  cbn [write_pos_loop].
  destruct (Hinv (i - 1) ltac:(lia)) as [Hl Hr].
  destruct (lookup_lt_is_Some_2 (left_cnts_buf_ dp) (Z.to_nat (i - 1))
              ltac:(lia)) as [x Hx].
  destruct (lookup_lt_is_Some_2 (right_cnts_buf_ dp) (Z.to_nat (i - 1))
              ltac:(lia)) as [y Hy].
  pose proof (sumZ_take_S _ _ _ Hx) as Hsx.
  pose proof (sumZ_take_S _ _ _ Hy) as Hsy.
  replace (Datatypes.S (Z.to_nat (i - 1))) with (Z.to_nat i) in Hsx, Hsy by lia.
  destruct (Hfit (Z.to_nat i) ltac:(lia)) as [Hfx Hfy].
  eapply ok_with_bind, ok_vget; [lia | exact Hl |].
  eapply ok_with_bind, ok_vget; [lia | exact Hx |].
  apply ok_with_bind, ok_vset; [lia|].
  eapply ok_with_bind, ok_vget; [lia | exact Hr |].
  eapply ok_with_bind, ok_vget; [lia | exact Hy |].
  apply ok_with_bind, ok_vset; [lia|].
  rewrite !add32_id by (rewrite <- ?Hsx, <- ?Hsy; done).
  rewrite <- Hsx, <- Hsy.
  eapply ok_with_mono.
  { apply (IH (i + 1)); norm_dp; rewrite ?length_insert; try lia.
    - intros j Hj. apply Hfit. lia.
    - intros j Hj. rewrite !lookup_insert_Z by lia.
      case_decide as E; [by subst | apply Hinv; lia]. }
  intros dp' t (-> & lw' & rw' & -> & L1 & L2 & Hpost).
  norm_dp. rewrite !length_insert in *.
  split.
  - rewrite (seqZ_cons i) by lia.
    replace (Z.pred (Z.of_nat (Datatypes.S n))) with (Z.of_nat n) by lia.
    replace (Z.succ i) with (i + 1) by lia. done.
  - exists lw', rw'. split_and!; try done.
    intros j Hj. apply Hpost. lia.
Qed.

Lemma write_pos_0 (ls : list (list Z)) : write_pos ls 0 = 0.
Proof. done. Qed.

Lemma write_pos_succ (ls : list (list Z)) (k : Z) l :
  0 <= k -> ls !! Z.to_nat k = Some l ->
  write_pos ls (k + 1) = write_pos ls k + lengthZ l /\
  concat (take (Z.to_nat (k + 1)) ls) = concat (take (Z.to_nat k) ls) ++ l.
Proof.
  intros Hk Hl. unfold write_pos.
  replace (Z.to_nat (k + 1)) with (Datatypes.S (Z.to_nat k)) by lia.
  rewrite (take_S_r _ _ _ Hl), concat_app. simpl. rewrite app_nil_r.
  split; [|done]. rewrite length_app. lia.
Qed.

Lemma write_pos_bounds (ls : list (list Z)) (k : Z) :
  0 <= write_pos ls k <= lengthZ (concat ls).
Proof.
  unfold write_pos. split; [lia|].
  rewrite <- (take_drop (Z.to_nat k) ls) at 2.
  rewrite concat_app, length_app. lia.
Qed.

Lemma write_pos_all (ls : list (list Z)) (k : Z) :
  lengthZ ls <= k -> write_pos ls k = lengthZ (concat ls).
Proof. intros Hk. unfold write_pos. by rewrite take_ge by lia. Qed.

(** The sums of the first counts are the write positions. *)
Lemma sumZ_take_counts (lc : list Z) (ls : list (list Z)) (j : nat) :
  (forall i l, (i < j)%nat -> ls !! i = Some l -> lc !! i = Some (lengthZ l)) ->
  (j <= length ls)%nat ->
  sumZ (take j lc) = write_pos ls (Z.of_nat j).
Proof.
  intros Hlc Hj. induction j as [|j IH]; [done|].
  destruct (lookup_lt_is_Some_2 ls j ltac:(lia)) as [l Hl].
  rewrite (sumZ_take_S _ _ _ (Hlc j l ltac:(lia) Hl)).
  rewrite IH; [|intros i l' Hi Hl'; apply Hlc; [lia | done] | lia].
  replace (Z.of_nat (Datatypes.S j)) with (Z.of_nat j + 1) by lia.
  destruct (write_pos_succ ls (Z.of_nat j) l ltac:(lia)) as [-> _];
    [by rewrite Nat2Z.id | done].
Qed.

Lemma slice_length_full v off n :
  0 <= off -> 0 < n -> lengthZ (slice v off n) = n -> off + n <= lengthZ v.
Proof.
  unfold slice. rewrite length_take, length_drop. lia.
Qed.

(** [std::copy_n] of a block's scratch section. *)
Lemma ok_copy_n bs src off n bd dst pos l (Q : list Z -> list event -> Prop) :
  lengthZ l = n ->
  (0 < n -> 0 <= off /\ slice src off n = l) ->
  0 <= pos -> pos + n <= lengthZ dst ->
  Q (splice dst pos l)
    (if n <=? 0 then [] else [Rd bs off n; Wr bd pos n]) ->
  ok_with (copy_n bs src off n bd dst pos) Q.
Proof.
  intros Hl Hsrc Hpos Hdst HQ. unfold copy_n.
  destruct (n <=? 0) eqn:E; [apply Z.leb_le in E | apply Z.leb_gt in E].
  - assert (l = []) as -> by (apply nil_length_inv; lia).
    rewrite splice_nil in HQ by lia. done.
  - destruct (Hsrc E) as [Hoff Hsl].
    apply ok_with_bind, ok_vread; [lia | lia | |].
    { apply slice_length_full; [lia | lia |]. rewrite Hsl. done. }
    rewrite Hsl. apply ok_vwrite; [lia | lia |]. by rewrite Hl.
Qed.

(** One round of the second parallel loop extends both output regions. *)
Lemma gather_step_algebra v b rs (L R l r : list Z) :
  0 <= b -> b + lengthZ L + lengthZ l <= rs ->
  rs + lengthZ R + lengthZ r <= lengthZ v ->
  splice (splice (splice (splice v b L) rs R) (b + lengthZ L) l)
         (rs + lengthZ R) r
  = splice (splice v b (L ++ l)) rs (R ++ r).
Proof.
  intros Hb Hl Hr.
  assert (lengthZ (splice v b L) = lengthZ v) as E1
    by (apply length_splice; lia).
  rewrite <- (splice_comm (splice v b L) (b + lengthZ L) l rs R)
    by lia.
  rewrite (splice_splice_adjacent v b L l) by lia.
  rewrite splice_splice_adjacent; [done | lia |].
  rewrite length_splice; rewrite ?length_app; lia.
Qed.

Lemma slice_app v off n1 n2 :
  0 <= off -> 0 <= n1 -> 0 <= n2 ->
  slice v off (n1 + n2) = slice v off n1 ++ slice v (off + n1) n2.
Proof.
  intros H0 H1 H2. unfold slice.
  rewrite Z2Nat.inj_add by lia. rewrite <- take_take_drop, drop_drop.
  do 3 f_equal. lia.
Qed.

(** Both sides of a spliced concatenation can be read back. *)
Lemma slice_splice_app v off l r :
  0 <= off -> off + lengthZ l + lengthZ r <= lengthZ v ->
  slice (splice v off (l ++ r)) off (lengthZ l) = l /\
  slice (splice v off (l ++ r)) (off + lengthZ l) (lengthZ r) = r.
Proof.
  intros H0 H1.
  rewrite <- splice_splice_adjacent by lia. split.
  - rewrite slice_splice_disjoint;
      rewrite ?length_splice; try lia.
    apply slice_splice_same; lia.
  - apply slice_splice_same; rewrite ?length_splice; lia.
Qed.

Lemma stable_partition_app l1 r1 p1 l2 r2 p2 :
  stable_partition l1 r1 p1 -> stable_partition l2 r2 p2 ->
  stable_partition (l1 ++ l2) (r1 ++ r2) (p1 ++ p2).
Proof.
  intros H1 H2. induction H1; simpl; [done | |]; by constructor.
Qed.

Lemma stable_partition_length l r p :
  stable_partition l r p -> lengthZ l + lengthZ r = lengthZ p.
Proof. induction 1; simpl; lia. Qed.

Lemma stable_partition_perm l r p : stable_partition l r p -> l ++ r ≡ₚ p.
Proof.
  induction 1 as [|x l r p _ IH|x l r p _ IH]; simpl.
  - done.
  - by rewrite IH.
  - by rewrite <- Permutation_middle, IH.
Qed.


(** Routing by a test on the id is a stable partition. *)
Lemma stable_partition_filter (test : Z -> bool) p :
  stable_partition (filter (fun x => test x = true) p)
                   (filter (fun x => test x = false) p) p.
Proof.
  induction p as [|x p IH]; [constructor|].
  rewrite !filter_cons. destruct (test x) eqn:E.
  - rewrite decide_True by done. rewrite decide_False by done.
    by constructor.
  - rewrite decide_False by done. rewrite decide_True by done.
    by constructor.
Qed.

Lemma oracle_stable_counts dataset : oracle_stable dataset -> oracle_counts dataset.
Proof.
  intros Hst feature threshold num_threshold default_left data_indices.
  specialize (Hst feature threshold num_threshold default_left data_indices).
  destruct (dataset _ _ _ _ _). by apply stable_partition_length.
Qed.

Section SplitFacts.

Variable dataset : Dataset.
Variables (feature : Z) (threshold : list Z) (num_threshold : Z)
          (default_left : bool).
Hypothesis dataset_counts : oracle_counts dataset.

Let oracle : list Z -> list Z * list Z :=
  dataset feature threshold num_threshold default_left.

(** The body of [Split] on one block. *)
Lemma Split_block_spec dp (begin cnt bs i : Z) tl tr ob lc rc :
  0 <= begin -> begin + cnt <= lengthZ (indices_ dp) ->
  cnt <= lengthZ tl -> cnt <= lengthZ tr ->
  0 <= i < lengthZ ob -> i < lengthZ lc -> i < lengthZ rc ->
  0 <= bs -> 0 <= cnt <= INT_MAX -> (i + 1) * bs <= INT_MAX ->
  let blk := block 0 cnt bs i in
  let out := block_out oracle (indices_ dp) begin blk in
  ok_with (Split_block dataset feature threshold num_threshold default_left
             begin blk.1.1 blk.1.2 blk.2 (with_scratch tl tr ob lc rc dp))
    (fun dp' t =>
       t = scatter_trace begin blk out /\
       exists tl' tr' ob',
         dp' = with_scratch tl' tr' ob'
                 (<[Z.to_nat i := lengthZ out.1]> lc)
                 (<[Z.to_nat i := lengthZ out.2]> rc) dp /\
         lengthZ tl' = lengthZ tl /\ lengthZ tr' = lengthZ tr /\
         lengthZ ob' = lengthZ ob /\
         (blk.2 - blk.1.2 <= 0 -> tl' = tl /\ tr' = tr /\ ob' = ob) /\
         (0 < blk.2 - blk.1.2 ->
          tl' = splice tl blk.1.2 out.1 /\ tr' = splice tr blk.1.2 out.2 /\
          ob' = <[Z.to_nat i := blk.1.2]> ob /\
          lengthZ out.1 + lengthZ out.2 = blk.2 - blk.1.2)).
Proof using dataset_counts.
  intros Hb Hbc Htl Htr Hi Hlc Hrc Hbs Hcnt Hfit blk out.
  subst blk out. unfold block, block_out, scatter_trace. cbn [fst snd].
  set (lo := 0 + i * bs). set (hi := Z.min cnt (0 + (i + 1) * bs)).
  assert (0 <= lo) by (subst lo; nia).
  assert (lo <= INT_MAX) by (subst lo; nia).
  assert (hi <= cnt) by (subst hi; lia).
  unfold Split_block.
  rewrite sub32_id by (subst hi; range32).
  destruct (hi - lo <=? 0) eqn:E;
    [apply Z.leb_le in E | apply Z.leb_gt in E].
  - apply ok_with_bind, ok_vset; [simpl; lia|].
    apply ok_with_bind, ok_vset; [simpl; lia|].
    apply ok_with_ret. split; [done|].
    exists tl, tr, ob. split_and!; try done; try (by destruct dp).
    intros; lia.
  - apply ok_with_bind, ok_vread; [simpl; lia | lia | simpl; lia |].
    cbn [indices_ with_scratch set_right_cnts_buf set_left_cnts_buf
         set_offsets_buf set_temp_right_indices set_temp_left_indices].
    pose proof (dataset_counts feature threshold num_threshold default_left
                  (slice (indices_ dp) (begin + lo) (hi - lo))) as Hcounts.
    fold oracle in Hcounts |- *.
    destruct (oracle (slice (indices_ dp) (begin + lo) (hi - lo)))
      as [lte gt] eqn:Ho.
    rewrite length_slice in Hcounts by lia.
    pose proof (lengthZ_nonneg lte). pose proof (lengthZ_nonneg gt).
    apply ok_with_bind, ok_vwrite; [lia | simpl; lia |].
    apply ok_with_bind, ok_vwrite; [lia | simpl; lia |].
    apply ok_with_bind, ok_vset; [simpl; lia|].
    apply ok_with_bind, ok_vset; [simpl; lia|].
    rewrite sub32_id by range32.
    apply ok_with_bind, ok_vset; [simpl; lia|].
    apply ok_with_ret. split; [done|]. cbn [fst snd].
    exists (splice tl lo lte), (splice tr lo gt), (<[Z.to_nat i := lo]> ob).
    split_and!.
    + replace (hi - lo - lengthZ lte) with (lengthZ gt) by lia. by destruct dp.
    + apply length_splice; lia.
    + apply length_splice; lia.
    + apply lengthZ_insert.
    + lia.
    + done.
Qed.

(** The first parallel loop of [Split], from block [k] on. *)
Lemma scatter_spec dp (begin cnt bs : Z) (n : nat) :
  forall (k : Z) tl tr ob lc rc,
  0 <= begin -> begin + cnt <= lengthZ (indices_ dp) ->
  cnt <= lengthZ tl -> cnt <= lengthZ tr ->
  0 <= k -> k + Z.of_nat n <= lengthZ ob ->
  k + Z.of_nat n <= lengthZ lc -> k + Z.of_nat n <= lengthZ rc ->
  0 <= bs -> 0 <= cnt <= INT_MAX -> (k + Z.of_nat n) * bs <= INT_MAX ->
  scattered oracle (indices_ dp) begin cnt bs k tl tr ob lc rc ->
  ok_with (run_blocks
             (Split_block dataset feature threshold num_threshold default_left
                          begin)
             (block 0 cnt bs <$> seqZ k (Z.of_nat n))
             (with_scratch tl tr ob lc rc dp))
    (fun dp' t =>
       t = scatter_traces oracle (indices_ dp) begin
             (block 0 cnt bs <$> seqZ k (Z.of_nat n)) /\
       exists tl' tr' ob' lc' rc',
         dp' = with_scratch tl' tr' ob' lc' rc' dp /\
         lengthZ tl' = lengthZ tl /\ lengthZ tr' = lengthZ tr /\
         lengthZ ob' = lengthZ ob /\ lengthZ lc' = lengthZ lc /\
         lengthZ rc' = lengthZ rc /\
         scattered oracle (indices_ dp) begin cnt bs (k + Z.of_nat n)
                   tl' tr' ob' lc' rc').
Proof using dataset_counts.
  induction n as [|n IH];
    intros k tl tr ob lc rc Hb Hbc Htl Htr Hk Hob Hlc Hrc Hbs Hcnt Hfit Hsc.
  { simpl. split; [done|]. exists tl, tr, ob, lc, rc.
    split_and!; try done. by rewrite Z.add_0_r. }
  rewrite (seqZ_cons k) by lia. cbn [fmap list_fmap run_blocks].
  replace (Z.pred (Z.of_nat (Datatypes.S n))) with (Z.of_nat n) by lia.
  replace (Z.succ k) with (k + 1) by lia.
  pose proof (Split_block_spec dp begin cnt bs k tl tr ob lc rc Hb Hbc Htl Htr
                ltac:(lia) ltac:(lia) ltac:(lia) Hbs Hcnt ltac:(nia)) as Hstep.
  cbv zeta in Hstep.
  destruct (block 0 cnt bs k) as [[i lo] hi] eqn:Hblk.
  assert (i = k /\ lo = k * bs /\ hi = Z.min cnt ((k + 1) * bs))
    as (-> & Hlo & Hhi)
    by (unfold block in Hblk; injection Hblk as <- <- <-; split_and!; lia).
  cbn [fst snd] in Hstep.
  apply ok_with_bind. eapply ok_with_mono; [exact Hstep|]. clear Hstep.
  intros dp1 t1 (-> & tl1 & tr1 & ob1 & -> & Ltl & Ltr & Lob & Hempty & Hfull).
  set (out := block_out oracle (indices_ dp) begin (k, lo, hi)) in *.
  assert (scattered oracle (indices_ dp) begin cnt bs (k + 1) tl1 tr1 ob1
            (<[Z.to_nat k := lengthZ out.1]> lc)
            (<[Z.to_nat k := lengthZ out.2]> rc)) as Hsc1.
  { intros j Hj. cbv zeta.
    destruct (decide (j = k)) as [->|Hne].
    - rewrite Hblk. fold out. cbn [fst snd].
      rewrite !lookup_insert_Z by lia. rewrite !decide_True by done.
      split; [done|]. split; [done|]. split.
      + intros Hle. subst out. unfold block_out.
        by rewrite (proj2 (Z.leb_le _ _) Hle).
      + intros Hpos. destruct (Hfull Hpos) as (-> & -> & -> & Hsum).
        pose proof (lengthZ_nonneg out.1). pose proof (lengthZ_nonneg out.2).
        rewrite lookup_insert_Z by lia. rewrite decide_True by done.
        rewrite !slice_splice_same by nia. done.
    - specialize (Hsc j ltac:(lia)). cbv zeta in Hsc.
      destruct (block 0 cnt bs j) as [[i' lo'] hi'] eqn:Hblk'.
      assert (lo' = j * bs /\ hi' = Z.min cnt ((j + 1) * bs))
        as (Hlo' & Hhi')
        by (unfold block in Hblk'; injection Hblk' as <- <- <-; split_and!; lia).
      cbn [fst snd] in Hsc |- *.
      destruct Hsc as (Hl & Hr & He & Hf).
      rewrite !lookup_insert_Z by lia. rewrite !decide_False by lia.
      split; [done|]. split; [done|]. split; [done|].
      intros Hpos. destruct (Hf Hpos) as (Ho & Hsl & Hsr & Hsum).
      set (out' := block_out oracle (indices_ dp) begin (i', lo', hi')) in *.
      pose proof (lengthZ_nonneg out'.1). pose proof (lengthZ_nonneg out'.2).
      destruct (decide (hi - lo <= 0)) as [Hle|Hgt].
      + destruct (Hempty Hle) as (-> & -> & ->). done.
      + destruct (Hfull ltac:(lia)) as (-> & -> & -> & Hsum1).
        pose proof (lengthZ_nonneg out.1). pose proof (lengthZ_nonneg out.2).
        rewrite lookup_insert_Z by lia. rewrite decide_False by lia.
        rewrite !slice_splice_disjoint by nia. done. }
  eapply ok_with_mono.
  { apply (IH (k + 1) tl1 tr1 ob1); rewrite ?length_insert; try lia; done. }
  intros dp2 t2 (-> & tl2 & tr2 & ob2 & lc2 & rc2 & -> & L1 & L2 & L3 & L4 & L5 & Hsc2).
  split; [done|].
  exists tl2, tr2, ob2, lc2, rc2.
  rewrite !length_insert in *.
  split_and!; try done; try lia.
  by replace (k + Z.of_nat (Datatypes.S n)) with (k + 1 + Z.of_nat n) by lia.
Qed.

Lemma block_outs_lookup idx begin cnt nb bs k :
  0 <= k < nb ->
  block_outs oracle idx begin cnt nb bs !! Z.to_nat k
  = Some (block_out oracle idx begin (block 0 cnt bs k)).
Proof.
  intros Hk. unfold block_outs.
  by rewrite list_lookup_fmap, blocks_lookup.
Qed.

Lemma block_outs_length idx begin cnt nb bs :
  lengthZ (block_outs oracle idx begin cnt nb bs) = Z.max 0 nb.
Proof. unfold block_outs. rewrite length_fmap. apply length_blocks. Qed.

Lemma block_out_counts idx begin cnt bs k :
  0 <= begin -> begin + cnt <= lengthZ idx -> 0 <= k -> 0 <= bs ->
  lengthZ (block_out oracle idx begin (block 0 cnt bs k)).1
  + lengthZ (block_out oracle idx begin (block 0 cnt bs k)).2
  = Z.max 0 (Z.min cnt ((k + 1) * bs) - k * bs).
Proof using dataset_counts.
  intros Hb Hbc Hk Hbs. unfold block, block_out.
  destruct (_ <=? 0) eqn:E; [apply Z.leb_le in E | apply Z.leb_gt in E].
  - simpl. lia.
  - pose proof (dataset_counts feature threshold num_threshold default_left
                  (slice idx (begin + (0 + k * bs))
                     (Z.min cnt (0 + (k + 1) * bs) - (0 + k * bs)))) as Hc.
    fold oracle in Hc. destruct (oracle _) as [lte gt]. cbn [fst snd].
    rewrite length_slice in Hc by nia. lia.
Qed.

(** The blocks below [j] have handed out the first min(cnt, j * bs) ids
    of the leaf. *)
Lemma block_outs_prefix idx begin cnt nb bs (j : nat) :
  0 <= begin -> begin + cnt <= lengthZ idx -> 0 <= cnt -> 0 <= bs ->
  Z.of_nat j <= nb ->
  write_pos (block_outs oracle idx begin cnt nb bs).*1 (Z.of_nat j)
  + write_pos (block_outs oracle idx begin cnt nb bs).*2 (Z.of_nat j)
  = Z.min cnt (Z.of_nat j * bs).
Proof using dataset_counts.
  intros Hb Hbc Hcnt Hbs Hj. induction j as [|j IH].
  { rewrite !write_pos_0. lia. }
  specialize (IH ltac:(lia)).
  pose proof (block_outs_lookup idx begin cnt nb bs (Z.of_nat j) ltac:(lia))
    as Hlk. rewrite Nat2Z.id in Hlk.
  replace (Z.of_nat (Datatypes.S j)) with (Z.of_nat j + 1) by lia.
  destruct (write_pos_succ (block_outs oracle idx begin cnt nb bs).*1
              (Z.of_nat j) _ ltac:(lia)
              ltac:(rewrite Nat2Z.id, list_lookup_fmap, Hlk; reflexivity))
    as [-> _].
  destruct (write_pos_succ (block_outs oracle idx begin cnt nb bs).*2
              (Z.of_nat j) _ ltac:(lia)
              ltac:(rewrite Nat2Z.id, list_lookup_fmap, Hlk; reflexivity))
    as [-> _].
  pose proof (block_out_counts idx begin cnt bs (Z.of_nat j) Hb Hbc
                ltac:(lia) Hbs).
  nia.
Qed.

Lemma block_outs_total idx begin cnt nb bs :
  0 <= begin -> begin + cnt <= lengthZ idx -> 0 <= cnt -> 0 <= bs ->
  0 <= nb -> cnt <= nb * bs ->
  lengthZ (concat (block_outs oracle idx begin cnt nb bs).*1)
  + lengthZ (concat (block_outs oracle idx begin cnt nb bs).*2) = cnt.
Proof using dataset_counts.
  intros Hb Hbc Hcnt Hbs Hnb Hcov.
  pose proof (block_outs_prefix idx begin cnt nb bs (Z.to_nat nb)
                Hb Hbc Hcnt Hbs ltac:(lia)) as H.
  pose proof (block_outs_length idx begin cnt nb bs) as Hlen.
  rewrite !write_pos_all in H by (rewrite length_fmap; lia).
  lia.
Qed.

(** The second parallel loop of [Split], from block [k] on: it moves the
    blocks' left sections to the front of the leaf's range and their
    right sections behind them, in block order.  [idx0] is the index
    array before the call. *)
Lemma gather_spec idx0 begin cnt nb bs outs (n : nat) :
  forall (k : Z) dp,
  outs = block_outs oracle idx0 begin cnt nb bs ->
  0 <= begin -> begin + cnt <= lengthZ idx0 ->
  0 <= cnt -> 0 <= bs -> cnt <= nb * bs ->
  0 <= k -> k + Z.of_nat n = nb -> nb <= lengthZ (offsets_buf_ dp) ->
  scattered oracle idx0 begin cnt bs nb
            (temp_left_indices_ dp) (temp_right_indices_ dp) (offsets_buf_ dp)
            (left_cnts_buf_ dp) (right_cnts_buf_ dp) ->
  (forall j, 0 <= j < nb ->
     left_write_pos_buf_ dp !! Z.to_nat j = Some (write_pos outs.*1 j) /\
     right_write_pos_buf_ dp !! Z.to_nat j = Some (write_pos outs.*2 j)) ->
  indices_ dp
  = splice (splice idx0 begin (concat (take (Z.to_nat k) outs.*1)))
           (begin + lengthZ (concat outs.*1))
           (concat (take (Z.to_nat k) outs.*2)) ->
  ok_with (copy_loop n k begin (begin + lengthZ (concat outs.*1)) dp)
    (fun dp' t =>
       t = concat (gather_trace begin (begin + lengthZ (concat outs.*1)) outs
                     <$> (block 0 cnt bs <$> seqZ k (Z.of_nat n))) /\
       dp' = set_indices
               (splice (splice idx0 begin (concat outs.*1))
                       (begin + lengthZ (concat outs.*1)) (concat outs.*2))
               dp).
Proof using dataset_counts.
  induction n as [|n IH];
    intros k dp Houts Hb Hbc Hcnt Hbs Hcov Hk Hkn Hob Hsc Hwp Hidx.
  { simpl. split; [done|].
    pose proof (block_outs_length idx0 begin cnt nb bs) as Hlen.
    rewrite <- Houts in Hlen.
    rewrite !take_ge in Hidx by (rewrite length_fmap; lia).
    rewrite <- Hidx. by destruct dp. }
  pose proof (block_outs_total idx0 begin cnt nb bs Hb Hbc Hcnt Hbs
                ltac:(lia) Hcov) as Htot. rewrite <- Houts in Htot.
  pose proof (block_outs_lookup idx0 begin cnt nb bs k ltac:(lia))
    as Hout. rewrite <- Houts in Hout.
  destruct (Hsc k ltac:(lia)) as (Hlc & Hrc & Hempty & Hfull).
  destruct (Hwp k ltac:(lia)) as (Hlw & Hrw).
  destruct (lookup_lt_is_Some_2 (offsets_buf_ dp) (Z.to_nat k) ltac:(lia))
    as [o Ho].
  cbv zeta in Hlc, Hrc, Hempty, Hfull.
  set (out := block_out oracle idx0 begin (block 0 cnt bs k)) in *.
  destruct (write_pos_succ outs.*1 k out.1 Hk
              ltac:(rewrite list_lookup_fmap, Hout; reflexivity))
    as [HwL HcL].
  destruct (write_pos_succ outs.*2 k out.2 Hk
              ltac:(rewrite list_lookup_fmap, Hout; reflexivity))
    as [HwR HcR].
  pose proof (write_pos_bounds outs.*1 (k + 1)) as HbL.
  pose proof (write_pos_bounds outs.*2 (k + 1)) as HbR.
  pose proof (write_pos_bounds outs.*1 k) as HbL0.
  pose proof (write_pos_bounds outs.*2 k) as HbR0.
  set (L := concat (take (Z.to_nat k) outs.*1)) in *.
  set (R := concat (take (Z.to_nat k) outs.*2)) in *.
  assert (write_pos outs.*1 k = lengthZ L) as EL by done.
  assert (write_pos outs.*2 k = lengthZ R) as ER by done.
  assert (lengthZ (indices_ dp) = lengthZ idx0) as Hlen.
  { rewrite Hidx. rewrite !length_splice; rewrite ?length_splice; lia. }
  assert (forall x : Z, 0 < x ->
            x = lengthZ out.1 \/ x = lengthZ out.2 ->
            0 < (block 0 cnt bs k).2 - (block 0 cnt bs k).1.2) as Hne.
  { intros x Hx Hor.
    destruct (decide (0 < (block 0 cnt bs k).2 - (block 0 cnt bs k).1.2))
      as [|Hn]; [done|].
    rewrite (Hempty ltac:(lia)) in Hor. simpl in Hor. lia. }
  assert (0 <= (block 0 cnt bs k).1.2) as Hlo0 by (unfold block; simpl; nia).
  cbn [copy_loop].
  eapply ok_with_bind, ok_vget; [lia | exact Ho |].
  eapply ok_with_bind, ok_vget; [lia | exact Hlc |].
  eapply ok_with_bind, ok_vget; [lia | exact Hlw |].
  eapply ok_with_bind, (ok_copy_n _ _ _ _ _ _ _ out.1); [done | | lia | lia |].
  { intros Hpos. destruct (Hfull (Hne _ Hpos ltac:(by left)))
      as (Ho' & Hsl & _ & _).
    assert (o = (block 0 cnt bs k).1.2) as -> by congruence. done. }
  eapply ok_with_bind, ok_vget; [lia | exact Ho |].
  eapply ok_with_bind, ok_vget; [lia | exact Hrc |].
  eapply ok_with_bind, ok_vget; [lia | exact Hrw |].
  eapply ok_with_bind, (ok_copy_n _ _ _ _ _ _ _ out.2);
    [done | | lia | rewrite length_splice by lia; lia |].
  { intros Hpos. destruct (Hfull (Hne _ Hpos ltac:(by right)))
      as (Ho' & _ & Hsr & _).
    assert (o = (block 0 cnt bs k).1.2) as -> by congruence. done. }
  eapply ok_with_mono.
  { apply (IH (k + 1)); norm_dp; try done; try lia.
    rewrite HcL, HcR, EL, ER, Hidx.
    apply gather_step_algebra; lia. }
  intros dp' t [-> ->]. split; [|done].
  rewrite (seqZ_cons k) by lia.
  replace (Z.pred (Z.of_nat (Datatypes.S n))) with (Z.of_nat n) by lia.
  replace (Z.succ k) with (k + 1) by lia.
  cbn [fmap list_fmap concat]. clear IH.
  assert (forall x : Z, 0 < x -> x = lengthZ out.1 \/ x = lengthZ out.2 ->
                        o = 0 + k * bs) as Ho'.
  { intros x Hx Hor. destruct (Hfull (Hne x Hx Hor)) as (Ho' & _).
    unfold block in Ho'. cbn [fst snd] in Ho'. congruence. }
  change (block 0 cnt bs k)
    with (k, 0 + k * bs, Z.min cnt (0 + (k + 1) * bs)).
  unfold gather_trace at 2. cbv beta iota. rewrite Hout.
  cbn [from_option]. unfold id.
  destruct (Z.of_nat (length out.1) <=? 0) eqn:E1;
    [|apply Z.leb_gt in E1; rewrite (Ho' _ E1 ltac:(by left))];
    (destruct (Z.of_nat (length out.2) <=? 0) eqn:E2;
     [|apply Z.leb_gt in E2; rewrite ?(Ho' _ E2 ltac:(by right))]);
    rewrite <- ?app_assoc; reflexivity.
Qed.

(** With a stable split decision, the blocks below [j] have split the
    first min(cnt, j * bs) ids of the leaf stably. *)
Lemma block_outs_stable idx begin cnt nb bs (j : nat) :
  oracle_stable dataset ->
  0 <= begin -> begin + cnt <= lengthZ idx -> 0 <= cnt -> 0 <= bs ->
  Z.of_nat j <= nb ->
  stable_partition
    (concat (take j (block_outs oracle idx begin cnt nb bs).*1))
    (concat (take j (block_outs oracle idx begin cnt nb bs).*2))
    (slice idx begin (Z.min cnt (Z.of_nat j * bs))).
Proof.
  intros Hst Hb Hbc Hcnt Hbs Hj. induction j as [|j IH].
  { rewrite !take_0. cbn [concat].
    replace (Z.min cnt (Z.of_nat 0 * bs)) with 0 by lia. constructor. }
  specialize (IH ltac:(lia)).
  pose proof (block_outs_lookup idx begin cnt nb bs (Z.of_nat j) ltac:(lia))
    as Hlk. rewrite Nat2Z.id in Hlk.
  assert ((block_outs oracle idx begin cnt nb bs).*1 !! j
          = Some (block_out oracle idx begin (block 0 cnt bs (Z.of_nat j))).1)
    as H1 by (rewrite list_lookup_fmap, Hlk; done).
  assert ((block_outs oracle idx begin cnt nb bs).*2 !! j
          = Some (block_out oracle idx begin (block 0 cnt bs (Z.of_nat j))).2)
    as H2 by (rewrite list_lookup_fmap, Hlk; done).
  rewrite (take_S_r _ _ _ H1), (take_S_r _ _ _ H2).
  rewrite !concat_app. cbn [concat]. rewrite !app_nil_r.
  clear H1 H2 Hlk.
  unfold block, block_out. cbv beta iota.
  set (lo := 0 + Z.of_nat j * bs). set (hi := Z.min cnt (0 + (Z.of_nat j + 1) * bs)).
  destruct (hi - lo <=? 0) eqn:E; [apply Z.leb_le in E | apply Z.leb_gt in E].
  - cbn [fst snd]. rewrite !app_nil_r.
    replace (Z.min cnt (Z.of_nat (Datatypes.S j) * bs))
      with (Z.min cnt (Z.of_nat j * bs)) by (subst lo hi; nia).
    done.
  - replace (Z.min cnt (Z.of_nat (Datatypes.S j) * bs))
      with (Z.min cnt (Z.of_nat j * bs) + (hi - lo)) by (subst lo hi; nia).
    rewrite slice_app by (subst lo hi; nia).
    replace (begin + Z.min cnt (Z.of_nat j * bs)) with (begin + lo)
      by (subst lo hi; nia).
    apply stable_partition_app; [done|].
    specialize (Hst feature threshold num_threshold default_left
                    (slice idx (begin + lo) (hi - lo))).
    fold oracle in Hst. by destruct (oracle _).
Qed.

Lemma block_outs_stable_total idx begin cnt nb bs :
  oracle_stable dataset ->
  0 <= begin -> begin + cnt <= lengthZ idx -> 0 <= cnt -> 0 <= bs ->
  0 <= nb -> cnt <= nb * bs ->
  stable_partition
    (concat (block_outs oracle idx begin cnt nb bs).*1)
    (concat (block_outs oracle idx begin cnt nb bs).*2)
    (slice idx begin cnt).
Proof.
  intros Hst Hb Hbc Hcnt Hbs Hnb Hcov.
  pose proof (block_outs_stable idx begin cnt nb bs (Z.to_nat nb) Hst Hb Hbc
                Hcnt Hbs ltac:(lia)) as H.
  pose proof (block_outs_length idx begin cnt nb bs) as Hlen.
  rewrite !take_ge in H by (rewrite length_fmap; lia).
  by replace (Z.min cnt (Z.of_nat (Z.to_nat nb) * bs)) with cnt in H by nia.
Qed.

Section SplitCall.

Variable kAlignedSize : Z.
Hypothesis kAlignedSize_pos : 1 <= kAlignedSize.

(** A call of [Split] on a non-empty leaf completes; its result and
    its accesses are those of [Split_post] and [Split_trace]. *)
Lemma Split_spec T leaf right_leaf dp begin cnt nb bs :
  Split_pre kAlignedSize T leaf right_leaf dp begin cnt -> 0 < cnt ->
  BlockInfo kAlignedSize T cnt 1024 = (nb, bs) ->
  ok_with (Split kAlignedSize dataset feature threshold num_threshold
                 default_left T leaf right_leaf dp)
    (fun dp' t =>
       t = Split_trace oracle (indices_ dp) leaf right_leaf begin cnt nb bs /\
       Split_post oracle dp leaf right_leaf begin cnt nb bs dp').
Proof using dataset_counts kAlignedSize_pos.
  intros (Hwf & HT & Hleaf & Hright & Hne & Hbegin & Hcount & Hb0 & _ & Hbc
          & Hfit1 & Hfit2) Hcnt HB.
  destruct Hwf as (Llb & Llc & Lidx & Ltl & Ltr & Lob & Llcb & Lrcb & Llw & Lrw).
  assert (For_fits kAlignedSize T 0 cnt 1024) as Hfits
    by (unfold For_fits, INT_MIN, INT_MAX in *; split_and!; nia).
  pose proof (BlockInfo_spec kAlignedSize kAlignedSize_pos T cnt 1024 nb bs
                ltac:(lia) ltac:(lia) ltac:(lia) ltac:(lia)
                ltac:(unfold INT_MAX in *; nia) ltac:(unfold INT_MAX in *; nia)
                HB) as (_ & _ & _ & Hcov & Hnb & Hbs & Hpos & Hup).
  destruct (Hpos Hcnt) as [Hnb1 Hbs1].
  unfold Split.
  eapply ok_with_bind, ok_vget; [lia | exact Hbegin |].
  eapply ok_with_bind, ok_vget; [lia | exact Hcount |].
  rewrite (For_run_blocks kAlignedSize kAlignedSize_pos _ T 0 cnt 1024 nb bs)
    by (rewrite ?Z.sub_0_r; done || lia).
  apply ok_with_bind, ok_with_bind.
  pose proof (scatter_spec dp begin cnt bs (Z.to_nat nb) 0
                (temp_left_indices_ dp) (temp_right_indices_ dp)
                (offsets_buf_ dp) (left_cnts_buf_ dp) (right_cnts_buf_ dp)
                Hb0 ltac:(lia) ltac:(lia) ltac:(lia) ltac:(lia) ltac:(lia)
                ltac:(lia) ltac:(lia) Hbs ltac:(unfold INT_MAX in *; lia)
                ltac:(unfold INT_MAX in *; nia)
                ltac:(intros j Hj; lia)) as H1.
  rewrite <- with_scratch_id in H1. rewrite Z2Nat.id in H1 by lia.
  fold (blocks 0 cnt nb bs) in H1.
  eapply ok_with_mono; [exact H1|]. clear H1.
  intros dp1 t1 (-> & tl & tr & ob & lc & rc & -> & Ltl' & Ltr' & Lob' & Llc'
                 & Lrc' & Hsc).
  rewrite Z.add_0_l in Hsc.
  cbn [ret ok_with]. cbv beta iota.
  set (outs := block_outs oracle (indices_ dp) begin cnt nb bs) in *.
  pose proof (block_outs_total (indices_ dp) begin cnt nb bs Hb0 ltac:(lia)
                ltac:(lia) Hbs ltac:(lia) Hcov) as Htot. fold outs in Htot.
  pose proof (block_outs_length (indices_ dp) begin cnt nb bs) as Hlen.
  fold outs in Hlen.
  assert (forall j : nat, (j <= Z.to_nat nb)%nat ->
            sumZ (take j lc) = write_pos outs.*1 (Z.of_nat j) /\
            sumZ (take j rc) = write_pos outs.*2 (Z.of_nat j)) as Hsum.
  { intros j Hj. split; apply sumZ_take_counts;
      try (rewrite length_fmap; lia).
    - intros i l Hi Hl. rewrite list_lookup_fmap in Hl.
      pose proof (block_outs_lookup (indices_ dp) begin cnt nb bs (Z.of_nat i)
                    ltac:(lia)) as Hlk.
      fold outs in Hlk. rewrite Nat2Z.id in Hlk. rewrite Hlk in Hl.
      injection Hl as <-. destruct (Hsc (Z.of_nat i) ltac:(lia)) as (Hl & _).
      by rewrite Nat2Z.id in Hl.
    - intros i l Hi Hl. rewrite list_lookup_fmap in Hl.
      pose proof (block_outs_lookup (indices_ dp) begin cnt nb bs (Z.of_nat i)
                    ltac:(lia)) as Hlk.
      fold outs in Hlk. rewrite Nat2Z.id in Hlk. rewrite Hlk in Hl.
      injection Hl as <-. destruct (Hsc (Z.of_nat i) ltac:(lia)) as (_ & Hr & _).
      by rewrite Nat2Z.id in Hr. }
  pose proof (write_pos_bounds outs.*1) as HbL.
  pose proof (write_pos_bounds outs.*2) as HbR.
  norm_dp.
  apply ok_with_bind, ok_vset; [lia|].
  apply ok_with_bind, ok_vset; [lia|].
  apply ok_with_bind. eapply ok_with_mono.
  { apply (write_pos_spec (Z.to_nat (nb - 1)) 1); norm_dp;
      rewrite ?length_insert; try lia.
    - intros j Hj. destruct (Hsum j ltac:(lia)) as [-> ->].
      specialize (HbL (Z.of_nat j)). specialize (HbR (Z.of_nat j)).
      split; range32.
    - intros j Hj. assert (j = 0) as -> by lia.
      change (Z.to_nat 0) with 0%nat.
      rewrite !list_lookup_insert_eq by lia. done. }
  intros dp2 t2 (-> & lw & rw & -> & Llw' & Lrw' & Hwp). norm_dp.
  rewrite !length_insert in Llw', Lrw'.
  rewrite Z2Nat.id in Hwp |- * by lia.
  destruct (Hwp (nb - 1) ltac:(lia)) as [Hlp _].
  destruct (Hsum (Z.to_nat (nb - 1)) ltac:(lia)) as [Hs1 _].
  rewrite Hs1, Z2Nat.id in Hlp by lia.
  pose proof (block_outs_lookup (indices_ dp) begin cnt nb bs (nb - 1)
                ltac:(lia)) as Hlast. fold outs in Hlast.
  destruct (Hsc (nb - 1) ltac:(lia)) as (Hlcl & _). cbv zeta in Hlcl.
  destruct (write_pos_succ outs.*1 (nb - 1) _ ltac:(lia)
              ltac:(rewrite list_lookup_fmap, Hlast; reflexivity))
    as [Hleft _].
  replace (nb - 1 + 1) with nb in Hleft by lia.
  rewrite write_pos_all in Hleft by (rewrite length_fmap; lia).
  set (left_cnt := lengthZ (concat outs.*1)) in *.
  eapply ok_with_bind, ok_vget; [lia | exact Hlp |].
  eapply ok_with_bind, ok_vget; [lia | exact Hlcl |].
  pose proof (lengthZ_nonneg (concat outs.*2)).
  rewrite (add32_id (write_pos _ _)) by (rewrite <- Hleft; range32).
  rewrite <- Hleft.
  rewrite !add32_id by range32. rewrite sub32_id by range32.
  apply ok_with_bind. eapply ok_with_mono.
  { apply (gather_spec (indices_ dp) begin cnt nb bs outs (Z.to_nat nb) 0);
      norm_dp; try done; try lia.
    - intros j Hj. destruct (Hwp j ltac:(lia)) as [Hjl Hjr].
      destruct (Hsum (Z.to_nat j) ltac:(lia)) as [Hs1' Hs2'].
      rewrite Z2Nat.id in Hs1', Hs2' by lia. by rewrite <- Hs1', <- Hs2'.
    - change (Z.to_nat 0) with 0%nat. rewrite !take_0. cbn [concat].
      fold left_cnt.
      rewrite (splice_nil (indices_ dp) begin) by lia.
      by rewrite splice_nil by lia. }
  intros dp3 t3 [-> ->]. norm_dp.
  assert (leaf < lengthZ (leaf_count_ dp)) as Hleafc
    by (apply lookup_lt_Some in Hcount; lia).
  apply ok_with_bind, ok_vset; [lia|].
  apply ok_with_bind, ok_vset; [lia|].
  apply ok_with_bind, ok_vset; [rewrite length_insert; lia|].
  apply ok_with_ret. split.
  - unfold Split_trace. fold outs. fold left_cnt.
    rewrite Z2Nat.id by lia. fold (blocks 0 cnt nb bs).
    rewrite !app_nil_r. cbn [app]. by rewrite <- ?app_assoc.
  - unfold Split_post. fold outs. fold left_cnt. norm_dp.
    rewrite ?length_insert.
    split_and!; try done; try lia.
    + f_equal. lia.
    + apply splice_splice_adjacent; lia.
Qed.

(** On an empty leaf [Split] reads its bookkeeping arrays at index -1. *)
Lemma Split_empty T leaf right_leaf dp begin :
  Split_pre kAlignedSize T leaf right_leaf dp begin 0 ->
  Split kAlignedSize dataset feature threshold num_threshold default_left
        T leaf right_leaf dp
  = Fault LeftWritePos (-1) 1
          [Rd LeafBegin leaf 1; Rd LeafCount leaf 1;
           Wr LeftWritePos 0 1; Wr RightWritePos 0 1].
Proof.
  intros (Hwf & HT & Hleaf & Hright & Hne & Hbegin & Hcount & Hb0 & _ & Hbc
          & Hfit1 & Hfit2).
  destruct Hwf as (Llb & Llc & Lidx & Ltl & Ltr & Lob & Llcb & Lrcb & Llw & Lrw).
  unfold Split.
  rewrite (vget_lookup _ _ _ _ Hleaf Hbegin). cbn [bind].
  rewrite (vget_lookup _ _ _ _ Hleaf Hcount). cbn [bind].
  rewrite For_empty by (unfold INT_MAX; lia). cbn [bind prepend].
  unfold vset. rewrite !in_bounds_true by lia. cbn [bind prepend].
  change (Z.to_nat (0 - 1)) with 0%nat. cbn [write_pos_loop ret bind prepend].
  reflexivity.
Qed.

End SplitCall.

End SplitFacts.

(** *** Properties of a call of [Split] *)

Lemma sumZ_lengths (outs : list (list Z * list Z)) :
  sumZ ((fun out => lengthZ out.1) <$> outs) = lengthZ (concat outs.*1).
Proof.
  unfold sumZ. induction outs as [|out outs IH]; [done|].
  cbn [fmap list_fmap foldr concat]. rewrite length_app. lia.
Qed.

Lemma ok_with_Ok {A : Type} (m : outcome A) (Q : A -> list event -> Prop) :
  ok_with m Q -> exists a tr, m = Ok a tr /\ Q a tr.
Proof. apply ok_with_inv. Qed.

(** C10. Empty range: for every call of [Threading::For] with
    start == end and min_block_size >= 1, [BlockInfo] lays out zero
    blocks, the body is not called (the state comes back unchanged and no
    access is made, whatever the body is), and [For] returns 0, not 1;
    [Split], which reads its bookkeeping arrays at (returned value - 1),
    therefore reads index -1 when the leaf it splits is empty. *)
Theorem For_empty_range_and_Split (kAlignedSize T : Z) :
  0 <= T ->
  (forall (S : Type) (inner_fun : Z -> Z -> Z -> S -> outcome S)
          (start min_block_size : Z) (s : S),
      1 <= min_block_size <= INT_MAX ->
      BlockInfo kAlignedSize T 0 min_block_size = (0, 0) /\
      For kAlignedSize T start start min_block_size inner_fun s
      = Ok (0, s) []) /\
  (forall (dataset : Dataset) feature threshold num_threshold default_left
          leaf right_leaf dp begin,
      Split_pre kAlignedSize T leaf right_leaf dp begin 0 ->
      0 - 1 = -1 /\
      Split kAlignedSize dataset feature threshold num_threshold default_left
            T leaf right_leaf dp
      = Fault LeftWritePos (0 - 1) 1
              [Rd LeafBegin leaf 1; Rd LeafCount leaf 1;
               Wr LeftWritePos 0 1; Wr RightWritePos 0 1]).
Proof.
  intros HT. split.
  - intros S inner_fun start m s Hm. split.
    + by apply BlockInfo_empty.
    + by apply For_empty.
  - intros dataset feature threshold num_threshold default_left leaf
           right_leaf dp begin Hpre.
    split; [done|]. by eapply Split_empty.
Qed.

(** C3. Bookkeeping of [Split]: for a call made with a thread count T
    between 1 and the one seen at construction, on a store with
    num_data + 1024 and num_data + (alignment + 1) * T at most INT_MAX,
    on a leaf with range [begin, begin + cnt), cnt > 0, with
    total_left_count the sum of the left counts of the blocks, the call
    completes and afterwards
    leaf_count[leaf] = total_left_count,
    leaf_begin[right_leaf] = begin + total_left_count,
    leaf_count[right_leaf] = cnt - total_left_count, and
    leaf_begin[leaf] is still begin. *)
Theorem Split_bookkeeping
        (kAlignedSize : Z) (dataset : Dataset) (feature : Z)
        (threshold : list Z) (num_threshold : Z) (default_left : bool)
        (T leaf right_leaf : Z) (dp : DataPartition) (begin cnt nb bs : Z) :
  1 <= kAlignedSize ->
  oracle_counts dataset ->
  Split_pre kAlignedSize T leaf right_leaf dp begin cnt ->
  0 < cnt ->
  BlockInfo kAlignedSize T cnt 1024 = (nb, bs) ->
  let oracle := dataset feature threshold num_threshold default_left in
  let total_left_count :=
    sumZ ((fun out => lengthZ out.1)
            <$> block_outs oracle (indices_ dp) begin cnt nb bs) in
  exists dp' tr,
    Split kAlignedSize dataset feature threshold num_threshold default_left
          T leaf right_leaf dp = Ok dp' tr /\
    leaf_count_ dp' !! Z.to_nat leaf = Some total_left_count /\
    leaf_begin_ dp' !! Z.to_nat right_leaf = Some (begin + total_left_count) /\
    leaf_count_ dp' !! Z.to_nat right_leaf = Some (cnt - total_left_count) /\
    leaf_begin_ dp' !! Z.to_nat leaf = Some begin.
Proof.
  intros HA Hcounts Hpre Hcnt HB oracle total.
  destruct (ok_with_Ok _ _ (Split_spec dataset feature threshold num_threshold
                              default_left Hcounts kAlignedSize HA T leaf
                              right_leaf dp begin cnt nb bs Hpre Hcnt HB))
    as (dp' & tr & HS & _ & Hpost).
  exists dp', tr. split; [exact HS|].
  destruct Hpre as (Hwf & HT & Hleaf & Hright & Hne & Hbegin & Hcount & _).
  destruct Hwf as (Llb & Llc & _).
  destruct Hpost as (_ & _ & _ & _ & _ & -> & -> & _).
  subst total. rewrite sumZ_lengths. fold oracle.
  assert (leaf < lengthZ (leaf_count_ dp))
    by (apply lookup_lt_Some in Hcount; lia).
  split_and!.
  - rewrite list_lookup_insert_ne by lia.
    by rewrite list_lookup_insert_eq by lia.
  - by rewrite list_lookup_insert_eq by lia.
  - by rewrite list_lookup_insert_eq by (rewrite length_insert; lia).
  - by rewrite list_lookup_insert_ne by lia.
Qed.

(** C9. Frame of [Split]: for a call made with a thread count T
    between 1 and the one seen at construction, on a store with
    num_data + 1024 and num_data + (alignment + 1) * T at most INT_MAX,
    with valid, different leaves on a range [begin, begin + cnt),
    cnt > 0, the call completes, every element of [indices]
    outside the range is unchanged, [leaf_begin] and [leaf_count] of every
    other leaf are unchanged, and so are num_data, num_leaves and the
    bagging reference. *)
Theorem Split_frame
        (kAlignedSize : Z) (dataset : Dataset) (feature : Z)
        (threshold : list Z) (num_threshold : Z) (default_left : bool)
        (T leaf right_leaf : Z) (dp : DataPartition) (begin cnt : Z) :
  1 <= kAlignedSize ->
  oracle_counts dataset ->
  Split_pre kAlignedSize T leaf right_leaf dp begin cnt ->
  0 < cnt ->
  exists dp' tr,
    Split kAlignedSize dataset feature threshold num_threshold default_left
          T leaf right_leaf dp = Ok dp' tr /\
    length (indices_ dp') = length (indices_ dp) /\
    (forall p, 0 <= p -> ~ (begin <= p < begin + cnt) ->
               indices_ dp' !! Z.to_nat p = indices_ dp !! Z.to_nat p) /\
    (forall other, 0 <= other -> other <> leaf -> other <> right_leaf ->
       leaf_begin_ dp' !! Z.to_nat other = leaf_begin_ dp !! Z.to_nat other /\
       leaf_count_ dp' !! Z.to_nat other = leaf_count_ dp !! Z.to_nat other) /\
    num_data_ dp' = num_data_ dp /\
    num_leaves_ dp' = num_leaves_ dp /\
    used_data_indices_ dp' = used_data_indices_ dp /\
    used_data_count_ dp' = used_data_count_ dp.
Proof.
  intros HA Hcounts Hpre Hcnt.
  destruct (BlockInfo kAlignedSize T cnt 1024) as [nb bs] eqn:HB.
  destruct (ok_with_Ok _ _ (Split_spec dataset feature threshold num_threshold
                              default_left Hcounts kAlignedSize HA T leaf
                              right_leaf dp begin cnt nb bs Hpre Hcnt HB))
    as (dp' & tr & HS & _ & Hpost).
  exists dp', tr. split; [exact HS|].
  destruct Hpre as (Hwf & HT & Hleaf & Hright & Hne & Hbegin & Hcount & Hb0
                    & _ & Hbc & _).
  destruct Hwf as (Llb & Llc & Lidx & _).
  destruct Hpost as (-> & -> & -> & -> & _ & -> & -> & -> & Hsum & _).
  set (outs := block_outs _ _ _ _ _ _) in *.
  assert (lengthZ (concat outs.*1 ++ concat outs.*2) = cnt) as Hlen
    by (rewrite length_app; lia).
  split_and!; try done.
  - apply Nat2Z.inj. apply length_splice; lia.
  - intros p Hp Hout. rewrite lookup_splice by lia.
    rewrite decide_False; [done | lia].
  - intros other Ho Hne1 Hne2.
    rewrite !list_lookup_insert_ne by lia. done.
Qed.

(** The ranges of the two leaves after a call, read through
    [GetIndexOnLeaf]. *)
Lemma Split_post_ranges oracle dp leaf right_leaf begin cnt nb bs dp' :
  wf dp -> 0 <= leaf -> 0 <= right_leaf < num_leaves_ dp ->
  leaf <> right_leaf ->
  leaf_begin_ dp !! Z.to_nat leaf = Some begin ->
  leaf_count_ dp !! Z.to_nat leaf = Some cnt ->
  0 <= begin -> begin + cnt <= num_data_ dp ->
  Split_post oracle dp leaf right_leaf begin cnt nb bs dp' ->
  leaf_range dp leaf = slice (indices_ dp) begin cnt /\
  leaf_range dp' leaf
  = concat (block_outs oracle (indices_ dp) begin cnt nb bs).*1 /\
  leaf_range dp' right_leaf
  = concat (block_outs oracle (indices_ dp) begin cnt nb bs).*2.
Proof.
  intros Hwf Hleaf Hright Hne Hbegin Hcount Hb0 Hbc Hpost.
  destruct Hwf as (Llb & Llc & Lidx & _).
  unfold Split_post in Hpost. cbv zeta in Hpost.
  destruct Hpost as (_ & _ & _ & _ & _ & Hlb & Hlc & Hidx & Hsum & _).
  set (outs := block_outs _ _ _ _ _ _) in *.
  assert (leaf < lengthZ (leaf_count_ dp))
    by (apply lookup_lt_Some in Hcount; lia).
  assert (leaf < lengthZ (leaf_begin_ dp))
    by (apply lookup_lt_Some in Hbegin; lia).
  destruct (slice_splice_app (indices_ dp) begin (concat outs.*1)
              (concat outs.*2)) as [HL HR]; [lia | lia |].
  split_and!.
  - by apply leaf_range_eq.
  - rewrite (leaf_range_eq dp' leaf begin (lengthZ (concat outs.*1)) Hleaf).
    + by rewrite Hidx.
    + rewrite Hlb. by rewrite list_lookup_insert_ne by lia.
    + rewrite Hlc. rewrite list_lookup_insert_ne by lia.
      by rewrite list_lookup_insert_eq by lia.
  - rewrite (leaf_range_eq dp' right_leaf (begin + lengthZ (concat outs.*1))
               (lengthZ (concat outs.*2)) ltac:(lia)).
    + by rewrite Hidx.
    + rewrite Hlb. by rewrite list_lookup_insert_eq by lia.
    + rewrite Hlc. rewrite list_lookup_insert_eq by (rewrite length_insert; lia).
      f_equal. lia.
Qed.


(** *** The partition invariant *)

Lemma sumZ_insert (l : list Z) (i : nat) old x :
  l !! i = Some old -> sumZ (<[i := x]> l) = sumZ l - old + x.
Proof.
  unfold sumZ. revert i. induction l as [|y l IH]; intros i Hi; [done|].
  destruct i as [|i]; simpl in *.
  - injection Hi as ->. lia.
  - rewrite (IH i Hi). lia.
Qed.

(** [Init] establishes the partition invariant. *)
Lemma Init_partition_invariant dp :
  wf dp -> 1 <= num_leaves_ dp -> bagging_ok dp ->
  exists dp' tr,
    Init dp = Ok dp' tr /\ partition_invariant dp' /\ active dp' = active dp /\
    num_leaves_ dp' = num_leaves_ dp /\ num_threads_ dp' = num_threads_ dp.
Proof.
  intros Hwf Hnl Hbag.
  destruct (ok_with_inv _ _ (Init_spec dp Hwf Hnl Hbag)) as (dp' & tr & HI & ->).
  pose proof (active_length dp Hwf Hbag) as [Hal Hal'].
  eexists _, tr. split; [exact HI|]. clear HI.
  pose proof Hwf as (Llb & Llc & Lidx & Ltl & Ltr & Lob & Llcb & Lrcb & Llw & Lrw).
  assert (forall leaf, 1 <= leaf ->
            (lengthZ (active dp) :: replicate (Z.to_nat (num_leaves_ dp - 1)) 0)
              !! Z.to_nat leaf
            = replicate (Z.to_nat (num_leaves_ dp - 1)) 0 !! Z.to_nat (leaf - 1))
    as Htail.
  { intros leaf Hleaf.
    replace (Z.to_nat leaf) with (Datatypes.S (Z.to_nat (leaf - 1))) by lia.
    done. }
  split_and!; try done.
  unfold partition_invariant.
  change (active (set_indices _ _)) with (active dp).
  unfold wf. norm_dp.
  rewrite !length_replicate. cbn [length]. rewrite length_replicate.
  rewrite length_splice by lia.
  split_and!; try done; try lia.
  - unfold sumZ. simpl. fold (sumZ (replicate (Z.to_nat (num_leaves_ dp - 1)) 0)).
    rewrite sumZ_replicate_0. lia.
  - unfold tiles, in_leaf. norm_dp. split_and!.
    + intros leaf begin cnt Hl Hb Hc.
      apply lookup_replicate in Hb as [-> _].
      destruct (decide (leaf = 0)) as [->|].
      * injection Hc as <-. lia.
      * rewrite Htail in Hc by lia. apply lookup_replicate in Hc as [-> _]. lia.
    + intros p Hp. exists 0, 0, (lengthZ (active dp)).
      split_and!; try done; try lia.
      apply lookup_replicate_2. lia.
    + intros p l1 l2 (b1 & c1 & Hl1 & Hb1 & Hc1 & Hp1)
             (b2 & c2 & Hl2 & Hb2 & Hc2 & Hp2).
      apply lookup_replicate in Hb1 as [-> _].
      apply lookup_replicate in Hb2 as [-> _].
      destruct (decide (l1 = 0)) as [->|].
      * destruct (decide (l2 = 0)) as [->|]; [done|].
        rewrite Htail in Hc2 by lia.
        apply lookup_replicate in Hc2 as [-> _]. lia.
      * rewrite Htail in Hc1 by lia.
        apply lookup_replicate in Hc1 as [-> _]. lia.
  - by rewrite slice_splice_same by lia.
Qed.

Lemma valid_split_pre align T leaf right_leaf dp cnt :
  partition_invariant dp -> valid_split align T leaf right_leaf dp cnt ->
  0 < cnt ->
  exists begin,
    Split_pre align T leaf right_leaf dp begin cnt /\
    begin + cnt <= lengthZ (active dp).
Proof.
  intros (Hwf & Hsum & Htot & (Hrng & _) & _)
         (HT & Hleaf & Hright & Hcount & Hunused & Hf1 & Hf2) Hcnt.
  pose proof Hwf as (Llb & Llc & _).
  destruct (lookup_lt_is_Some_2 (leaf_begin_ dp) (Z.to_nat leaf) ltac:(lia))
    as [begin Hbegin].
  destruct (Hrng leaf begin cnt ltac:(lia) Hbegin Hcount) as (Hb0 & _ & Hbc).
  exists begin. split; [|done].
  unfold Split_pre. split_and!; try done; try lia.
  intros ->. rewrite Hcount in Hunused. injection Hunused as ->. lia.
Qed.

(** [Split] on a non-empty leaf keeps the partition invariant. *)
Lemma Split_partition_invariant
      (kAlignedSize : Z) (dataset : Dataset) (feature : Z)
      (threshold : list Z) (num_threshold : Z) (default_left : bool)
      (T leaf right_leaf : Z) (dp : DataPartition) (cnt : Z) :
  1 <= kAlignedSize ->
  oracle_stable dataset ->
  partition_invariant dp ->
  valid_split kAlignedSize T leaf right_leaf dp cnt ->
  0 < cnt ->
  exists dp' tr,
    Split kAlignedSize dataset feature threshold num_threshold default_left
          T leaf right_leaf dp = Ok dp' tr /\
    partition_invariant dp' /\ active dp' = active dp /\
    num_leaves_ dp' = num_leaves_ dp /\ num_threads_ dp' = num_threads_ dp.
Proof.
  intros HA Hst Hinv Hvalid Hcnt.
  destruct (valid_split_pre _ _ _ _ _ _ Hinv Hvalid Hcnt)
    as (begin & Hpre & Hbt).
  pose proof (oracle_stable_counts _ Hst) as Hcounts.
  destruct (BlockInfo kAlignedSize T cnt 1024) as [nb bs] eqn:HB.
  destruct (ok_with_Ok _ _ (Split_spec dataset feature threshold num_threshold
                              default_left Hcounts kAlignedSize HA T leaf
                              right_leaf dp begin cnt nb bs Hpre Hcnt HB))
    as (dp' & tr & HS & _ & Hpost).
  exists dp', tr. split; [exact HS|]. clear HS.
  destruct Hpre as (Hwf & HT & Hleaf & Hright & Hne & Hbegin & Hcount & Hb0
                    & _ & Hbc & Hfit1 & Hfit2).
  destruct Hvalid as (_ & Hleaf' & _ & _ & Hunused & _).
  pose proof (BlockInfo_spec kAlignedSize HA T cnt 1024 nb bs
                ltac:(lia) ltac:(lia) ltac:(lia) ltac:(lia)
                ltac:(unfold INT_MAX in *; nia) ltac:(unfold INT_MAX in *; nia)
                HB) as (_ & _ & _ & Hcov & Hnb & Hbs & _).
  pose proof Hwf as (Llb & Llc & Lidx & Ltl & Ltr & Lob & Llcb & Lrcb & Llw & Lrw).
  pose proof (block_outs_stable_total dataset feature threshold num_threshold
                default_left (indices_ dp) begin cnt nb bs Hst Hb0 ltac:(lia)
                ltac:(lia) Hbs ltac:(lia) Hcov) as Hsp.
  unfold Split_post in Hpost. cbv zeta in Hpost.
  destruct Hpost as (Hnd & Hnl & Hui & Huc & Hnt & Hlb & Hlc & Hidx & Hsum
                     & Ltl' & Ltr' & Lob' & Llcb' & Lrcb' & Llw' & Lrw').
  set (outs := block_outs _ _ _ _ _ _) in *.
  set (L := concat outs.*1) in *. set (R := concat outs.*2) in *.
  assert (active dp' = active dp) as Hact
    by (unfold active; by rewrite Hui, Huc, Hnd).
  split_and!; try done.
  destruct Hinv as (_ & Hs & Htot & (Hrng & Hcover & Hdisj) & Hperm).
  unfold partition_invariant. rewrite Hact.
  set (total := lengthZ (active dp)) in *.
  assert (lengthZ (L ++ R) = cnt) as HLR by (rewrite length_app; lia).
  assert (lengthZ (indices_ dp') = lengthZ (indices_ dp)) as Lidx'
    by (rewrite Hidx; apply length_splice; lia).
  split_and!.
  - unfold wf. rewrite Hnd, Hnl, Hnt, Hlb, Hlc, !length_insert.
    split_and!; lia.
  - rewrite Hlc.
    rewrite (sumZ_insert _ _ 0)
      by (by rewrite list_lookup_insert_ne by lia).
    rewrite (sumZ_insert _ _ cnt) by done. lia.
  - lia.
  - assert (forall l b c, 0 <= l ->
              leaf_begin_ dp' !! Z.to_nat l = Some b ->
              leaf_count_ dp' !! Z.to_nat l = Some c ->
              (l = leaf /\ b = begin /\ c = lengthZ L) \/
              (l = right_leaf /\ b = begin + lengthZ L /\ c = cnt - lengthZ L) \/
              (l <> leaf /\ l <> right_leaf /\
               leaf_begin_ dp !! Z.to_nat l = Some b /\
               leaf_count_ dp !! Z.to_nat l = Some c)) as Hcases.
    { intros l b c Hl Hb Hc. rewrite Hlb in Hb. rewrite Hlc in Hc.
      destruct (decide (l = right_leaf)) as [->|Hnr].
      - right; left.
        rewrite list_lookup_insert_eq in Hb by lia.
        rewrite list_lookup_insert_eq in Hc by (rewrite length_insert; lia).
        split_and!; congruence.
      - rewrite list_lookup_insert_ne in Hb by lia.
        rewrite list_lookup_insert_ne in Hc by lia.
        destruct (decide (l = leaf)) as [->|Hnl'].
        + left. rewrite list_lookup_insert_eq in Hc by lia.
          split_and!; congruence.
        + right; right. rewrite list_lookup_insert_ne in Hc by lia. done. }
    assert (leaf_begin_ dp' !! Z.to_nat leaf = Some begin /\
            leaf_count_ dp' !! Z.to_nat leaf = Some (lengthZ L) /\
            leaf_begin_ dp' !! Z.to_nat right_leaf = Some (begin + lengthZ L) /\
            leaf_count_ dp' !! Z.to_nat right_leaf = Some (cnt - lengthZ L))
      as (Hb1 & Hc1 & Hb2 & Hc2).
    { rewrite Hlb, Hlc. split_and!.
      - by rewrite list_lookup_insert_ne by lia.
      - rewrite list_lookup_insert_ne by lia.
        by rewrite list_lookup_insert_eq by lia.
      - by rewrite list_lookup_insert_eq by lia.
      - by rewrite list_lookup_insert_eq by (rewrite length_insert; lia). }
    unfold tiles. split_and!.
    + intros l b c Hl Hb Hc.
      destruct (Hcases l b c Hl Hb Hc)
        as [(-> & -> & ->)|[(-> & -> & ->)|(_ & _ & Hb' & Hc')]];
        [lia | lia | by eapply Hrng].
    + intros p Hp. destruct (Hcover p Hp) as (l & b & c & Hl & Hb & Hc & Hin).
      destruct (decide (l = leaf)) as [->|Hnl'].
      * assert (b = begin) as -> by congruence.
        assert (c = cnt) as -> by congruence.
        destruct (decide (p < begin + lengthZ L)).
        -- exists leaf, begin, (lengthZ L). split_and!; try done; lia.
        -- exists right_leaf, (begin + lengthZ L), (cnt - lengthZ L).
           split_and!; try done; lia.
      * destruct (decide (l = right_leaf)) as [->|Hnr].
        { assert (c = 0) as -> by congruence. lia. }
        exists l, b, c. rewrite Hlb, Hlc.
        rewrite !list_lookup_insert_ne by lia. split_and!; try done; lia.
    + intros p l1 l2 (b1 & c1 & Hl1 & Hlb1 & Hlc1 & Hp1)
             (b2 & c2 & Hl2 & Hlb2 & Hlc2 & Hp2).
      assert (forall l b c, 0 <= l ->
                leaf_begin_ dp' !! Z.to_nat l = Some b ->
                leaf_count_ dp' !! Z.to_nat l = Some c ->
                b <= p < b + c ->
                in_leaf dp (if decide (l = right_leaf) then leaf else l) p)
        as Hold.
      { intros l b c Hl Hb Hc Hp.
        destruct (Hcases l b c Hl Hb Hc)
          as [(-> & -> & ->)|[(-> & -> & ->)|(Hn1 & Hn2 & Hb' & Hc')]].
        - rewrite decide_False by done.
          exists begin, cnt. split_and!; try done; lia.
        - rewrite decide_True by done.
          exists begin, cnt. split_and!; try done; lia.
        - rewrite decide_False by done.
          exists b, c. split_and!; try done; lia. }
      pose proof (Hdisj p _ _ (Hold l1 b1 c1 Hl1 Hlb1 Hlc1 Hp1)
                    (Hold l2 b2 c2 Hl2 Hlb2 Hlc2 Hp2)) as Heq.
      destruct (Hcases l1 b1 c1 Hl1 Hlb1 Hlc1)
        as [(-> & -> & ->)|[(-> & -> & ->)|(Hn1 & Hn2 & _)]];
        destruct (Hcases l2 b2 c2 Hl2 Hlb2 Hlc2)
          as [(-> & -> & ->)|[(-> & -> & ->)|(Hm1 & Hm2 & _)]];
        repeat case_decide; try done; try lia.
  - rewrite <- Hperm.
    replace total with (begin + (cnt + (total - begin - cnt))) by lia.
    rewrite !(slice_app _ 0) by lia. rewrite !(slice_app _ (0 + begin)) by lia.
    rewrite Z.add_0_l. rewrite Hidx.
    rewrite (slice_splice_disjoint _ _ _ 0) by lia.
    rewrite (slice_splice_disjoint _ _ _ (begin + cnt)) by lia.
    rewrite <- HLR at 1. rewrite slice_splice_same by lia.
    apply Permutation_app; [done|]. apply Permutation_app; [|done].
    by apply stable_partition_perm.
Qed.


Lemma stable_partition_all_left p : stable_partition p [] p.
Proof. induction p; by constructor. Qed.

Lemma even_left_stable : oracle_stable even_left.
Proof. intros ? ? ? ? p. apply (stable_partition_filter Z.even). Qed.

Lemma all_left_stable : oracle_stable all_left.
Proof. intros ? ? ? ? p. apply stable_partition_all_left. Qed.


(** *** The properties on concrete stores *)

Ltac concrete :=
  vm_compute; split_and?;
  first [reflexivity | discriminate | (intros ?; discriminate) | exact I].

Lemma even_left_counts : oracle_counts even_left.
Proof. apply oracle_stable_counts, even_left_stable. Qed.

(** No block at all for an empty range with 4 threads, and the fault of
    [Split] on the empty leaf 1 of [store8_all_left]. *)
Lemma For_empty_range_and_Split_witness :
  (BlockInfo 32 4 0 1024 = (0, 0) /\
   For 32 4 7 7 1024 (fun _ _ _ (s : list Z) => Fault Indices 0 0 []) []
   = Ok (0, []) []) /\
  Split 32 even_left 0 [] 0 true 4 1 2 store8_all_left
  = Fault LeftWritePos (-1) 1
          [Rd LeafBegin 1 1; Rd LeafCount 1 1;
           Wr LeftWritePos 0 1; Wr RightWritePos 0 1].
Proof.
  destruct (For_empty_range_and_Split 32 4 ltac:(lia)) as [HF HS]. split.
  - apply (HF (list Z)). unfold INT_MAX. lia.
  - apply (HS even_left 0 [] 0 true 1 2 store8_all_left 8). concrete.
Defined.

(** The 8 ids of [store8], the even ones to the left: 4 and 4. *)
Lemma Split_bookkeeping_witness :
  exists dp' tr,
    Split 32 even_left 0 [] 0 true 4 0 1 store8 = Ok dp' tr /\
    leaf_count_ dp' !! 0%nat = Some 4 /\
    leaf_begin_ dp' !! 1%nat = Some (0 + 4) /\
    leaf_count_ dp' !! 1%nat = Some (8 - 4) /\
    leaf_begin_ dp' !! 0%nat = Some 0.
Proof.
  apply (Split_bookkeeping 32 even_left 0 [] 0 true 4 0 1 store8 0 8 1 8);
    [lia | exact even_left_counts | concrete | lia | reflexivity].
Defined.

(** The second call on [store5]: leaf 2 takes the odd ids of leaf 0;
    nothing else moves. *)
Lemma Split_frame_witness :
  exists dp' tr,
    Split 32 even_left 0 [] 0 true 4 0 2 store5 = Ok dp' tr /\
    length (indices_ dp') = length (indices_ store5) /\
    (forall p, 0 <= p -> ~ (0 <= p < 0 + 5) ->
               indices_ dp' !! Z.to_nat p = indices_ store5 !! Z.to_nat p) /\
    (forall other, 0 <= other -> other <> 0 -> other <> 2 ->
       leaf_begin_ dp' !! Z.to_nat other = leaf_begin_ store5 !! Z.to_nat other /\
       leaf_count_ dp' !! Z.to_nat other = leaf_count_ store5 !! Z.to_nat other) /\
    num_data_ dp' = num_data_ store5 /\
    num_leaves_ dp' = num_leaves_ store5 /\
    used_data_indices_ dp' = used_data_indices_ store5 /\
    used_data_count_ dp' = used_data_count_ store5.
Proof.
  apply (Split_frame 32 even_left 0 [] 0 true 4 0 2 store5 0 5);
    [lia | exact even_left_counts | concrete | lia].
Defined.


(** [Init] with the bagging subset [5; 2; 9; 1; 7] of 10 examples. *)
Lemma Init_postcondition_witness :
  exists dp' tr,
    Init bagged5 = Ok dp' tr /\
    (used_data_indices_ bagged5 = None ->
     leaf_count_ dp' !! 0%nat = Some (num_data_ bagged5) /\
     indices_ dp' = seqZ 0 (num_data_ bagged5)) /\
    (forall used, used_data_indices_ bagged5 = Some used ->
       let S := slice used 0 (used_data_count_ bagged5) in
       lengthZ S = used_data_count_ bagged5 /\
       leaf_count_ dp' !! 0%nat = Some (lengthZ S) /\
       slice (indices_ dp') 0 (lengthZ S) = S) /\
    leaf_begin_ dp' !! 0%nat = Some 0 /\
    leaf_range dp' 0 = [5; 2; 9; 1; 7] /\
    (forall leaf, 1 <= leaf < 4 ->
       leaf_count_ dp' !! Z.to_nat leaf = Some 0 /\
       leaf_begin_ dp' !! Z.to_nat leaf = Some 0) /\
    (forall leaf id, id ∈ leaf_range dp' leaf -> id ∈ [5; 2; 9; 1; 7]) /\
    sumZ (leaf_count_ dp') = 5.
Proof. apply (Init_postcondition bagged5); concrete. Defined.


(** *** More threads at the call than at construction *)


(** [Split] of the 2048 ids of leaf 0 of [store2048] with two threads:
    [BlockInfo] lays out two blocks of 1024, and the second block writes
    [offsets_buf_[1]] (line 137), past the end of a vector of size 1. *)
Lemma Split_store2048_two_threads :
  Split 32 even_left 0 [] 0 true 2 0 1 store2048
  = Fault OffsetsBuf 1 1
          [Rd LeafBegin 0 1; Rd LeafCount 0 1;
           Rd Indices 0 1024; Wr TempLeft 0 512; Wr TempRight 0 512;
           Wr OffsetsBuf 0 1; Wr LeftCnts 0 1; Wr RightCnts 0 1;
           Rd Indices 1024 1024; Wr TempLeft 1024 512; Wr TempRight 1024 512].
Proof. vm_compute. reflexivity. Qed.



(** The same call: leaf 0 has the range [0, 0 + 2048), the left counts
    of the two blocks are 512 and 512, and the call does not return with
    leaf_count[0] = 1024; it stops at the write of [offsets_buf_[1]],
    before the bookkeeping of lines 161-163. *)
Lemma Split_more_threads_no_bookkeeping :
  num_threads_ store2048 = 1 /\
  leaf_begin_ store2048 !! 0%nat = Some 0 /\
  leaf_count_ store2048 !! 0%nat = Some 2048 /\
  0 < 2048 /\
  BlockInfo 32 2 2048 1024 = (2, 1024) /\
  sumZ ((fun out => lengthZ out.1)
          <$> block_outs (even_left 0 [] 0 true) (indices_ store2048)
                         0 2048 2 1024) = 1024 /\
  (exists tr,
      Split 32 even_left 0 [] 0 true 2 0 1 store2048
      = Fault OffsetsBuf 1 1 tr) /\
  ~ (exists dp' tr,
       Split 32 even_left 0 [] 0 true 2 0 1 store2048 = Ok dp' tr /\
       leaf_count_ dp' !! 0%nat = Some 1024).
Proof.
  split_and!.
  - reflexivity.
  - reflexivity.
  - reflexivity.
  - lia.
  - vm_compute. reflexivity.
  - vm_compute. reflexivity.
  - eexists. exact Split_store2048_two_threads.
  - intros (dp' & tr & HS & _).
    rewrite Split_store2048_two_threads in HS. discriminate HS.
Qed.

(** The same call: valid, different leaves 0 and 1, the range [0, 2048)
    of leaf 0, and a write of the element 1 of [offsets_buf_], which has
    one element: a write outside everything the call may change. *)
Lemma Split_more_threads_writes_outside :
  num_leaves_ store2048 = 2 /\
  leaf_begin_ store2048 !! 0%nat = Some 0 /\
  leaf_count_ store2048 !! 0%nat = Some 2048 /\
  lengthZ (offsets_buf_ store2048) = 1 /\
  in_bounds (offsets_buf_ store2048) 1 1 = false /\
  Split 32 even_left 0 [] 0 true 2 0 1 store2048
  = Fault OffsetsBuf 1 1
          [Rd LeafBegin 0 1; Rd LeafCount 0 1;
           Rd Indices 0 1024; Wr TempLeft 0 512; Wr TempRight 0 512;
           Wr OffsetsBuf 0 1; Wr LeftCnts 0 1; Wr RightCnts 0 1;
           Rd Indices 1024 1024; Wr TempLeft 1024 512; Wr TempRight 1024 512] /\
  ~ (exists dp' tr,
       Split 32 even_left 0 [] 0 true 2 0 1 store2048 = Ok dp' tr).
Proof.
  split_and!.
  - reflexivity.
  - reflexivity.
  - reflexivity.
  - reflexivity.
  - reflexivity.
  - exact Split_store2048_two_threads.
  - intros (dp' & tr & HS).
    rewrite Split_store2048_two_threads in HS. discriminate HS.
Qed.

(** *** Write before read on the scratch vectors *)

Lemma Ok_trace {A : Type} (m : outcome A) (a : A) (tr : list event) :
  m = Ok a tr -> m = Ok a (trace m).
Proof. by intros ->. Qed.

Lemma elem_of_concat {A : Type} (x : A) (ls : list (list A)) :
  x ∈ concat ls <-> exists l, l ∈ ls /\ x ∈ l.
Proof.
  induction ls as [|l ls IH]; cbn [concat].
  - split; [by intros ?%elem_of_nil | by intros (? & ?%elem_of_nil & _)].
  - rewrite elem_of_app, IH. split.
    + intros [H|(l' & H1 & H2)].
      * exists l. split; [apply list_elem_of_here | done].
      * exists l'. split; [by apply list_elem_of_further | done].
    + intros (l' & [->|H1]%elem_of_cons & H2); [by left|].
      right. by exists l'.
Qed.

Lemma covered_elem b off len seen :
  Wr b off len ∈ seen -> covered b off len seen = true.
Proof.
  intros Hin. unfold covered. apply existsb_exists.
  exists (Wr b off len). split; [by apply list_elem_of_In|].
  rewrite bool_decide_eq_true_2 by done. cbn [andb].
  apply andb_true_iff. split; apply Z.leb_le; lia.
Qed.

Lemma covered_mono b off len seen seen' :
  (forall e, e ∈ seen -> e ∈ seen') ->
  covered b off len seen = true -> covered b off len seen' = true.
Proof.
  intros Hsub. unfold covered. rewrite !existsb_exists.
  intros (e & Hin & He). exists e. split; [|done].
  by apply list_elem_of_In, Hsub, list_elem_of_In.
Qed.

Lemma write_before_read_mono P seen seen' tr :
  (forall e, e ∈ seen -> e ∈ seen') ->
  write_before_read P seen tr = true -> write_before_read P seen' tr = true.
Proof.
  revert seen seen'. induction tr as [|e tr IH]; intros seen seen' Hsub; [done|].
  cbn [write_before_read]. rewrite !andb_true_iff. intros [H1 H2]. split.
  - destruct e as [b off len|]; [|done]. destruct (P b); [|done].
    by eapply covered_mono.
  - eapply IH; [|exact H2]. intros e'. rewrite !elem_of_cons. intros [->|?]; auto.
Qed.

Lemma write_before_read_app P seen t1 t2 :
  write_before_read P seen t1 = true ->
  write_before_read P (t1 ++ seen) t2 = true ->
  write_before_read P seen (t1 ++ t2) = true.
Proof.
  revert seen. induction t1 as [|e t1 IH]; intros seen H1 H2; [done|].
  cbn [app write_before_read] in *. apply andb_true_iff in H1 as [Ha Hb].
  apply andb_true_iff. split; [done|]. apply IH; [done|].
  eapply write_before_read_mono; [|exact H2].
  intros e'. rewrite elem_of_cons, !elem_of_app, elem_of_cons. tauto.
Qed.

Lemma write_before_read_concat P seen ts :
  (forall t, t ∈ ts -> write_before_read P seen t = true) ->
  write_before_read P seen (concat ts) = true.
Proof.
  revert seen. induction ts as [|t ts IH]; intros seen H; [done|].
  cbn [concat]. apply write_before_read_app.
  - apply H, list_elem_of_here.
  - apply IH. intros t' Ht'.
    eapply write_before_read_mono; [|apply H; by apply list_elem_of_further].
    intros e He. apply elem_of_app. by right.
Qed.

Lemma write_before_read_Wr P seen b off len tr :
  write_before_read P (Wr b off len :: seen) tr = true ->
  write_before_read P seen (Wr b off len :: tr) = true.
Proof. intros H. cbn [write_before_read]. by rewrite H. Qed.

Lemma write_before_read_Rd P seen b off len tr :
  (P b = true -> Wr b off len ∈ seen) ->
  write_before_read P (Rd b off len :: seen) tr = true ->
  write_before_read P seen (Rd b off len :: tr) = true.
Proof.
  intros Hc H. cbn [write_before_read]. rewrite H.
  destruct (P b); [|done]. rewrite covered_elem by auto. done.
Qed.

Lemma elem_of_blocks start end_ nb bs blk :
  blk ∈ blocks start end_ nb bs ->
  exists i, 0 <= i < nb /\ blk = block start end_ bs i.
Proof.
  unfold blocks. intros (i & -> & Hi)%list_elem_of_fmap.
  apply elem_of_seqZ in Hi. exists i. split; [lia | done].
Qed.

Lemma block_elem_of start end_ nb bs i :
  0 <= i < nb -> block start end_ bs i ∈ blocks start end_ nb bs.
Proof. intros Hi. eapply list_elem_of_lookup_2. by apply blocks_lookup. Qed.

(** The writes of a block's scatter step are writes of the first loop. *)
Lemma scatter_trace_elem oracle idx begin cnt nb bs i e :
  0 <= i < nb ->
  e ∈ scatter_trace begin (block 0 cnt bs i)
        (block_out oracle idx begin (block 0 cnt bs i)) ->
  e ∈ scatter_traces oracle idx begin (blocks 0 cnt nb bs).
Proof.
  intros Hi He. unfold scatter_traces. apply elem_of_concat.
  eexists. split; [|exact He].
  apply (list_elem_of_fmap_2
           (fun blk => scatter_trace begin blk (block_out oracle idx begin blk))).
  by apply block_elem_of.
Qed.

Lemma scatter_counts_written oracle idx begin cnt nb bs i :
  0 <= i < nb ->
  Wr LeftCnts i 1 ∈ scatter_traces oracle idx begin (blocks 0 cnt nb bs) /\
  Wr RightCnts i 1 ∈ scatter_traces oracle idx begin (blocks 0 cnt nb bs).
Proof.
  intros Hi.
  split; apply (scatter_trace_elem oracle idx begin cnt nb bs i); try done;
    unfold scatter_trace, block; destruct (_ <=? 0);
    repeat first [apply list_elem_of_here | apply list_elem_of_further].
Qed.

(** The first loop reads no scratch vector. *)
Lemma scatter_traces_no_scratch_read P seen oracle idx begin bl :
  P Indices = false ->
  write_before_read P seen (scatter_traces oracle idx begin bl) = true.
Proof.
  intros HP. unfold scatter_traces. apply write_before_read_concat.
  intros t (blk & -> & _)%list_elem_of_fmap.
  destruct blk as [[i lo] hi]. unfold scatter_trace.
  destruct (_ <=? 0); cbn [write_before_read]; by rewrite ?HP.
Qed.

(** The write positions that the second loop of [Split] computes. *)
Lemma prefix_traces_written (n : nat) s j :
  s <= j < s + Z.of_nat n ->
  Wr LeftWritePos j 1 ∈ concat (prefix_trace <$> seqZ s (Z.of_nat n)) /\
  Wr RightWritePos j 1 ∈ concat (prefix_trace <$> seqZ s (Z.of_nat n)).
Proof.
  intros Hj. split; apply elem_of_concat; exists (prefix_trace j);
    (split; [apply list_elem_of_fmap_2, elem_of_seqZ; lia|]);
    unfold prefix_trace;
    repeat first [apply list_elem_of_here | apply list_elem_of_further].
Qed.

Lemma prefix_traces_write_before_read P seen (n : nat) s :
  Wr LeftWritePos (s - 1) 1 ∈ seen -> Wr RightWritePos (s - 1) 1 ∈ seen ->
  (forall j, s - 1 <= j < s - 1 + Z.of_nat n ->
             Wr LeftCnts j 1 ∈ seen /\ Wr RightCnts j 1 ∈ seen) ->
  write_before_read P seen (concat (prefix_trace <$> seqZ s (Z.of_nat n))) = true.
Proof.
  revert s seen. induction n as [|n IH]; intros s seen HL HR Hc; [done|].
  rewrite seqZ_cons by lia.
  replace (Z.pred (Z.of_nat (S n))) with (Z.of_nat n) by lia.
  cbn [fmap list_fmap concat]. apply write_before_read_app.
  - destruct (Hc (s - 1) ltac:(lia)) as [HcL HcR]. unfold prefix_trace.
    repeat first
      [ apply write_before_read_Wr
      | apply write_before_read_Rd;
        [intros _;
         by repeat first [apply list_elem_of_here | apply list_elem_of_further]|]
      | reflexivity ].
  - apply IH.
    + replace (Z.succ s - 1) with s by lia. apply elem_of_app. left.
      unfold prefix_trace.
      repeat first [apply list_elem_of_here | apply list_elem_of_further].
    + replace (Z.succ s - 1) with s by lia. apply elem_of_app. left.
      unfold prefix_trace.
      repeat first [apply list_elem_of_here | apply list_elem_of_further].
    + intros j Hj. destruct (Hc j ltac:(lia)) as [HcL HcR].
      split; apply elem_of_app; by right.
Qed.

Ltac elem_of_list :=
  repeat first [apply list_elem_of_here | apply list_elem_of_further].

(** The merge step of one block reads, of the scratch vectors other than
    the block offsets, only what has been written. *)
Lemma gather_trace_write_before_read seen oracle idx begin cnt nb bs ls rs i :
  0 <= i < nb ->
  Wr LeftCnts i 1 ∈ seen -> Wr RightCnts i 1 ∈ seen ->
  Wr LeftWritePos i 1 ∈ seen -> Wr RightWritePos i 1 ∈ seen ->
  (forall e, e ∈ scatter_trace begin (block 0 cnt bs i)
                   (block_out oracle idx begin (block 0 cnt bs i)) ->
             e ∈ seen) ->
  write_before_read is_scratch_except_offsets seen
    (gather_trace ls rs (block_outs oracle idx begin cnt nb bs)
                  (block 0 cnt bs i)) = true.
Proof.
  intros Hi HLC HRC HLW HRW Hsc.
  unfold gather_trace. unfold block at 1.
  unfold block_outs. rewrite list_lookup_fmap, blocks_lookup by done.
  cbn [fmap option_fmap option_map from_option]. unfold id.
  revert Hsc. unfold block_out, scatter_trace, block.
  destruct (Z.min cnt (0 + (i + 1) * bs) - (0 + i * bs) <=? 0) eqn:E.
  - intros _. cbn [fst snd length]. change (Z.of_nat 0 <=? 0) with true.
    cbn [app].
    repeat first
      [ apply write_before_read_Rd; [intros _; by elem_of_list|]
      | apply write_before_read_Rd; [by intros [=]|]
      | reflexivity ].
  - destruct (oracle _) as [l r]. cbn [fst snd]. intros Hsc.
    assert (Wr TempLeft (0 + i * bs) (lengthZ l) ∈ seen) as HTL
      by (apply Hsc; elem_of_list).
    assert (Wr TempRight (0 + i * bs) (lengthZ r) ∈ seen) as HTR
      by (apply Hsc; elem_of_list).
    destruct (lengthZ l <=? 0), (lengthZ r <=? 0); cbn [app];
    repeat first
      [ apply write_before_read_Wr
      | apply write_before_read_Rd; [intros _; by elem_of_list|]
      | apply write_before_read_Rd; [by intros [=]|]
      | reflexivity ].
Qed.

(** What the merge step of a block reads of [temp_left_indices_] and
    [temp_right_indices_], the block itself has written in the first
    loop; a block without positions reads nothing of them. *)
Lemma gather_temp_reads_written oracle idx begin cnt nb bs ls rs i b off len :
  0 <= i < nb -> is_temp b = true ->
  Rd b off len ∈ gather_trace ls rs (block_outs oracle idx begin cnt nb bs)
                   (block 0 cnt bs i) ->
  Wr b off len ∈ scatter_trace begin (block 0 cnt bs i)
                   (block_out oracle idx begin (block 0 cnt bs i)) /\
  0 < (block 0 cnt bs i).2 - (block 0 cnt bs i).1.2.
Proof.
  intros Hi Hb.
  unfold gather_trace. unfold block at 1.
  unfold block_outs. rewrite list_lookup_fmap, blocks_lookup by done.
  cbn [fmap option_fmap option_map from_option]. unfold id.
  unfold block_out, scatter_trace, block. cbn [fst snd].
  destruct (Z.min cnt (0 + (i + 1) * bs) - (0 + i * bs) <=? 0) eqn:E.
  - cbn [fst snd length]. change (Z.of_nat 0 <=? 0) with true. cbn [app].
    rewrite !elem_of_cons, elem_of_nil.
    intros [H|[H|[H|[H|[H|[H|[]]]]]]]; injection H as -> _ _; discriminate Hb.
  - apply Z.leb_gt in E. destruct (oracle _) as [l r]. cbn [fst snd].
    intros H. split; [|lia]. revert H.
    destruct (lengthZ l <=? 0), (lengthZ r <=? 0); cbn [app];
      intros H; rewrite !elem_of_cons, elem_of_nil in H;
      repeat (destruct H as [H|H];
              [first [ discriminate H
                     | injection H as -> _ _; discriminate Hb
                     | injection H as -> -> ->; by elem_of_list ]|]);
      destruct H.
Qed.

(** C7. Write before read on the scratch vectors: in every call of
    [Split], whatever the merge step of a block reads of
    [temp_left_indices_] and [temp_right_indices_] that block has written
    earlier in the same call, in the first loop; and every read of
    [temp_left_indices_], [temp_right_indices_], the count buffers and the
    write-position buffers is covered by a write made earlier in the same
    call. The offset of a block is read in the merge step of every block,
    also of one without positions, which has not written it. *)
Theorem Split_write_before_read
        (kAlignedSize : Z) (dataset : Dataset) (feature : Z)
        (threshold : list Z) (num_threshold : Z) (default_left : bool)
        (T leaf right_leaf : Z) (dp : DataPartition) (begin cnt nb bs : Z) :
  1 <= kAlignedSize ->
  oracle_counts dataset ->
  Split_pre kAlignedSize T leaf right_leaf dp begin cnt ->
  BlockInfo kAlignedSize T cnt 1024 = (nb, bs) ->
  let oracle := dataset feature threshold num_threshold default_left in
  let outs := block_outs oracle (indices_ dp) begin cnt nb bs in
  let right_start := begin + lengthZ (concat outs.*1) in
  let tr := trace (Split kAlignedSize dataset feature threshold num_threshold
                         default_left T leaf right_leaf dp) in
  write_before_read is_scratch_except_offsets [] tr = true /\
  (0 < cnt ->
   tr = Split_trace oracle (indices_ dp) leaf right_leaf begin cnt nb bs /\
   forall blk, blk ∈ blocks 0 cnt nb bs ->
     Rd OffsetsBuf blk.1.1 1 ∈ gather_trace begin right_start outs blk /\
     forall b off len,
       is_temp b = true ->
       Rd b off len ∈ gather_trace begin right_start outs blk ->
       0 < blk.2 - blk.1.2 /\
       Wr b off len
       ∈ scatter_trace begin blk (block_out oracle (indices_ dp) begin blk)).
Proof.
  intros HA Hcounts Hpre HB oracle outs right_start tr.
  destruct (decide (cnt = 0)) as [->|Hne].
  { split; [|lia]. subst tr.
    assert (Split kAlignedSize dataset feature threshold num_threshold
                  default_left T leaf right_leaf dp
            = Fault LeftWritePos (-1) 1
                    [Rd LeafBegin leaf 1; Rd LeafCount leaf 1;
                     Wr LeftWritePos 0 1; Wr RightWritePos 0 1]) as ->
        by (by eapply Split_empty).
    reflexivity. }
  assert (0 < cnt) as Hcnt by (destruct Hpre as (_&_&_&_&_&_&_&_&?&_); lia).
  destruct (ok_with_Ok _ _ (Split_spec dataset feature threshold num_threshold
                              default_left Hcounts kAlignedSize HA T leaf
                              right_leaf dp begin cnt nb bs Hpre Hcnt HB))
    as (dp' & t & HS & Ht & _).
  subst tr. rewrite HS. cbn [trace]. fold oracle in Ht. subst t.
  destruct Hpre as (Hwf & HT & Hleaf & Hright & Hne' & Hbegin & Hcount & Hb0
                    & _ & Hbc & Hfit1 & Hfit2).
  pose proof (BlockInfo_spec kAlignedSize HA T cnt 1024 nb bs
                ltac:(lia) ltac:(lia) ltac:(lia) ltac:(lia)
                ltac:(unfold INT_MAX in *; nia) ltac:(unfold INT_MAX in *; nia)
                HB) as (_ & _ & _ & _ & Hnb & _ & Hnb1 & _).
  specialize (Hnb1 Hcnt) as [Hnb1 _].
  split; [|intros _; split; [done|]].
  - unfold Split_trace. cbv zeta.
    fold outs. fold right_start.
    set (S := scatter_traces oracle (indices_ dp) begin (blocks 0 cnt nb bs)).
    set (PF := concat (prefix_trace <$> seqZ 1 (nb - 1))).
    assert (forall j, 0 <= j < nb ->
              Wr LeftCnts j 1 ∈ S /\ Wr RightCnts j 1 ∈ S) as HC
      by (intros j Hj; by apply scatter_counts_written).
    assert (forall j, 0 <= j < nb ->
              Wr LeftWritePos j 1 ∈ PF ++ [Wr LeftWritePos 0 1; Wr RightWritePos 0 1] /\
              Wr RightWritePos j 1 ∈ PF ++ [Wr LeftWritePos 0 1; Wr RightWritePos 0 1])
      as HW.
    { intros j Hj. destruct (decide (j = 0)) as [->|Hj0].
      - split; apply elem_of_app; right; elem_of_list.
      - destruct (prefix_traces_written (Z.to_nat (nb - 1)) 1 j ltac:(lia))
          as [H1 H2].
        rewrite Z2Nat.id in H1, H2 by lia.
        split; apply elem_of_app; by left. }
    apply write_before_read_app; [reflexivity|].
    apply write_before_read_app;
      [by apply scatter_traces_no_scratch_read|].
    apply write_before_read_app; [reflexivity|].
    apply write_before_read_app.
    { subst PF. rewrite <- (Z2Nat.id (nb - 1)) by lia.
      apply prefix_traces_write_before_read.
      - apply elem_of_app. left. elem_of_list.
      - apply elem_of_app. left. elem_of_list.
      - intros j Hj. destruct (HC j ltac:(lia)) as [H1 H2].
        rewrite !elem_of_app. tauto. }
    apply write_before_read_app.
    { destruct (HW (nb - 1) ltac:(lia)) as [H1 _].
      destruct (HC (nb - 1) ltac:(lia)) as [H2 _].
      rewrite elem_of_app in H1.
      apply write_before_read_Rd; [intros _; rewrite !elem_of_app; tauto|].
      apply write_before_read_Rd;
        [intros _; rewrite elem_of_cons, !elem_of_app; tauto|].
      reflexivity. }
    apply write_before_read_app; [|reflexivity].
    apply write_before_read_concat.
    intros t (blk & -> & Hblk)%list_elem_of_fmap.
    apply elem_of_blocks in Hblk as (i & Hi & ->).
    destruct (HW i Hi) as [H1 H2]. destruct (HC i Hi) as [H3 H4].
    rewrite elem_of_app in H1, H2.
    apply gather_trace_write_before_read; try done;
      try (rewrite !elem_of_app; tauto).
    intros e He. apply (scatter_trace_elem _ _ _ _ nb) in He; [|done].
    fold S in He. rewrite !elem_of_app. tauto.
  - intros blk (i & Hi & ->)%elem_of_blocks. split.
    + unfold gather_trace, block. cbn [fst snd app]. apply list_elem_of_here.
    + intros b off len Hb Hrd.
      destruct (gather_temp_reads_written oracle (indices_ dp) begin cnt nb bs
                  begin right_start i b off len Hi Hb Hrd) as [H1 H2].
      done.
Qed.

(** The reads that [write_before_read] accepts are covered by a write of
    the trace or of [seen]. *)
Lemma write_before_read_covered P seen tr b off len :
  write_before_read P seen tr = true -> Rd b off len ∈ tr -> P b = true ->
  covered b off len (tr ++ seen) = true.
Proof.
  revert seen. induction tr as [|e tr IH]; intros seen Hw Hin HP;
    [by apply elem_of_nil in Hin|].
  cbn [write_before_read] in Hw. apply andb_true_iff in Hw as [He Hw].
  apply elem_of_cons in Hin as [<-|Hin].
  - rewrite HP in He. eapply covered_mono; [|exact He].
    intros e' He'. apply elem_of_app. by right.
  - eapply covered_mono; [|exact (IH _ Hw Hin HP)].
    intros e'. rewrite !elem_of_app, !elem_of_cons. tauto.
Qed.

Lemma covered_written b off len seen :
  covered b off len seen = true ->
  exists off' len',
    Wr b off' len' ∈ seen /\ off' <= off /\ off + len <= off' + len'.
Proof.
  unfold covered. intros (e & Hin & He)%existsb_exists.
  destruct e as [|b' off' len']; [done|].
  apply andb_true_iff in He as [He H2]. apply andb_true_iff in He as [H0 H1].
  apply bool_decide_eq_true_1 in H0 as ->.
  exists off', len'. split_and!; [by apply list_elem_of_In | lia | lia].
Qed.

(** The merge step of a block is part of the call. *)
Lemma gather_trace_elem oracle idx leaf right_leaf begin cnt nb bs i e :
  0 <= i < nb ->
  e ∈ gather_trace begin
        (begin + lengthZ (concat (block_outs oracle idx begin cnt nb bs).*1))
        (block_outs oracle idx begin cnt nb bs) (block 0 cnt bs i) ->
  e ∈ Split_trace oracle idx leaf right_leaf begin cnt nb bs.
Proof.
  intros Hi He. unfold Split_trace. cbv zeta. rewrite !elem_of_app.
  do 5 right. left. apply elem_of_concat. eexists. split; [|exact He].
  apply (list_elem_of_fmap_2 (gather_trace _ _ _)). by apply block_elem_of.
Qed.

Ltac no_such_event H :=
  repeat (apply elem_of_cons in H as [H|H]; [discriminate H|]);
  by apply elem_of_nil in H.

(** The block offsets that a call of [Split] writes: one for each block
    that has positions. *)
Lemma Split_trace_offsets_written oracle idx leaf right_leaf begin cnt nb bs
      off len :
  Wr OffsetsBuf off len ∈ Split_trace oracle idx leaf right_leaf begin cnt nb bs ->
  0 <= off < nb /\ len = 1 /\
  0 < (block 0 cnt bs off).2 - (block 0 cnt bs off).1.2.
Proof.
  unfold Split_trace. cbv zeta. rewrite !elem_of_app.
  intros [H|[H|[H|[H|[H|[H|H]]]]]].
  - no_such_event H.
  - unfold scatter_traces in H.
    apply elem_of_concat in H as (t & Ht & H).
    apply list_elem_of_fmap in Ht as (blk & -> & Hblk).
    apply elem_of_blocks in Hblk as (i & Hi & ->).
    unfold scatter_trace, block in H. unfold block. cbn [fst snd].
    destruct (Z.min cnt (0 + (i + 1) * bs) - (0 + i * bs) <=? 0) eqn:E.
    + no_such_event H.
    + apply Z.leb_gt in E.
      repeat (apply elem_of_cons in H as [H|H];
              [first [discriminate H | injection H as -> ->; lia]|]).
      by apply elem_of_nil in H.
  - no_such_event H.
  - apply elem_of_concat in H as (t & Ht & H).
    apply list_elem_of_fmap in Ht as (j & -> & _).
    unfold prefix_trace in H. no_such_event H.
  - no_such_event H.
  - apply elem_of_concat in H as (t & Ht & H).
    apply list_elem_of_fmap in Ht as (blk & -> & _).
    destruct blk as [[i lo] hi]. unfold gather_trace in H.
    rewrite !elem_of_app in H.
    destruct H as [H|[H|[H|H]]].
    + no_such_event H.
    + destruct (_ <=? 0) in H; no_such_event H.
    + no_such_event H.
    + destruct (_ <=? 0) in H; no_such_event H.
  - no_such_event H.
Qed.

(** A block without positions does not write its offset, and the merge
    step reads it all the same: whenever [Split] lays out such a block,
    the call reads an entry of [offsets_buf_] that it has not written. *)
Lemma Split_empty_block_offset_read
      (kAlignedSize : Z) (dataset : Dataset) (feature : Z)
      (threshold : list Z) (num_threshold : Z) (default_left : bool)
      (T leaf right_leaf : Z) (dp : DataPartition) (begin cnt nb bs i : Z) :
  1 <= kAlignedSize ->
  oracle_counts dataset ->
  Split_pre kAlignedSize T leaf right_leaf dp begin cnt ->
  0 < cnt ->
  BlockInfo kAlignedSize T cnt 1024 = (nb, bs) ->
  0 <= i < nb ->
  (block 0 cnt bs i).2 - (block 0 cnt bs i).1.2 <= 0 ->
  let tr := trace (Split kAlignedSize dataset feature threshold num_threshold
                         default_left T leaf right_leaf dp) in
  (exists dp', Split kAlignedSize dataset feature threshold num_threshold
                     default_left T leaf right_leaf dp = Ok dp' tr) /\
  Rd OffsetsBuf i 1 ∈ tr /\
  covered OffsetsBuf i 1 tr = false /\
  write_before_read is_scratch [] tr = false.
Proof.
  intros HA Hcounts Hpre Hcnt HB Hi Hempty tr.
  destruct (ok_with_Ok _ _ (Split_spec dataset feature threshold num_threshold
                              default_left Hcounts kAlignedSize HA T leaf
                              right_leaf dp begin cnt nb bs Hpre Hcnt HB))
    as (dp' & t & HS & Ht & _).
  subst tr. rewrite HS. cbn [trace]. subst t.
  set (oracle := dataset feature threshold num_threshold default_left).
  set (tr := Split_trace oracle (indices_ dp) leaf right_leaf begin cnt nb bs).
  assert (Rd OffsetsBuf i 1 ∈ tr) as Hrd.
  { apply (gather_trace_elem _ _ _ _ _ _ _ _ i); [done|].
    unfold gather_trace, block. cbn [app]. apply list_elem_of_here. }
  assert (covered OffsetsBuf i 1 tr = false) as Hcov.
  { destruct (covered OffsetsBuf i 1 tr) eqn:E; [|done]. exfalso.
    apply covered_written in E as (off' & len' & Hwr & H1 & H2).
    apply Split_trace_offsets_written in Hwr as (_ & -> & Hne).
    assert (off' = i) as -> by lia. lia. }
  split_and!; [by exists dp' | done | done |].
  destruct (write_before_read is_scratch [] tr) eqn:E; [|done].
  pose proof (write_before_read_covered _ _ _ _ _ _ E Hrd eq_refl) as Hc.
  rewrite app_nil_r in Hc. congruence.
Qed.

(** The call of [Split] on the 34817 ids of [store34817] with 34
    threads. *)
Lemma Split_write_before_read_witness :
  let oracle := even_left 0 [] 0 true in
  let outs := block_outs oracle (indices_ store34817) 0 34817 34 1056 in
  let right_start := 0 + lengthZ (concat outs.*1) in
  let tr := trace (Split 32 even_left 0 [] 0 true 34 0 1 store34817) in
  write_before_read is_scratch_except_offsets [] tr = true /\
  (0 < 34817 ->
   tr = Split_trace oracle (indices_ store34817) 0 1 0 34817 34 1056 /\
   forall blk, blk ∈ blocks 0 34817 34 1056 ->
     Rd OffsetsBuf blk.1.1 1 ∈ gather_trace 0 right_start outs blk /\
     forall b off len,
       is_temp b = true ->
       Rd b off len ∈ gather_trace 0 right_start outs blk ->
       0 < blk.2 - blk.1.2 /\
       Wr b off len
       ∈ scatter_trace 0 blk (block_out oracle (indices_ store34817) 0 blk)).
Proof.
  apply (Split_write_before_read 32 even_left 0 [] 0 true 34 0 1 store34817
           0 34817 34 1056);
    [lia | exact even_left_counts | concrete | vm_compute; reflexivity].
Defined.

(** With 34 threads the 34 blocks of the 34817 positions of leaf 0 of
    [store34817] have 1056 positions each, and block 33, [34848, 34817),
    has none: it writes no offset. The merge step reads
    [offsets_buf_[33]] all the same, and no write of the call covers that
    entry: what is read is what was there before the call. *)
Lemma Split_reads_stale_offset :
  oracle_counts even_left /\
  Split_pre 32 34 0 1 store34817 0 34817 /\
  BlockInfo 32 34 34817 1024 = (34, 1056) /\
  block 0 34817 1056 33 = (33, 34848, 34817) /\
  let tr := trace (Split 32 even_left 0 [] 0 true 34 0 1 store34817) in
  (exists dp', Split 32 even_left 0 [] 0 true 34 0 1 store34817 = Ok dp' tr) /\
  Rd OffsetsBuf 33 1 ∈ tr /\
  covered OffsetsBuf 33 1 tr = false /\
  write_before_read is_scratch [] tr = false.
Proof.
  split_and!;
    [ exact even_left_counts | concrete | vm_compute; reflexivity
    | vm_compute; reflexivity |].
  apply (Split_empty_block_offset_read 32 even_left 0 [] 0 true 34 0 1
           store34817 0 34817 34 1056 33);
    [ lia | exact even_left_counts | concrete | lia | vm_compute; reflexivity
    | lia | vm_compute; discriminate ].
Qed.

(** ** Part IV: further properties of the code *)

(** *** Block scheduler: one block, reversed ranges *)

Lemma bind_ret_pair {S : Type} (m : outcome S) (n : Z) :
  (s' <- (s'' <- m ;; ret s'') ;; ret (n, s')) = (s' <- m ;; ret (n, s')).
Proof.
  destruct m as [a tr|]; [|done]. cbn [bind prepend ret]. by rewrite !app_nil_r.
Qed.

Section ThreadingMore.

Variable kAlignedSize : Z.
Hypothesis kAlignedSize_pos : 1 <= kAlignedSize.

(** X1. A range that one block can hold is not cut: for start < end, with
    one thread or with at most min_block_size positions, [BlockInfo]
    answers one block of the whole length and [For] is one call of the
    body, on block 0 and the whole range [start, end), and returns 1. *)
Theorem For_single_block {S : Type} (inner_fun : Z -> Z -> Z -> S -> outcome S)
        (T start end_ min_block_size : Z) (s : S) :
  start < end_ -> 1 <= min_block_size -> 1 <= T ->
  For_fits kAlignedSize T start end_ min_block_size ->
  T = 1 \/ end_ - start <= min_block_size ->
  BlockInfo kAlignedSize T (end_ - start) min_block_size = (1, end_ - start) /\
  For kAlignedSize T start end_ min_block_size inner_fun s
  = (s' <- inner_fun 0 start end_ s ;; ret (1, s')).
Proof using kAlignedSize_pos.
  intros Hse Hm HT Hfits Hone.
  pose proof (For_fits_BlockInfo kAlignedSize kAlignedSize_pos T start end_
                min_block_size ltac:(lia) Hm HT Hfits)
    as (Hc & Hc32 & Hf1 & Hf2 & Hf3).
  destruct (BlockInfo kAlignedSize T (end_ - start) min_block_size)
    as [nb bs] eqn:HB.
  pose proof (BlockInfo_spec kAlignedSize kAlignedSize_pos _ _ _ _ _
                Hc Hm HT Hf1 Hf2 Hf3 HB)
    as (Hnb & H1 & _ & _ & _ & _ & Hpos & _).
  pose proof (ceil_div_bounds (end_ - start) min_block_size ltac:(lia)) as Hq.
  pose proof (ceil_div_pos (end_ - start) min_block_size ltac:(lia) ltac:(lia))
    as Hq0.
  assert (nb = 1) as ->.
  { destruct (Hpos ltac:(lia)) as [Hnb1 _]. rewrite Hnb in *.
    destruct Hone as [->|Hone]; [lia|].
    assert (ceil_div (end_ - start) min_block_size <= 1) by nia. lia. }
  rewrite (H1 ltac:(lia)) in *. split; [done|].
  rewrite (For_run_blocks kAlignedSize kAlignedSize_pos inner_fun T start end_
             min_block_size 1 (end_ - start) s ltac:(lia) Hm HT Hfits HB).
  unfold blocks, block. change (seqZ 0 1) with [0].
  cbn [fmap list_fmap run_blocks].
  replace (start + 0 * (end_ - start)) with start by lia.
  replace (Z.min end_ (start + (0 + 1) * (end_ - start))) with end_ by lia.
  apply bind_ret_pair.
Qed.

(** X2. A reversed range: for end < start the body is not called and no
    access is made, yet [For] does not return 0 in general: it returns
    the quotient of (end - start + min_block_size - 1) by min_block_size
    rounded towards zero, which is negative as soon as
    end - start <= 1 - 2 * min_block_size. *)
Theorem For_reversed_range {S : Type}
        (inner_fun : Z -> Z -> Z -> S -> outcome S)
        (T start end_ min_block_size : Z) (s : S) :
  end_ < start -> 1 <= min_block_size <= INT_MAX -> 1 <= T ->
  INT_MIN <= end_ - start ->
  let n_block := (end_ - start + min_block_size - 1) `quot` min_block_size in
  For kAlignedSize T start end_ min_block_size inner_fun s = Ok (n_block, s) [] /\
  n_block <= 0 /\
  (n_block < 0 <-> end_ - start <= 1 - 2 * min_block_size).
Proof.
  intros Hse Hm HT Hmin n_block.
  remember (end_ - start + min_block_size - 1) as x eqn:Hx0.
  assert (n_block <= 0 /\ INT_MIN <= n_block /\
          (n_block < 0 <-> end_ - start <= 1 - 2 * min_block_size))
    as (Hn0 & Hxn & Hiff).
  { subst n_block.
    pose proof (Z.quot_rem' x min_block_size) as Hqr.
    destruct (Z_le_gt_dec 0 x) as [Hx|Hx].
    - rewrite Z.quot_small by lia. unfold INT_MIN. lia.
    - pose proof (Z.rem_bound_pos_neg x min_block_size ltac:(lia) ltac:(lia))
        as Hr.
      unfold INT_MIN in *. split_and!; [nia | nia |].
      split; intros; nia. }
  unfold INT_MIN, INT_MAX in Hm, Hmin, Hxn.
  unfold For, BlockInfo.
  rewrite (sub32_id end_ start) by range32.
  rewrite (add32_id (end_ - start)) by range32.
  rewrite (sub32_id (end_ - start + min_block_size) 1) by range32.
  rewrite <- Hx0.
  unfold div32. fold n_block. rewrite wrap32_id by range32.
  replace (Z.min T n_block) with n_block by lia.
  replace (1 <? n_block) with false by (symmetry; apply Z.ltb_ge; lia).
  replace (Z.to_nat n_block) with 0%nat by lia.
  split_and!; done.
Qed.

(** In a cut of [0, cnt) every block without positions comes after every
    block with positions. *)
Lemma empty_blocks_trail cnt bs i j :
  0 <= bs -> 0 <= i <= j ->
  (block 0 cnt bs i).2 - (block 0 cnt bs i).1.2 <= 0 ->
  (block 0 cnt bs j).2 - (block 0 cnt bs j).1.2 <= 0.
Proof. unfold block. cbn [fst snd]. intros Hbs Hij Hi. nia. Qed.

End ThreadingMore.

(** One thread, 5000 positions. *)
Lemma For_single_block_witness :
  BlockInfo 32 1 (5000 - 0) 1024 = (1, 5000 - 0) /\
  For 32 1 0 5000 1024
      (fun i lo hi (calls : list (Z * Z * Z)) => ret (calls ++ [(i, lo, hi)])) []
  = (s' <- ret ([] ++ [(0, 0, 5000)]) ;; ret (1, s')).
Proof.
  apply (For_single_block 32 ltac:(lia)
           (fun i lo hi (calls : list (Z * Z * Z)) => ret (calls ++ [(i, lo, hi)]))
           1 0 5000 1024 []);
    [lia | lia | lia | unfold For_fits, INT_MIN, INT_MAX; lia | by left].
Defined.

(** The range from 10 back to 0 with blocks of at least 4: -1 blocks. *)
Lemma For_reversed_range_witness :
  For 32 4 10 0 4 (fun _ _ _ (s : list Z) => Fault Indices 0 0 []) []
  = Ok ((0 - 10 + 4 - 1) `quot` 4, []) [] /\
  (0 - 10 + 4 - 1) `quot` 4 <= 0 /\
  ((0 - 10 + 4 - 1) `quot` 4 < 0 <-> 0 - 10 <= 1 - 2 * 4).
Proof.
  apply (For_reversed_range 32 _ 4 10 0 4 []);
    unfold INT_MIN, INT_MAX; lia.
Defined.

(** *** Aligned allocator: the overflow guard is exact *)

Section AllocatorMore.

Variables (size_bits sizeof_T Alignment : Z).
Hypothesis size_bits_pos : 0 < size_bits.
Hypothesis sizeof_T_pos : 1 <= sizeof_T.

(** X3. The guard of [allocate] is exact: for an element count n of type
    [size_t], the length error is thrown exactly when the byte count
    n * sizeof(T) does not fit [size_t]; and whenever the platform
    allocation is asked, it is asked for exactly n * sizeof(T) bytes, a
    positive count that fits. *)
Theorem allocate_guard_exact (_mm_malloc : Z -> Z -> option Z) (n : Z) :
  0 <= n < 2 ^ size_bits ->
  ((allocate size_bits sizeof_T Alignment _mm_malloc n).1 = Throws_length_error
   <-> 2 ^ size_bits <= n * sizeof_T) /\
  (forall req,
      req ∈ (allocate size_bits sizeof_T Alignment _mm_malloc n).2 ->
      req = (n * sizeof_T, Alignment) /\ 0 < n * sizeof_T < 2 ^ size_bits).
Proof using size_bits_pos sizeof_T_pos.
  intros Hn.
  assert (1 < 2 ^ size_bits) as Hpow by (apply Z.pow_gt_1; lia).
  pose proof (max_size_eq size_bits sizeof_T size_bits_pos) as Hmax.
  pose proof (Z.div_mod (2 ^ size_bits - 1) sizeof_T ltac:(lia)) as H1.
  pose proof (Z.mod_pos_bound (2 ^ size_bits - 1) sizeof_T ltac:(lia)) as H2.
  rewrite <- Hmax in H1.
  unfold allocate.
  destruct (n =? 0) eqn:E0; [apply Z.eqb_eq in E0 | apply Z.eqb_neq in E0].
  { subst n. cbn [fst snd]. split; [split; [done | lia]|].
    by intros req ?%elem_of_nil. }
  destruct (max_size size_bits sizeof_T <? n) eqn:E1;
    [apply Z.ltb_lt in E1 | apply Z.ltb_ge in E1].
  { cbn [fst snd]. split; [split; [intros _; nia | done]|].
    by intros req ?%elem_of_nil. }
  rewrite (bytes_no_wrap size_bits sizeof_T size_bits_pos sizeof_T_pos n)
    by lia.
  destruct (_mm_malloc (n * sizeof_T) Alignment) as [pv|]; cbn [fst snd];
    (split; [split; [done | intros; nia]|]);
    intros req ->%list_elem_of_singleton; (split; [done | nia]).
Qed.

End AllocatorMore.

(** 32-bit [size_t], 8-byte elements: 2^29 elements are 2^32 bytes, one
    too many. *)
Lemma allocate_guard_exact_witness :
  ((allocate 32 8 32 (fun _ _ => Some 4096) (2 ^ 29)).1 = Throws_length_error
   <-> 2 ^ 32 <= 2 ^ 29 * 8) /\
  (forall req,
      req ∈ (allocate 32 8 32 (fun _ _ => Some 4096) (2 ^ 29)).2 ->
      req = (2 ^ 29 * 8, 32) /\ 0 < 2 ^ 29 * 8 < 2 ^ 32).
Proof.
  apply (allocate_guard_exact 32 8 32 ltac:(lia) ltac:(lia)
           (fun _ _ => Some 4096) (2 ^ 29)).
  lia.
Defined.

(** *** Leaf partition store: what the accessors hand out *)

Lemma vget_out_of_range b v i :
  ~ (0 <= i < lengthZ v) -> vget b v i = Fault b i 1 [].
Proof.
  intros Hi. unfold vget. destruct (0 <=? i) eqn:E; [|done].
  apply Z.leb_le in E. by rewrite lookup_ge_None_2 by lia.
Qed.

(** X4. Under the partition invariant [GetIndexOnLeaf] hands out, for
    every valid leaf, the pair of [leaf_begin(leaf)] and
    [leaf_count(leaf)], a range that lies inside [indices_]; for a leaf id
    outside [0, num_leaves) it reads outside [leaf_begin_]. *)
Theorem GetIndexOnLeaf_in_bounds (dp : DataPartition) :
  partition_invariant dp ->
  (forall leaf, 0 <= leaf < num_leaves_ dp ->
     exists begin len,
       GetIndexOnLeaf leaf dp
       = Ok (begin, len) [Rd LeafBegin leaf 1; Rd LeafCount leaf 1] /\
       leaf_begin leaf dp = Ok begin [Rd LeafBegin leaf 1] /\
       leaf_count leaf dp = Ok len [Rd LeafCount leaf 1] /\
       0 <= begin /\ 0 <= len /\ begin + len <= lengthZ (indices_ dp) /\
       lengthZ (leaf_range dp leaf) = len) /\
  (forall leaf, ~ (0 <= leaf < num_leaves_ dp) ->
     GetIndexOnLeaf leaf dp = Fault LeafBegin leaf 1 []).
Proof.
  intros (Hwf & Hs & Htot & (Hrng & _) & _).
  destruct Hwf as (Llb & Llc & Lidx & _). split.
  - intros leaf Hleaf.
    destruct (lookup_lt_is_Some_2 (leaf_begin_ dp) (Z.to_nat leaf) ltac:(lia))
      as [begin Hb].
    destruct (lookup_lt_is_Some_2 (leaf_count_ dp) (Z.to_nat leaf) ltac:(lia))
      as [len Hc].
    destruct (Hrng leaf begin len (proj1 Hleaf) Hb Hc) as (Hb0 & Hc0 & Hbc).
    exists begin, len. unfold GetIndexOnLeaf, leaf_begin, leaf_count.
    assert (0 <= leaf) as Hl0 by lia.
    rewrite (vget_lookup _ _ _ _ Hl0 Hb).
    rewrite (vget_lookup _ _ _ _ Hl0 Hc).
    split_and!; try done; try lia.
    rewrite (leaf_range_eq dp leaf begin len) by (done || lia).
    apply length_slice; lia.
  - intros leaf Hleaf. unfold GetIndexOnLeaf.
    by rewrite vget_out_of_range by lia.
Qed.

(** X5. [Split] leaves the ids of every other leaf as they were: under
    the partition invariant, a call on a non-empty leaf with a right leaf
    not in use, made with a thread count T between 1 and the one seen at
    construction on a store with num_data + 1024 and
    num_data + (alignment + 1) * T at most INT_MAX, completes, and
    afterwards [GetIndexOnLeaf] hands out the same ids as before for
    every leaf other than the two of the call. *)
Theorem Split_other_leaves_unchanged
        (kAlignedSize : Z) (dataset : Dataset) (feature : Z)
        (threshold : list Z) (num_threshold : Z) (default_left : bool)
        (T leaf right_leaf : Z) (dp : DataPartition) (cnt : Z) :
  1 <= kAlignedSize ->
  oracle_counts dataset ->
  partition_invariant dp ->
  valid_split kAlignedSize T leaf right_leaf dp cnt ->
  0 < cnt ->
  exists dp' tr,
    Split kAlignedSize dataset feature threshold num_threshold default_left
          T leaf right_leaf dp = Ok dp' tr /\
    forall other, other <> leaf -> other <> right_leaf ->
      leaf_range dp' other = leaf_range dp other.
Proof.
  intros HA Hcounts Hinv Hvalid Hcnt.
  destruct (valid_split_pre _ _ _ _ _ _ Hinv Hvalid Hcnt) as (begin & Hpre & Hact).
  destruct (BlockInfo kAlignedSize T cnt 1024) as [nb bs] eqn:HB.
  destruct (ok_with_Ok _ _ (Split_spec dataset feature threshold num_threshold
                              default_left Hcounts kAlignedSize HA T leaf
                              right_leaf dp begin cnt nb bs Hpre Hcnt HB))
    as (dp' & tr & HS & _ & Hpost).
  exists dp', tr. split; [exact HS|]. intros other Ho1 Ho2.
  unfold Split_post in Hpost. cbv zeta in Hpost.
  destruct Hpost as (_ & _ & _ & _ & _ & Hlb & Hlc & Hidx & Hlen & _).
  destruct Hpre as (Hwf & HT & Hleaf & Hright & Hne & Hbegin & Hcount & Hb0
                    & _ & Hbc & _).
  destruct Hinv as (_ & _ & Htot & (Hrng & _ & Hdisj) & _).
  destruct Hwf as (_ & _ & Lidx & _).
  rewrite !leaf_range_unfold. case_decide as Ho; [|done].
  rewrite Hlb, Hlc, Hidx.
  rewrite !list_lookup_insert_ne by lia.
  destruct (leaf_begin_ dp !! Z.to_nat other) as [b|] eqn:Hb; [|done].
  destruct (leaf_count_ dp !! Z.to_nat other) as [c|] eqn:Hc; [|done].
  destruct (Hrng other b c Ho Hb Hc) as (Hb1 & Hc1 & Hbc1).
  destruct (decide (c = 0)) as [->|Hc0]; [done|].
  apply slice_splice_disjoint; rewrite ?length_app; try lia.
  destruct (decide (b + c <= begin \/ begin + cnt <= b)) as [Hd|Hd]; [lia|].
  exfalso. apply Ho1.
  apply (Hdisj (Z.max b begin)).
  - exists b, c. split_and!; try done; lia.
  - exists begin, cnt. split_and!; try done; lia.
Qed.

Lemma stable_partition_by_test (test : Z -> bool) l r p :
  stable_partition l r p ->
  Forall (fun x => test x = true) l -> Forall (fun x => test x = false) r ->
  l = filter (fun x => test x = true) p /\
  r = filter (fun x => test x = false) p.
Proof.
  induction 1 as [|x l r p _ IH|x l r p _ IH]; intros Hl Hr.
  - done.
  - apply Forall_cons_1 in Hl as [Hx Hl]. destruct (IH Hl Hr) as [-> ->].
    rewrite (filter_cons_True (fun x => test x = true)) by done.
    rewrite (filter_cons_False (fun x => test x = false)) by (by rewrite Hx).
    done.
  - apply Forall_cons_1 in Hr as [Hx Hr]. destruct (IH Hl Hr) as [-> ->].
    rewrite (filter_cons_False (fun x => test x = true)) by (by rewrite Hx).
    rewrite (filter_cons_True (fun x => test x = false)) by done. done.
Qed.

Lemma routes_by_stable dataset goes_left :
  routes_by dataset goes_left -> oracle_stable dataset.
Proof.
  intros Hr feature threshold num_threshold default_left p. rewrite Hr.
  apply (stable_partition_filter
           (goes_left feature threshold num_threshold default_left)).
Qed.

(** X6. The result of [Split] does not depend on the number of threads
    when the split decision routes each id on its own: for every thread
    count T between 1 and the one seen at construction (on a store with
    num_data + 1024 and num_data + (alignment + 1) * T at most INT_MAX,
    and a non-empty leaf), the call completes, the new range of [leaf]
    holds the ids of the old range that go left, and the range of
    [right_leaf] the others, each in the order of the old range. *)
Theorem Split_by_predicate
        (kAlignedSize : Z) (dataset : Dataset)
        (goes_left : Z -> list Z -> Z -> bool -> Z -> bool) (feature : Z)
        (threshold : list Z) (num_threshold : Z) (default_left : bool)
        (T leaf right_leaf : Z) (dp : DataPartition) (begin cnt : Z) :
  1 <= kAlignedSize ->
  routes_by dataset goes_left ->
  Split_pre kAlignedSize T leaf right_leaf dp begin cnt ->
  0 < cnt ->
  let test := goes_left feature threshold num_threshold default_left in
  exists dp' tr,
    Split kAlignedSize dataset feature threshold num_threshold default_left
          T leaf right_leaf dp = Ok dp' tr /\
    leaf_range dp' leaf
    = filter (fun x => test x = true) (leaf_range dp leaf) /\
    leaf_range dp' right_leaf
    = filter (fun x => test x = false) (leaf_range dp leaf).
Proof.
  intros HA Hroutes Hpre Hcnt test.
  pose proof (routes_by_stable _ _ Hroutes) as Hst.
  pose proof (oracle_stable_counts _ Hst) as Hcounts.
  destruct (BlockInfo kAlignedSize T cnt 1024) as [nb bs] eqn:HB.
  destruct (ok_with_Ok _ _ (Split_spec dataset feature threshold num_threshold
                              default_left Hcounts kAlignedSize HA T leaf
                              right_leaf dp begin cnt nb bs Hpre Hcnt HB))
    as (dp' & tr & HS & _ & Hpost).
  exists dp', tr. split; [exact HS|].
  destruct Hpre as (Hwf & HT & Hleaf & Hright & Hne & Hbegin & Hcount & Hb0
                    & _ & Hbc & Hfit1 & Hfit2).
  destruct (Split_post_ranges _ _ _ _ _ _ _ _ _ Hwf Hleaf Hright Hne Hbegin
              Hcount Hb0 Hbc Hpost) as (-> & -> & ->).
  pose proof (BlockInfo_spec kAlignedSize HA T cnt 1024 nb bs
                ltac:(lia) ltac:(lia) ltac:(lia) ltac:(lia)
                ltac:(unfold INT_MAX in *; nia) ltac:(unfold INT_MAX in *; nia)
                HB) as (_ & _ & _ & Hcov & Hnb & Hbs & _).
  destruct Hwf as (_ & _ & Lidx & _).
  pose proof (block_outs_stable_total dataset feature threshold num_threshold
                default_left (indices_ dp) begin cnt nb bs Hst Hb0 ltac:(lia)
                ltac:(lia) Hbs ltac:(lia) Hcov) as Hsp.
  apply (stable_partition_by_test test) in Hsp; [done| |].
  - apply list.Forall_forall. intros x (l & Hl & Hx)%elem_of_concat.
    apply list_elem_of_fmap in Hl as (out & -> & Hout).
    unfold block_outs in Hout.
    apply list_elem_of_fmap in Hout as (blk & -> & _).
    destruct blk as [[i lo] hi]. unfold block_out in Hx.
    destruct (hi - lo <=? 0); [by apply elem_of_nil in Hx|].
    rewrite Hroutes in Hx. cbn [fst] in Hx.
    by apply list_elem_of_filter in Hx as [Hx _].
  - apply list.Forall_forall. intros x (l & Hl & Hx)%elem_of_concat.
    apply list_elem_of_fmap in Hl as (out & -> & Hout).
    unfold block_outs in Hout.
    apply list_elem_of_fmap in Hout as (blk & -> & _).
    destruct blk as [[i lo] hi]. unfold block_out in Hx.
    destruct (hi - lo <=? 0); [by apply elem_of_nil in Hx|].
    rewrite Hroutes in Hx. cbn [snd] in Hx.
    by apply list_elem_of_filter in Hx as [Hx _].
Qed.

(** *** Leaf partition store: resizing *)

Lemma sumZ_app l1 l2 : sumZ (l1 ++ l2) = sumZ l1 + sumZ l2.
Proof. unfold sumZ. induction l1 as [|x l1 IH]; cbn [app foldr]; lia. Qed.

Lemma sumZ_zeros l : Forall (fun x => x = 0) l -> sumZ l = 0.
Proof.
  unfold sumZ. induction 1 as [|x l -> _ IH]; cbn [foldr]; [done | lia].
Qed.

Lemma lookup_resize_Some (n : nat) (l : list Z) (i : nat) x :
  resize n 0 l !! i = Some x ->
  (i < n)%nat /\ (l !! i = Some x \/ ((length l <= i)%nat /\ x = 0)).
Proof.
  intros H. pose proof (lookup_lt_Some _ _ _ H) as Hi.
  rewrite length_resize in Hi. split; [done|].
  destruct (decide (i < length l)%nat) as [Hl|Hl].
  - left. by rewrite lookup_resize in H by lia.
  - right. rewrite lookup_resize_new in H by lia. split; [lia | congruence].
Qed.

Lemma sumZ_resize (n : nat) (l : list Z) :
  (forall i x, (n <= i)%nat -> l !! i = Some x -> x = 0) ->
  sumZ (resize n 0 l) = sumZ l.
Proof.
  intros Hz. destruct (decide (n <= length l)%nat) as [Hn|Hn].
  - rewrite resize_le by done. rewrite <- (take_drop n l) at 2.
    rewrite sumZ_app, (sumZ_zeros (drop n l)); [lia|].
    apply list.Forall_forall. intros x [i Hi]%list_elem_of_lookup.
    rewrite lookup_drop in Hi. apply (Hz (n + i)%nat x); [lia | done].
  - rewrite resize_ge by lia. rewrite sumZ_app, sumZ_replicate_0. lia.
Qed.

(** X7. [ResetLeaves] keeps the partition invariant whenever the leaves
    it drops are empty, so in particular whenever the number of leaves
    does not go down: afterwards there are num_leaves leaves, every leaf
    holds the ids it held before, and the leaves added are empty. *)
Theorem ResetLeaves_keeps_invariant (dp : DataPartition) (num_leaves : Z) :
  partition_invariant dp -> 0 <= num_leaves ->
  (forall leaf cnt, num_leaves <= leaf ->
                    leaf_count_ dp !! Z.to_nat leaf = Some cnt -> cnt = 0) ->
  partition_invariant (ResetLeaves num_leaves dp) /\
  num_leaves_ (ResetLeaves num_leaves dp) = num_leaves /\
  indices_ (ResetLeaves num_leaves dp) = indices_ dp /\
  (forall leaf, leaf_range (ResetLeaves num_leaves dp) leaf = leaf_range dp leaf) /\
  (forall leaf, num_leaves_ dp <= leaf < num_leaves ->
                GetIndexOnLeaf leaf (ResetLeaves num_leaves dp)
                = Ok (0, 0) [Rd LeafBegin leaf 1; Rd LeafCount leaf 1]).
Proof.
  intros (Hwf & Hs & Htot & (Hrng & Hcover & Hdisj) & Hperm) Hn Hdrop.
  pose proof Hwf as (Llb & Llc & Lidx & Ltl & Ltr & Lob & Llcb & Lrcb & Llw & Lrw).
  unfold ResetLeaves, vresize. cbv zeta. norm_dp.
  set (lb := resize (Z.to_nat num_leaves) 0 (leaf_begin_ dp)).
  set (lc := resize (Z.to_nat num_leaves) 0 (leaf_count_ dp)).
  set (dp' := set_leaf_count lc (set_leaf_begin lb (set_num_leaves num_leaves dp))).
  assert (forall leaf b c, 0 <= leaf ->
            lb !! Z.to_nat leaf = Some b -> lc !! Z.to_nat leaf = Some c ->
            leaf < num_leaves /\
            ((leaf_begin_ dp !! Z.to_nat leaf = Some b /\
              leaf_count_ dp !! Z.to_nat leaf = Some c) \/
             (num_leaves_ dp <= leaf /\ b = 0 /\ c = 0))) as Hcases.
  { intros leaf b c Hl Hb Hc.
    apply lookup_resize_Some in Hb as (Hi & Hb).
    apply lookup_resize_Some in Hc as (_ & Hc).
    split; [lia|].
    destruct Hb as [Hb|[Hb ->]], Hc as [Hc|[Hc ->]].
    - by left.
    - apply lookup_lt_Some in Hb. lia.
    - apply lookup_lt_Some in Hc. lia.
    - right. lia. }
  assert (forall leaf, 0 <= leaf < num_leaves ->
            leaf < num_leaves_ dp ->
            lb !! Z.to_nat leaf = leaf_begin_ dp !! Z.to_nat leaf /\
            lc !! Z.to_nat leaf = leaf_count_ dp !! Z.to_nat leaf) as Hold.
  { intros leaf Hl Hl'. subst lb lc. by rewrite !lookup_resize by lia. }
  assert (forall leaf, num_leaves_ dp <= leaf < num_leaves ->
            lb !! Z.to_nat leaf = Some 0 /\ lc !! Z.to_nat leaf = Some 0)
    as Hnew.
  { intros leaf Hl. subst lb lc. by rewrite !lookup_resize_new by lia. }
  assert (active dp' = active dp) as Hact by done.
  split_and!.
  - unfold partition_invariant. cbv zeta. rewrite Hact. split_and!.
    + subst dp'. unfold wf. norm_dp. subst lb lc. rewrite !length_resize.
      split_and!; try done; lia.
    + subst dp'. norm_dp. subst lc. rewrite sumZ_resize; [done|].
      intros i x Hi Hx. apply (Hdrop (Z.of_nat i)); [lia|].
      by rewrite Nat2Z.id.
    + done.
    + split_and!.
      * intros leaf b c Hl Hb Hc. subst dp'. norm_dp.
        destruct (Hcases leaf b c Hl Hb Hc) as (_ & [[Hb' Hc']|(_ & -> & ->)]).
        -- by apply (Hrng leaf).
        -- lia.
      * intros p Hp.
        destruct (Hcover p Hp) as (leaf & b & c & Hl & Hb & Hc & Hin).
        exists leaf, b, c. subst dp'. norm_dp.
        assert (leaf < num_leaves).
        { destruct (decide (leaf < num_leaves)) as [|Hge]; [done|].
          specialize (Hdrop leaf c ltac:(lia) Hc). lia. }
        apply lookup_lt_Some in Hb as Hlt.
        destruct (Hold leaf ltac:(lia) ltac:(lia)) as [-> ->]. done.
      * intros p leaf1 leaf2 (b1 & c1 & Hl1 & Hb1 & Hc1 & Hin1)
               (b2 & c2 & Hl2 & Hb2 & Hc2 & Hin2).
        subst dp'. norm_dp.
        destruct (Hcases leaf1 b1 c1 Hl1 Hb1 Hc1) as (_ & [[Hb1' Hc1']|?]);
          [|lia].
        destruct (Hcases leaf2 b2 c2 Hl2 Hb2 Hc2) as (_ & [[Hb2' Hc2']|?]);
          [|lia].
        apply (Hdisj p).
        -- by exists b1, c1.
        -- by exists b2, c2.
    + done.
  - done.
  - done.
  - intros leaf. rewrite !leaf_range_unfold. case_decide as Hl; [|done].
    subst dp'. norm_dp.
    destruct (decide (leaf < num_leaves)) as [Hlt|Hge].
    + destruct (decide (leaf < num_leaves_ dp)) as [Hlt'|Hge'].
      * by destruct (Hold leaf ltac:(lia) Hlt') as [-> ->].
      * destruct (Hnew leaf ltac:(lia)) as [-> ->].
        rewrite (lookup_ge_None_2 (leaf_begin_ dp)) by lia. done.
    + rewrite (lookup_ge_None_2 lb) by (subst lb; rewrite length_resize; lia).
      destruct (leaf_begin_ dp !! Z.to_nat leaf) as [b|]; [|done].
      destruct (leaf_count_ dp !! Z.to_nat leaf) as [c|] eqn:Hc; [|done].
      by rewrite (Hdrop leaf c ltac:(lia) Hc).
  - intros leaf Hl. unfold GetIndexOnLeaf. subst dp'. norm_dp.
    destruct (Hnew leaf Hl) as [Hb Hc].
    assert (0 <= leaf) as Hl0 by lia.
    rewrite (vget_lookup _ _ _ _ Hl0 Hb), (vget_lookup _ _ _ _ Hl0 Hc). done.
Qed.

Lemma ResetNumData_wf dp num_data :
  wf dp -> 0 <= num_data -> wf (ResetNumData num_data dp).
Proof.
  intros (Llb & Llc & Lidx & Ltl & Ltr & Lob & Llcb & Lrcb & Llw & Lrw) Hn.
  unfold ResetNumData, vresize, wf. cbv zeta. norm_dp.
  rewrite !length_resize. split_and!; try done; lia.
Qed.

(** X8. [ResetNumData] followed by [Init]: for a new size that the
    bagging subset, if one is set, fits, [Init] completes and leaves a
    store for num_data examples that satisfies the partition invariant,
    with all active ids in leaf 0 (the ids 0 .. num_data-1 without
    bagging). *)
Theorem ResetNumData_Init (dp : DataPartition) (num_data : Z) :
  wf dp -> 0 <= num_data -> 1 <= num_leaves_ dp ->
  bagging_ok (ResetNumData num_data dp) ->
  exists dp' tr,
    Init (ResetNumData num_data dp) = Ok dp' tr /\
    partition_invariant dp' /\
    num_data_ dp' = num_data /\
    lengthZ (indices_ dp') = num_data /\
    leaf_range dp' 0 = active (ResetNumData num_data dp) /\
    (used_data_indices_ dp = None -> indices_ dp' = seqZ 0 num_data).
Proof.
  intros Hwf Hn Hnl Hbag.
  pose proof (ResetNumData_wf dp num_data Hwf Hn) as Hwf'.
  set (dp0 := ResetNumData num_data dp) in *.
  assert (num_leaves_ dp0 = num_leaves_ dp) as Hnl0 by done.
  assert (num_data_ dp0 = num_data) as Hnd0 by done.
  assert (used_data_indices_ dp0 = used_data_indices_ dp) as Hu0 by done.
  destruct (Init_partition_invariant dp0 Hwf' ltac:(lia) Hbag)
    as (dp' & tr & HI & Hinv & Hact & _).
  destruct (ok_with_Ok _ _ (Init_spec dp0 Hwf' ltac:(lia) Hbag))
    as (dp'' & tr' & HI' & Hdp').
  rewrite HI in HI'. injection HI' as <- <-.
  exists dp', tr. split; [exact HI|]. split; [exact Hinv|].
  pose proof (active_length dp0 Hwf' Hbag) as [Hal Hal'].
  destruct Hwf' as (_ & _ & Lidx & _).
  assert (lengthZ (indices_ dp') = num_data) as Hlen.
  { rewrite Hdp'. norm_dp. rewrite length_splice by lia. lia. }
  split_and!.
  - by rewrite Hdp'.
  - exact Hlen.
  - rewrite (leaf_range_eq dp' 0 0 (lengthZ (active dp0))).
    + rewrite Hdp'. norm_dp. apply slice_splice_same; lia.
    + done.
    + rewrite Hdp'. norm_dp.
      by rewrite lookup_replicate_2 by lia.
    + by rewrite Hdp'.
  - intros Hnone. rewrite Hdp'. norm_dp.
    assert (active dp0 = seqZ 0 num_data) as ->
      by (unfold active; by rewrite Hu0, Hnone, Hnd0).
    apply splice_full. rewrite lengthZ_seqZ by lia. lia.
Qed.

(** X9. A bagging count above num_data makes [Init] write past the end
    of [indices_]: on a store as the constructor builds it for num_data
    examples, with a bagging subset set by [SetUsedDataIndices] whose
    count is above num_data, [Init] resets the leaves, sets
    leaf_count[0] and then copies used_data_count ids into [indices_],
    which holds num_data elements; neither [SetUsedDataIndices] nor
    [Init] compares the two. *)
Theorem Init_bagging_overflow
        (omp_num_threads junk num_data num_leaves : Z)
        (used : list Z) (num_used_data : Z) :
  0 <= num_data -> 1 <= num_leaves ->
  num_data < num_used_data <= lengthZ used ->
  Init (SetUsedDataIndices (Some used) num_used_data
          (DataPartition_new omp_num_threads junk num_data num_leaves))
  = Fault Indices 0 num_used_data
          [Wr LeafBegin 0 num_leaves; Wr LeafCount 0 num_leaves;
           Wr LeafCount 0 1; Rd UsedData 0 num_used_data].
Proof.
  intros Hn Hnl Hcount.
  set (dp := SetUsedDataIndices (Some used) num_used_data
               (DataPartition_new omp_num_threads junk num_data num_leaves)).
  assert (used_data_indices_ dp = Some used) as Hused by done.
  assert (used_data_count_ dp = num_used_data) as Hc by done.
  assert (lengthZ (leaf_begin_ dp) = num_leaves) as Llb
    by (cbn; unfold vresize; rewrite length_resize; lia).
  assert (lengthZ (leaf_count_ dp) = num_leaves) as Llc
    by (cbn; unfold vresize; rewrite length_resize; lia).
  assert (lengthZ (indices_ dp) = num_data) as Lidx
    by (cbn; unfold vresize; rewrite length_resize; lia).
  unfold Init, vfill. cbn [bind prepend]. rewrite Hused, Hc.
  unfold vset. rewrite in_bounds_true by (rewrite ?length_replicate; lia).
  cbn [bind prepend].
  unfold vread. rewrite in_bounds_true by lia. cbn [bind prepend].
  unfold vwrite.
  assert (lengthZ (take (Z.to_nat num_used_data)
                        (drop (Z.to_nat 0) used)) = num_used_data) as ->.
  { rewrite length_take, length_drop. lia. }
  assert (in_bounds (indices_ dp) 0 num_used_data = false) as ->.
  { unfold in_bounds. rewrite andb_false_iff. right. apply Z.leb_gt. lia. }
  cbn [app]. by rewrite Llb, Llc.
Qed.

(** *** Leaf partition store: [ResetByLeafPred] *)

Lemma at_lookup {A : Type} (v : list A) (i : Z) (x : A) :
  0 <= i -> v !! Z.to_nat i = Some x -> at_ v i = Some x.
Proof.
  intros Hi Hx. unfold at_. by rewrite (proj2 (Z.leb_le 0 i) Hi).
Qed.

Lemma at_out_of_range {A : Type} (v : list A) (i : Z) :
  ~ (0 <= i < lengthZ v) -> at_ v i = None.
Proof.
  intros Hi. unfold at_. destruct (0 <=? i) eqn:E; [|done].
  apply Z.leb_le in E. apply lookup_ge_None_2. lia.
Qed.

Lemma untraced_vset b v i x :
  0 <= i < lengthZ v ->
  untraced (vset b v i x) = Some (<[Z.to_nat i := x]> v).
Proof. intros Hi. unfold vset. by rewrite in_bounds_true by lia. Qed.

Lemma untraced_vget b v i x :
  0 <= i -> v !! Z.to_nat i = Some x -> untraced (vget b v i) = Some x.
Proof. intros Hi Hx. by rewrite (vget_lookup b v i x Hi Hx). Qed.

Lemma untraced_vwrite b v off l :
  0 <= off -> off + lengthZ l <= lengthZ v ->
  untraced (vwrite b v off l) = Some (splice v off l).
Proof. intros H1 H2. unfold vwrite. by rewrite in_bounds_true by lia. Qed.

Lemma on_leaf_upto_succ leaf_pred i leaf :
  0 <= i ->
  on_leaf_upto leaf_pred (i + 1) leaf
  = on_leaf_upto leaf_pred i leaf
    ++ (if decide (leaf_pred !! Z.to_nat i = Some leaf) then [i] else []).
Proof.
  intros Hi. unfold on_leaf_upto.
  rewrite seqZ_app by lia. rewrite list.filter_app. by f_equal.
Qed.

Lemma on_leaf_upto_0 leaf_pred leaf : on_leaf_upto leaf_pred 0 leaf = [].
Proof. done. Qed.

Lemma on_leaf_upto_step leaf_pred k i p :
  0 <= i -> leaf_pred !! Z.to_nat i = Some p -> 0 <= p < k ->
  on_leaf_upto leaf_pred (i + 1) <$> seqZ 0 k
  = <[Z.to_nat p := on_leaf_upto leaf_pred i p ++ [i]]>
      (on_leaf_upto leaf_pred i <$> seqZ 0 k).
Proof.
  intros Hi Hp Hpk. apply list_eq. intros j.
  destruct (decide (j = Z.to_nat p)) as [->|Hj].
  - rewrite list_lookup_insert_eq
      by (rewrite length_fmap, length_seqZ; lia).
    rewrite list_lookup_fmap, lookup_seqZ_lt by lia.
    cbn [fmap option_fmap option_map]. f_equal.
    replace (0 + Z.of_nat (Z.to_nat p)) with p by lia.
    rewrite on_leaf_upto_succ by done. by rewrite decide_True by done.
  - rewrite list_lookup_insert_ne by done.
    rewrite !list_lookup_fmap.
    destruct (seqZ 0 k !! j) as [l|] eqn:Hl; [|done].
    apply lookup_seqZ in Hl as [-> Hl].
    cbn [fmap option_fmap option_map]. f_equal.
    rewrite on_leaf_upto_succ by done.
    rewrite decide_False; [by rewrite app_nil_r|].
    rewrite Hp. intros [= ->]. lia.
Qed.

Lemma on_leaf_upto_lookup leaf_pred k i p :
  0 <= p < k ->
  (on_leaf_upto leaf_pred i <$> seqZ 0 k) !! Z.to_nat p
  = Some (on_leaf_upto leaf_pred i p).
Proof.
  intros Hp. rewrite list_lookup_fmap, lookup_seqZ_lt by lia.
  cbn [fmap option_fmap option_map]. do 2 f_equal. lia.
Qed.

Lemma push_back_loop_spec leaf_pred k (todo : nat) :
  forall i,
    0 <= i -> i + Z.of_nat todo <= lengthZ leaf_pred -> 0 <= k ->
    Forall (fun p => 0 <= p < k) leaf_pred ->
    push_back_loop todo i leaf_pred (on_leaf_upto leaf_pred i <$> seqZ 0 k)
    = Some (on_leaf_upto leaf_pred (i + Z.of_nat todo) <$> seqZ 0 k).
Proof.
  induction todo as [|todo IH]; intros i Hi Hlen Hk Hvalid.
  { cbn [push_back_loop]. by replace (i + Z.of_nat 0) with i by lia. }
  cbn [push_back_loop].
  destruct (lookup_lt_is_Some_2 leaf_pred (Z.to_nat i) ltac:(lia)) as [p Hp].
  pose proof (proj1 (Forall_lookup _ _) Hvalid _ _ Hp) as Hpk. cbn beta in Hpk.
  rewrite (at_lookup leaf_pred i p Hi Hp). cbn [mbind option_bind].
  rewrite (at_lookup _ p (on_leaf_upto leaf_pred i p));
    [|lia|by apply on_leaf_upto_lookup].
  cbn [mbind option_bind].
  replace (i + Z.of_nat (Datatypes.S todo)) with (i + 1 + Z.of_nat todo) by lia.
  rewrite <- (IH (i + 1)) by (done || lia).
  by rewrite (on_leaf_upto_step leaf_pred k i p).
Qed.

Lemma push_back_loop_invalid leaf_pred (todo : nat) :
  forall i indices_per_leaf,
    0 <= i -> i + Z.of_nat todo <= lengthZ leaf_pred ->
    (exists j p, i <= j < i + Z.of_nat todo /\
                 leaf_pred !! Z.to_nat j = Some p /\
                 ~ (0 <= p < lengthZ indices_per_leaf)) ->
    push_back_loop todo i leaf_pred indices_per_leaf = None.
Proof.
  induction todo as [|todo IH]; intros i ipl Hi Hlen (j & p & Hj & Hp & Hbad);
    [lia|].
  cbn [push_back_loop].
  destruct (lookup_lt_is_Some_2 leaf_pred (Z.to_nat i) ltac:(lia)) as [q Hq].
  rewrite (at_lookup leaf_pred i q Hi Hq). cbn [mbind option_bind].
  destruct (decide (0 <= q < lengthZ ipl)) as [Hqk|Hqk].
  - destruct (lookup_lt_is_Some_2 ipl (Z.to_nat q) ltac:(lia)) as [ids Hids].
    rewrite (at_lookup ipl q ids ltac:(lia) Hids). cbn [mbind option_bind].
    apply IH; [lia | lia |].
    assert (j <> i) by (intros ->; rewrite Hq in Hp; by injection Hp as ->).
    exists j, p. rewrite length_insert. split_and!; try done; lia.
  - by rewrite at_out_of_range.
Qed.

Lemma setters_id dp :
  set_indices (indices_ dp)
    (set_leaf_count (leaf_count_ dp) (set_leaf_begin (leaf_begin_ dp) dp)) = dp.
Proof. by destruct dp. Qed.

Lemma setters_twice idx lc lb idx' lc' lb' dp :
  set_indices idx' (set_leaf_count lc' (set_leaf_begin lb'
    (set_indices idx (set_leaf_count lc (set_leaf_begin lb dp)))))
  = set_indices idx' (set_leaf_count lc' (set_leaf_begin lb' dp)).
Proof. by destruct dp. Qed.

Lemma write_pos_drop (M : list (list Z)) (k : Z) :
  write_pos M k + lengthZ (concat (drop (Z.to_nat k) M)) = lengthZ (concat M).
Proof.
  unfold write_pos. rewrite <- (take_drop (Z.to_nat k) M) at 3.
  rewrite concat_app, length_app. lia.
Qed.

Lemma layout_loop_spec (M : list (list Z)) (todo : nat) :
  forall i dp,
    0 <= i -> i + Z.of_nat todo = lengthZ M ->
    lengthZ (leaf_begin_ dp) = lengthZ M ->
    lengthZ (leaf_count_ dp) = lengthZ M ->
    lengthZ (concat M) <= lengthZ (indices_ dp) ->
    lengthZ (concat M) <= INT_MAX ->
    exists lb lc,
      layout_loop todo i (write_pos M i) M dp
      = Some (set_indices
                (splice (indices_ dp) (write_pos M i)
                        (concat (drop (Z.to_nat i) M)))
                (set_leaf_count lc (set_leaf_begin lb dp))) /\
      length lb = length (leaf_begin_ dp) /\
      length lc = length (leaf_count_ dp) /\
      (forall l ids, i <= l -> M !! Z.to_nat l = Some ids ->
         lb !! Z.to_nat l = Some (write_pos M l) /\
         lc !! Z.to_nat l = Some (lengthZ ids)) /\
      (forall l, 0 <= l < i ->
         lb !! Z.to_nat l = leaf_begin_ dp !! Z.to_nat l /\
         lc !! Z.to_nat l = leaf_count_ dp !! Z.to_nat l).
Proof.
  induction todo as [|todo IH]; intros i dp Hi Hlen Llb Llc Lidx Hmax.
  { exists (leaf_begin_ dp), (leaf_count_ dp). cbn [layout_loop].
    pose proof (write_pos_bounds M i) as Hwp.
    rewrite drop_ge by lia. cbn [concat].
    rewrite splice_nil by lia. rewrite setters_id.
    split_and!; try done.
    intros l ids Hl Hids. apply lookup_lt_Some in Hids. lia. }
  destruct (lookup_lt_is_Some_2 M (Z.to_nat i) ltac:(lia)) as [ids Hids].
  destruct (write_pos_succ M i ids Hi Hids) as [Hwp Hcat].
  pose proof (write_pos_bounds M i) as Hwp0.
  pose proof (write_pos_bounds M (i + 1)) as Hwp1.
  assert (wrap32 (lengthZ ids) = lengthZ ids) as Hw
    by (apply wrap32_id; range32).
  cbn [layout_loop].
  rewrite untraced_vset by lia. cbn [mbind option_bind].
  rewrite (at_lookup M i ids Hi Hids). cbn [mbind option_bind].
  rewrite untraced_vset by lia. cbn [mbind option_bind].
  rewrite (untraced_vget LeafBegin _ i (write_pos M i) Hi)
    by (apply list_lookup_insert_eq; lia).
  cbn [mbind option_bind].
  rewrite untraced_vwrite by lia. cbn [mbind option_bind].
  rewrite Hw.
  rewrite (untraced_vget LeafCount _ i (lengthZ ids) Hi)
    by (apply list_lookup_insert_eq; lia).
  cbn [mbind option_bind].
  rewrite add32_id by range32. rewrite <- Hwp.
  set (dp1 := set_indices _ (set_leaf_count _ (set_leaf_begin _ dp))).
  destruct (IH (i + 1) dp1) as (lb & lc & Hrun & Hlb & Hlc & Hnew & Hold).
  { lia. }
  { lia. }
  { subst dp1. norm_dp. rewrite length_insert. lia. }
  { subst dp1. norm_dp. rewrite length_insert. lia. }
  { subst dp1. norm_dp. rewrite length_splice by lia. lia. }
  { done. }
  exists lb, lc. rewrite Hrun. subst dp1. norm_dp. rewrite setters_twice.
  rewrite length_insert in Hlb, Hlc.
  split_and!; try done.
  - do 2 f_equal. rewrite Hwp.
    pose proof (write_pos_drop M (i + 1)) as Hdrop.
    rewrite (splice_splice_adjacent (indices_ dp) (write_pos M i) ids) by lia.
    f_equal. rewrite (drop_S M ids (Z.to_nat i) Hids). cbn [concat].
    by replace (Z.to_nat (i + 1)) with (Datatypes.S (Z.to_nat i)) by lia.
  - intros l ids' Hl Hids'. destruct (decide (l = i)) as [->|Hne].
    + destruct (Hold i ltac:(lia)) as [-> ->].
      rewrite !list_lookup_insert_eq by lia.
      rewrite Hids in Hids'. by injection Hids' as ->.
    + by apply (Hnew l ids' ltac:(lia)).
  - intros l Hl. destruct (Hold l ltac:(lia)) as [-> ->].
    by rewrite !list_lookup_insert_ne by lia.
Qed.

Lemma concat_insert_app (L : list (list Z)) (j : nat) l x :
  L !! j = Some l -> concat (<[j := l ++ [x]]> L) ≡ₚ concat L ++ [x].
Proof.
  intros Hl. rewrite (insert_take_drop L j) by (by eapply lookup_lt_Some).
  rewrite <- (take_drop_middle L j l Hl) at 3.
  rewrite !concat_app. cbn [concat].
  rewrite <- !(assoc_L (++)). apply Permutation_app_head.
  apply Permutation_app_head. apply Permutation_app_comm.
Qed.

(** Every example is on one leaf: the leaves' examples, one leaf behind
    the other, are the examples in another order. *)
Lemma concat_on_leaf_upto leaf_pred k (n : nat) :
  0 <= k -> Z.of_nat n <= lengthZ leaf_pred ->
  Forall (fun p => 0 <= p < k) leaf_pred ->
  concat (on_leaf_upto leaf_pred (Z.of_nat n) <$> seqZ 0 k)
  ≡ₚ seqZ 0 (Z.of_nat n).
Proof.
  intros Hk Hn Hvalid. induction n as [|n IH].
  { cbn [Z.of_nat]. change (seqZ 0 0) with (@nil Z).
    induction (seqZ 0 k) as [|l ls IHl]; [done|]. exact IHl. }
  destruct (lookup_lt_is_Some_2 leaf_pred n ltac:(lia)) as [p Hp].
  pose proof (proj1 (Forall_lookup _ _) Hvalid _ _ Hp) as Hpk. cbn beta in Hpk.
  replace (Z.of_nat (Datatypes.S n)) with (Z.of_nat n + 1) by lia.
  rewrite (on_leaf_upto_step leaf_pred k (Z.of_nat n) p)
    by (rewrite ?Nat2Z.id; done || lia).
  rewrite concat_insert_app by (by apply on_leaf_upto_lookup).
  rewrite IH by lia. rewrite (seqZ_app 0 (Z.of_nat n) 1) by lia. done.
Qed.

Lemma slice_concat_at (M : list (list Z)) (l : Z) ids :
  0 <= l -> M !! Z.to_nat l = Some ids ->
  slice (concat M) (write_pos M l) (lengthZ ids) = ids.
Proof.
  intros Hl Hids. unfold slice, write_pos.
  assert (concat M = concat (take (Z.to_nat l) M)
                     ++ ids ++ concat (drop (Datatypes.S (Z.to_nat l)) M)) as HM.
  { rewrite <- (take_drop_middle M (Z.to_nat l) ids Hids) at 1.
    by rewrite concat_app. }
  rewrite HM. rewrite !Nat2Z.id.
  rewrite drop_app_length. by rewrite take_app_length.
Qed.

Lemma write_pos_mono (M : list (list Z)) (a b : Z) :
  a <= b -> write_pos M a <= write_pos M b.
Proof.
  intros Hab. unfold write_pos.
  rewrite <- (take_drop (Z.to_nat a) (take (Z.to_nat b) M)).
  rewrite take_take, Nat.min_l by lia.
  rewrite concat_app, length_app. lia.
Qed.

Lemma write_pos_cover (M : list (list Z)) (p : Z) :
  0 <= p < lengthZ (concat M) ->
  exists (l : nat) ids,
    M !! l = Some ids /\
    write_pos M (Z.of_nat l) <= p < write_pos M (Z.of_nat l) + lengthZ ids.
Proof.
  unfold write_pos. revert p. induction M as [|x M IH]; intros p Hp.
  { cbn in Hp. lia. }
  cbn [concat] in Hp. rewrite length_app in Hp.
  destruct (decide (p < lengthZ x)) as [Hlt|Hge].
  - exists 0%nat, x. change (Z.to_nat (Z.of_nat 0)) with 0%nat.
    cbn [take concat length Z.of_nat]. split; [done | lia].
  - destruct (IH (p - lengthZ x) ltac:(lia)) as (l & ids & Hids & Hin).
    exists (Datatypes.S l), ids. split; [done|].
    rewrite !Nat2Z.id in *. cbn [take concat]. rewrite length_app. lia.
Qed.

Lemma sumZ_lengths_plain (M : list (list Z)) :
  sumZ ((fun ids => lengthZ ids) <$> M) = lengthZ (concat M).
Proof.
  unfold sumZ. induction M as [|x M IH]; [done|].
  cbn [fmap list_fmap foldr concat]. rewrite length_app. lia.
Qed.

Lemma slice_splice_prefix v L off len :
  0 <= off -> 0 <= len -> off + len <= lengthZ L -> lengthZ L <= lengthZ v ->
  slice (splice v 0 L) off len = slice L off len.
Proof.
  intros H0 H1 H2 H3. apply list_eq. intros i.
  rewrite !lookup_slice by lia. case_decide; [|done].
  rewrite lookup_splice by lia. rewrite decide_True by lia.
  f_equal. lia.
Qed.

Lemma replicate_nil_on_leaf leaf_pred k :
  replicate (Z.to_nat k) [] = on_leaf_upto leaf_pred 0 <$> seqZ 0 k.
Proof.
  apply list_eq. intros j. rewrite list_lookup_fmap.
  destruct (decide (Z.of_nat j < k)) as [Hj|Hj].
  - rewrite lookup_replicate_2 by lia. by rewrite lookup_seqZ_lt by lia.
  - rewrite lookup_ge_None_2 by (rewrite length_replicate; lia).
    by rewrite lookup_seqZ_ge by lia.
Qed.

(** X10. [ResetByLeafPred] lays the examples out by leaf: for a
    prediction with one valid leaf id per example, no longer than
    [indices_], it completes; afterwards there are num_leaves leaves, the
    range of each leaf holds, in increasing order, the examples predicted
    on it, the ranges follow one another without gap or overlap from
    position 0 on, and, when the prediction covers all num_data examples
    and no bagging subset is set, the partition invariant holds. *)
Theorem ResetByLeafPred_partition (dp : DataPartition) (leaf_pred : list Z)
        (num_leaves : Z) :
  wf dp -> 0 <= num_leaves ->
  lengthZ leaf_pred <= num_data_ dp -> num_data_ dp <= INT_MAX ->
  Forall (fun p => 0 <= p < num_leaves) leaf_pred ->
  exists dp',
    ResetByLeafPred leaf_pred num_leaves dp = Some dp' /\
    wf dp' /\ num_leaves_ dp' = num_leaves /\
    (forall leaf, 0 <= leaf < num_leaves ->
       leaf_range dp' leaf = on_leaf leaf_pred leaf) /\
    sumZ (leaf_count_ dp') = lengthZ leaf_pred /\
    tiles dp' (lengthZ leaf_pred) /\
    (used_data_indices_ dp = None -> lengthZ leaf_pred = num_data_ dp ->
     partition_invariant dp').
Proof.
  intros Hwf Hk Hn Hmax Hvalid.
  pose proof Hwf as (Llb & Llc & Lidx & Ltl & Ltr & Lob & Llcb & Lrcb & Llw & Lrw).
  set (n := lengthZ leaf_pred) in *.
  set (M := on_leaf_upto leaf_pred n <$> seqZ 0 num_leaves).
  assert (lengthZ M = num_leaves) as LM
    by (subst M; rewrite length_fmap, length_seqZ; lia).
  assert (forall l, 0 <= l < num_leaves ->
            M !! Z.to_nat l = Some (on_leaf leaf_pred l)) as HM
    by (intros l Hl; by apply on_leaf_upto_lookup).
  assert (concat M ≡ₚ seqZ 0 n) as Hperm.
  { pose proof (concat_on_leaf_upto leaf_pred num_leaves (Z.to_nat n) Hk
                  ltac:(lia) Hvalid) as H.
    by rewrite Z2Nat.id in H by lia. }
  assert (lengthZ (concat M) = n) as LcM
    by (rewrite Hperm, length_seqZ; lia).
  unfold ResetByLeafPred. cbv zeta.
  set (dp0 := ResetLeaves num_leaves dp).
  assert (num_leaves_ dp0 = num_leaves) as Hnl0 by done.
  assert (lengthZ (leaf_begin_ dp0) = num_leaves /\
          lengthZ (leaf_count_ dp0) = num_leaves /\
          indices_ dp0 = indices_ dp) as (Llb0 & Llc0 & Hidx0).
  { subst dp0. unfold ResetLeaves, vresize. cbv zeta. norm_dp.
    rewrite !length_resize. split_and!; (done || lia). }
  rewrite Hnl0. rewrite wrap32_id by (fold n; range32). fold n.
  rewrite (replicate_nil_on_leaf leaf_pred).
  rewrite (push_back_loop_spec leaf_pred num_leaves (Z.to_nat n) 0)
    by (done || lia).
  replace (0 + Z.of_nat (Z.to_nat n)) with n by lia. fold M.
  cbn [mbind option_bind].
  destruct (layout_loop_spec M (Z.to_nat num_leaves) 0 dp0 ltac:(lia)
              ltac:(lia) ltac:(lia) ltac:(lia) ltac:(rewrite Hidx0; lia)
              ltac:(lia))
    as (lb & lc & Hrun & Hlb & Hlc & Hnew & _).
  rewrite write_pos_0 in Hrun. rewrite Hrun. clear Hrun.
  change (Z.to_nat 0) with 0%nat. rewrite drop_0, Hidx0.
  set (dp' := set_indices _ _).
  assert (forall l, 0 <= l < num_leaves ->
            lb !! Z.to_nat l = Some (write_pos M l) /\
            lc !! Z.to_nat l = Some (lengthZ (on_leaf leaf_pred l))) as Hlook
    by (intros l Hl; apply (Hnew l); [lia | by apply HM]).
  assert (forall l, 0 <= l < num_leaves ->
            0 <= write_pos M l /\
            write_pos M l + lengthZ (on_leaf leaf_pred l) = write_pos M (l + 1) /\
            write_pos M (l + 1) <= n) as Hwp.
  { intros l Hl.
    destruct (write_pos_succ M l _ ltac:(lia) (HM l Hl)) as [-> _].
    pose proof (write_pos_bounds M l). pose proof (write_pos_bounds M (l + 1)).
    destruct (write_pos_succ M l _ ltac:(lia) (HM l Hl)) as [E _]. lia. }
  assert (wf dp') as Hwf'.
  { subst dp' dp0. unfold wf, ResetLeaves, vresize. cbv zeta. norm_dp.
    rewrite length_splice by lia.
    split_and!; try done; lia. }
  assert (tiles dp' n) as Htiles.
  { split_and!.
    - intros leaf b c Hl Hb Hc. subst dp'. norm_dp.
      apply lookup_lt_Some in Hb as Hlt.
      destruct (Hlook leaf ltac:(lia)) as [Hb' Hc'].
      rewrite Hb' in Hb. rewrite Hc' in Hc.
      injection Hb as <-. injection Hc as <-.
      destruct (Hwp leaf ltac:(lia)) as (? & ? & ?). lia.
    - intros p Hp.
      destruct (write_pos_cover M p ltac:(lia)) as (l & ids & Hids & Hin).
      apply lookup_lt_Some in Hids as Hlt.
      destruct (Hlook (Z.of_nat l) ltac:(lia)) as [Hb' Hc'].
      rewrite <- (Nat2Z.id l) in Hids.
      rewrite (HM (Z.of_nat l) ltac:(lia)) in Hids. injection Hids as <-.
      exists (Z.of_nat l), (write_pos M (Z.of_nat l)),
             (lengthZ (on_leaf leaf_pred (Z.of_nat l))).
      subst dp'. norm_dp. split_and!; try done; lia.
    - assert (forall p l1 l2, in_leaf dp' l1 p -> in_leaf dp' l2 p ->
                              ~ l1 < l2) as Hlt.
      { intros p l1 l2 (b1 & c1 & Hl1 & Hb1 & Hc1 & Hin1)
               (b2 & c2 & Hl2 & Hb2 & Hc2 & Hin2) Hlt.
        subst dp'. norm_dp.
        apply lookup_lt_Some in Hb1 as Hlt1. apply lookup_lt_Some in Hb2 as Hlt2.
        destruct (Hlook l1 ltac:(lia)) as [Hb1' Hc1'].
        destruct (Hlook l2 ltac:(lia)) as [Hb2' Hc2'].
        rewrite Hb1' in Hb1. rewrite Hc1' in Hc1.
        rewrite Hb2' in Hb2. rewrite Hc2' in Hc2.
        injection Hb1 as <-. injection Hc1 as <-.
        injection Hb2 as <-. injection Hc2 as <-.
        destruct (Hwp l1 ltac:(lia)) as (_ & E1 & _).
        pose proof (write_pos_mono M (l1 + 1) l2 ltac:(lia)). lia. }
      intros p l1 l2 H1 H2.
      pose proof (Hlt p l1 l2 H1 H2). pose proof (Hlt p l2 l1 H2 H1). lia. }
  assert (sumZ (leaf_count_ dp') = n) as Hsum.
  { subst dp'. norm_dp.
    assert (lc = (fun ids => lengthZ ids) <$> M) as ->.
    { apply list_eq. intros j. rewrite list_lookup_fmap.
      destruct (decide (Z.of_nat j < num_leaves)) as [Hj|Hj].
      - destruct (Hlook (Z.of_nat j) ltac:(lia)) as [_ Hc'].
        rewrite Nat2Z.id in Hc'. rewrite Hc'.
        pose proof (HM (Z.of_nat j) ltac:(lia)) as HMj.
        rewrite Nat2Z.id in HMj. by rewrite HMj.
      - rewrite !lookup_ge_None_2 by lia. done. }
    by rewrite sumZ_lengths_plain. }
  exists dp'. split_and!; try done.
  - intros leaf Hl. destruct (Hlook leaf Hl) as [Hb Hc].
    destruct (Hwp leaf Hl) as (? & ? & ?).
    rewrite (leaf_range_eq dp' leaf _ _ ltac:(lia) Hb Hc).
    subst dp'. norm_dp.
    rewrite slice_splice_prefix by lia.
    apply slice_concat_at; [lia | by apply HM].
  - intros Hnone Hall. unfold partition_invariant. cbv zeta.
    assert (active dp' = seqZ 0 n) as ->.
    { unfold active. subst dp' dp0. unfold ResetLeaves. cbv zeta. norm_dp.
      by rewrite Hnone, Hall. }
    rewrite length_seqZ, Z2Nat.id by lia.
    split_and!; try done.
    subst dp'. norm_dp.
    assert (slice (splice (indices_ dp) 0 (concat M)) 0 n = concat M) as ->;
      [|done].
    rewrite <- LcM. apply slice_splice_same; lia.
Qed.

(** X11. A prediction that names a leaf outside [0, num_leaves) makes
    [ResetByLeafPred] index [indices_per_leaf] out of bounds. *)
Theorem ResetByLeafPred_invalid_leaf (dp : DataPartition) (leaf_pred : list Z)
        (num_leaves : Z) (i : nat) (p : Z) :
  0 <= num_leaves -> lengthZ leaf_pred <= INT_MAX ->
  leaf_pred !! i = Some p -> ~ (0 <= p < num_leaves) ->
  ResetByLeafPred leaf_pred num_leaves dp = None.
Proof.
  intros Hk Hmax Hp Hbad. unfold ResetByLeafPred. cbv zeta.
  assert (num_leaves_ (ResetLeaves num_leaves dp) = num_leaves) as -> by done.
  rewrite wrap32_id by range32.
  rewrite push_back_loop_invalid; [done | lia | lia |].
  apply lookup_lt_Some in Hp as Hlt.
  exists (Z.of_nat i), p. rewrite !Nat2Z.id, length_replicate.
  split_and!; try done; lia.
Qed.

(** *** Block scheduler: [BalancedFor] *)

Lemma run_tasks_app {S : Type} (f : Z -> S -> option S) l1 l2 (s : S) :
  run_tasks f (l1 ++ l2) s = (s' ← run_tasks f l1 s; run_tasks f l2 s').
Proof.
  revert s. induction l1 as [|j l1 IH]; intros s; [done|].
  cbn [app run_tasks]. destruct (f j s) as [s'|]; [|done].
  cbn [mbind option_bind]. apply IH.
Qed.

Lemma run_groups_concat {S : Type} (f : Z -> S -> option S) (todo : nat) :
  forall i groups (s : S),
    0 <= i -> i + Z.of_nat todo = lengthZ groups ->
    run_groups f todo i groups s
    = run_tasks f (concat (drop (Z.to_nat i) groups)) s.
Proof.
  induction todo as [|todo IH]; intros i groups s Hi Hlen.
  { cbn [run_groups]. by rewrite drop_ge by lia. }
  destruct (lookup_lt_is_Some_2 groups (Z.to_nat i) ltac:(lia)) as [g Hg].
  cbn [run_groups]. rewrite (at_lookup groups i g Hi Hg).
  cbn [mbind option_bind].
  rewrite (drop_S groups g (Z.to_nat i) Hg). cbn [concat].
  rewrite run_tasks_app.
  destruct (run_tasks f g s) as [s'|]; [|done]. cbn [mbind option_bind].
  rewrite IH by lia.
  by replace (Z.to_nat (i + 1)) with (Datatypes.S (Z.to_nat i)) by lia.
Qed.

Lemma concat_replicate_nil (k : nat) : concat (replicate k (@nil Z)) = [].
Proof. induction k as [|k IH]; [done | exact IH]. Qed.

Section BalancedForFacts.

Variable ArgMin : list Z -> Z.
Hypothesis ArgMin_valid : ArgMin_in_range ArgMin.

(** The groups after the first loop: every group has grown by tasks of
    [i, i + todo), in increasing order, and every such task is on one
    group. *)
Lemma assign_loop_spec size T (todo : nat) :
  forall i group_sizes groups,
    1 <= T <= INT_MAX -> 0 <= i -> i + Z.of_nat todo <= lengthZ size ->
    lengthZ group_sizes = T -> lengthZ groups = T ->
    exists group_sizes' groups',
      assign_loop ArgMin todo i size group_sizes groups
      = Some (group_sizes', groups') /\
      lengthZ group_sizes' = T /\ lengthZ groups' = T /\
      concat groups' ≡ₚ concat groups ++ seqZ i (Z.of_nat todo) /\
      (forall (a : nat) g', groups' !! a = Some g' ->
         exists g more, groups !! a = Some g /\ g' = g ++ more /\
                        sublist more (seqZ i (Z.of_nat todo))).
Proof using ArgMin_valid.
  induction todo as [|todo IH]; intros i gsz gr HT Hi Hlen Lgsz Lgr.
  { exists gsz, gr. cbn [assign_loop]. split_and!; try done.
    - by rewrite app_nil_r.
    - intros a g' Hg'. exists g', []. rewrite app_nil_r. split_and!; try done. }
  cbn [assign_loop]. cbv zeta.
  assert (gsz <> []) as Hne by (intros ->; cbn in Lgsz; lia).
  pose proof (ArgMin_valid gsz Hne) as Hc.
  rewrite wrap32_id by range32.
  set (c := ArgMin gsz) in *.
  destruct (lookup_lt_is_Some_2 gsz (Z.to_nat c) ltac:(lia)) as [gs Hgs].
  destruct (lookup_lt_is_Some_2 size (Z.to_nat i) ltac:(lia)) as [sz Hsz].
  destruct (lookup_lt_is_Some_2 gr (Z.to_nat c) ltac:(lia)) as [g Hg].
  rewrite (at_lookup gsz c gs ltac:(lia) Hgs). cbn [mbind option_bind].
  rewrite (at_lookup size i sz Hi Hsz). cbn [mbind option_bind].
  rewrite (at_lookup gr c g ltac:(lia) Hg). cbn [mbind option_bind].
  destruct (IH (i + 1) (<[Z.to_nat c := add32 gs sz]> gsz)
               (<[Z.to_nat c := g ++ [i]]> gr) HT ltac:(lia) ltac:(lia)
               ltac:(rewrite length_insert; lia)
               ltac:(rewrite length_insert; lia))
    as (gsz' & gr' & Hrun & Lgsz' & Lgr' & Hperm & Hgrow).
  exists gsz', gr'. split_and!; try done.
  - rewrite Hperm, concat_insert_app by done.
    rewrite <- (assoc_L (++)). apply Permutation_app_head.
    rewrite (seqZ_cons i) by lia.
    by replace (Z.pred (Z.of_nat (Datatypes.S todo))) with (Z.of_nat todo)
      by lia.
  - intros a g' Hg'. destruct (Hgrow a g' Hg') as (g0 & more & Hg0 & -> & Hsub).
    rewrite (seqZ_cons i) by lia.
    replace (Z.pred (Z.of_nat (Datatypes.S todo))) with (Z.of_nat todo) by lia.
    destruct (decide (a = Z.to_nat c)) as [->|Ha].
    + rewrite list_lookup_insert_eq in Hg0 by lia. injection Hg0 as <-.
      exists g, (i :: more). rewrite <- (assoc_L (++)).
      split_and!; try done. by apply sublist_skip.
    + rewrite list_lookup_insert_ne in Hg0 by done.
      exists g0, more. split_and!; try done. by apply sublist_cons.
Qed.

Lemma assign_loop_short size (todo : nat) :
  forall i group_sizes groups,
    group_sizes <> [] -> lengthZ group_sizes <= INT_MAX ->
    0 <= i <= lengthZ size -> lengthZ size < i + Z.of_nat todo ->
    assign_loop ArgMin todo i size group_sizes groups = None.
Proof using ArgMin_valid.
  induction todo as [|todo IH]; intros i gsz gr Hne Hmax Hi Hlen; [lia|].
  cbn [assign_loop]. cbv zeta.
  pose proof (ArgMin_valid gsz Hne) as Hc.
  rewrite wrap32_id by range32.
  set (c := ArgMin gsz) in *.
  destruct (lookup_lt_is_Some_2 gsz (Z.to_nat c) ltac:(lia)) as [gs Hgs].
  rewrite (at_lookup gsz c gs ltac:(lia) Hgs). cbn [mbind option_bind].
  destruct (decide (i < lengthZ size)) as [Hlt|Hge].
  - destruct (lookup_lt_is_Some_2 size (Z.to_nat i) ltac:(lia)) as [sz Hsz].
    rewrite (at_lookup size i sz ltac:(lia) Hsz). cbn [mbind option_bind].
    destruct (at_ gr c) as [g|]; [|done]. cbn [mbind option_bind].
    apply IH; try lia.
    + intros Hnil. apply (f_equal length) in Hnil.
      rewrite length_insert in Hnil. by destruct gsz.
    + rewrite length_insert. lia.
  - by rewrite (at_out_of_range size i) by lia.
Qed.

(** X12. [BalancedFor] runs every task once: with an [ArgMin] that
    answers a position of its argument, at least one thread and a size for
    each of the n tasks, the first loop puts every task of [0, n) on
    exactly one of the num_threads groups, in increasing order within the
    group, and the second loop calls the body on the tasks group by
    group; with fewer than n sizes the first loop reads past the end of
    [size]. *)
Theorem BalancedFor_each_task_once {S : Type} (inner_fun : Z -> S -> option S)
        (T n : Z) (size : list Z) (s : S) :
  1 <= T <= INT_MAX -> 0 <= n ->
  (n <= lengthZ size ->
   exists group_sizes groups,
     assign_loop ArgMin (Z.to_nat n) 0 size
                 (replicate (Z.to_nat T) 0) (replicate (Z.to_nat T) [])
     = Some (group_sizes, groups) /\
     lengthZ groups = T /\
     concat groups ≡ₚ seqZ 0 n /\
     (forall g, g ∈ groups -> sublist g (seqZ 0 n)) /\
     BalancedFor ArgMin T n size inner_fun s
     = run_tasks inner_fun (concat groups) s) /\
  (lengthZ size < n -> BalancedFor ArgMin T n size inner_fun s = None).
Proof using ArgMin_valid.
  intros HT Hn. split.
  - intros Hsize.
    destruct (assign_loop_spec size T (Z.to_nat n) 0
                (replicate (Z.to_nat T) 0) (replicate (Z.to_nat T) [])
                HT ltac:(lia) ltac:(lia)
                ltac:(rewrite length_replicate; lia)
                ltac:(rewrite length_replicate; lia))
      as (gsz & gr & Hrun & Lgsz & Lgr & Hperm & Hgrow).
    rewrite Z2Nat.id in Hperm, Hgrow by lia.
    rewrite concat_replicate_nil in Hperm. cbn [app] in Hperm.
    exists gsz, gr. split_and!; try done.
    + intros g [a Ha]%list_elem_of_lookup.
      destruct (Hgrow a g Ha) as (g0 & more & Hg0 & -> & Hsub).
      apply lookup_replicate in Hg0 as [-> _]. done.
    + unfold BalancedFor. cbv zeta. rewrite Hrun. cbn [mbind option_bind snd].
      rewrite run_groups_concat by lia. by rewrite drop_0.
  - intros Hsize. unfold BalancedFor. cbv zeta.
    rewrite assign_loop_short; [done | | | lia | lia].
    + intros Hnil. apply (f_equal length) in Hnil.
      rewrite length_replicate in Hnil. cbn in Hnil. lia.
    + rewrite length_replicate. lia.
Qed.

Hypothesis ArgMin_min : ArgMin_smallest ArgMin.

Lemma sumZ_ge_lookup (l : list Z) (a : nat) x :
  Forall (fun y => 0 <= y) l -> l !! a = Some x -> x <= sumZ l.
Proof.
  unfold sumZ. intros Hl. revert a.
  induction Hl as [|y l Hy Hl IH]; intros a Ha; [done|].
  assert (0 <= foldr Z.add 0 l) as Hs.
  { clear IH Ha. induction Hl as [|z l Hz Hl IH]; cbn [foldr]; lia. }
  destruct a as [|a]; cbn [foldr].
  - injection Ha as ->. lia.
  - specialize (IH a Ha). lia.
Qed.

Lemma load_snoc size g i sz :
  size !! Z.to_nat i = Some sz -> load size (g ++ [i]) = load size g + sz.
Proof.
  intros Hsz. unfold load. rewrite fmap_app, sumZ_app.
  cbn [fmap list_fmap]. rewrite Hsz. unfold sumZ. cbn. lia.
Qed.

Lemma slice_cons v i (n : nat) x :
  0 <= i -> v !! Z.to_nat i = Some x ->
  slice v i (Z.of_nat (Datatypes.S n)) = x :: slice v (i + 1) (Z.of_nat n).
Proof.
  intros Hi Hx. unfold slice. rewrite !Nat2Z.id.
  rewrite (drop_S v x (Z.to_nat i) Hx). cbn [take].
  by replace (Z.to_nat (i + 1)) with (Datatypes.S (Z.to_nat i)) by lia.
Qed.

Lemma assign_loop_balanced size m (todo : nat) :
  forall i gsz gr gsz' gr',
    0 <= m -> 0 <= i -> i + Z.of_nat todo <= lengthZ size ->
    Forall (fun x => 0 <= x <= m) (slice size i (Z.of_nat todo)) ->
    gsz <> [] -> lengthZ gsz <= INT_MAX ->
    gsz = load size <$> gr ->
    Forall (fun y => 0 <= y) gsz ->
    sumZ gsz + sumZ (slice size i (Z.of_nat todo)) <= INT_MAX ->
    (forall (a b : nat) x y, gsz !! a = Some x -> gsz !! b = Some y ->
                             x <= y + m) ->
    assign_loop ArgMin todo i size gsz gr = Some (gsz', gr') ->
    gsz' = load size <$> gr' /\
    (forall (a b : nat) x y, gsz' !! a = Some x -> gsz' !! b = Some y ->
                             x <= y + m).
Proof using ArgMin_valid ArgMin_min.
  induction todo as [|todo IH];
    intros i gsz gr gsz' gr' Hm Hi Hlen Hsizes Hne Hmax Hload Hpos Hsum Hbal Hrun.
  { cbn [assign_loop] in Hrun. by injection Hrun as <- <-. }
  cbn [assign_loop] in Hrun. cbv zeta in Hrun.
  pose proof (ArgMin_valid gsz Hne) as Hc.
  rewrite wrap32_id in Hrun by range32.
  pose proof (ArgMin_min gsz) as Hmin.
  set (c := ArgMin gsz) in *.
  destruct (lookup_lt_is_Some_2 gsz (Z.to_nat c) ltac:(lia)) as [gs Hgs].
  destruct (lookup_lt_is_Some_2 size (Z.to_nat i) ltac:(lia)) as [sz Hsz].
  assert (lengthZ gr = lengthZ gsz) as Lgr by (by rewrite Hload, length_fmap).
  destruct (lookup_lt_is_Some_2 gr (Z.to_nat c) ltac:(lia)) as [g Hg].
  rewrite (at_lookup gsz c gs ltac:(lia) Hgs) in Hrun.
  cbn [mbind option_bind] in Hrun.
  rewrite (at_lookup size i sz Hi Hsz) in Hrun.
  cbn [mbind option_bind] in Hrun.
  rewrite (at_lookup gr c g ltac:(lia) Hg) in Hrun.
  cbn [mbind option_bind] in Hrun.
  rewrite (slice_cons size i todo sz Hi Hsz) in Hsizes, Hsum.
  apply Forall_cons_1 in Hsizes as [Hsz0 Hsizes].
  change (sumZ (sz :: slice size (i + 1) (Z.of_nat todo)))
    with (sz + sumZ (slice size (i + 1) (Z.of_nat todo))) in Hsum.
  assert (0 <= sumZ (slice size (i + 1) (Z.of_nat todo))) as Hrest.
  { clear -Hsizes. unfold sumZ.
    induction Hsizes as [|z l Hz Hl IHl]; cbn [foldr]; lia. }
  pose proof (sumZ_ge_lookup gsz _ gs Hpos Hgs) as Hgs_le.
  pose proof (proj1 (list.Forall_lookup _ _) Hpos _ _ Hgs) as Hgs0.
  cbn beta in Hgs0.
  rewrite add32_id in Hrun by range32.
  assert (gs = load size g) as Hgsl.
  { rewrite Hload, list_lookup_fmap, Hg in Hgs. by injection Hgs as <-. }
  apply (IH (i + 1)) in Hrun; try done; try lia.
  - intros Hnil. apply (f_equal length) in Hnil.
    rewrite length_insert in Hnil. by destruct gsz.
  - rewrite length_insert. lia.
  - rewrite list_fmap_insert, <- Hload. f_equal.
    rewrite (load_snoc size g i sz Hsz). lia.
  - apply Forall_insert; [done | lia].
  - rewrite (sumZ_insert gsz _ gs) by done. lia.
  - intros a b x y Hx Hy.
    destruct (decide (a = Z.to_nat c)) as [->|Ha];
      destruct (decide (b = Z.to_nat c)) as [->|Hb].
    + rewrite list_lookup_insert_eq in Hx, Hy by lia.
      injection Hx as <-. injection Hy as <-. lia.
    + rewrite list_lookup_insert_eq in Hx by lia.
      rewrite list_lookup_insert_ne in Hy by done.
      injection Hx as <-. pose proof (Hmin b gs y Hgs Hy). lia.
    + rewrite list_lookup_insert_ne in Hx by done.
      rewrite list_lookup_insert_eq in Hy by lia.
      injection Hy as <-. pose proof (Hbal a _ x gs Hx Hgs). lia.
    + rewrite list_lookup_insert_ne in Hx, Hy by done.
      by apply (Hbal a b).
Qed.

(** X13. [BalancedFor] balances the groups: with an [ArgMin] that
    answers a position of a smallest element, task sizes between 0 and m
    whose sum fits [int], the sizes of any two groups differ by at most m
    after the first loop, and [group_sizes] holds, for each group, the sum
    of the sizes of its tasks. *)
Theorem BalancedFor_balanced (T n m : Z) (size group_sizes : list Z)
        (groups : list (list Z)) :
  1 <= T <= INT_MAX -> 0 <= n <= lengthZ size -> 0 <= m ->
  Forall (fun x => 0 <= x <= m) (slice size 0 n) ->
  sumZ (slice size 0 n) <= INT_MAX ->
  assign_loop ArgMin (Z.to_nat n) 0 size
              (replicate (Z.to_nat T) 0) (replicate (Z.to_nat T) [])
  = Some (group_sizes, groups) ->
  group_sizes = load size <$> groups /\
  (forall ga gb, ga ∈ groups -> gb ∈ groups ->
                 load size ga <= load size gb + m).
Proof using ArgMin_valid ArgMin_min.
  intros HT Hn Hm Hsizes Hsum Hrun.
  rewrite <- (Z2Nat.id n) in Hsizes, Hsum by lia.
  destruct (assign_loop_balanced size m (Z.to_nat n) 0
              (replicate (Z.to_nat T) 0) (replicate (Z.to_nat T) [])
              group_sizes groups Hm ltac:(lia) ltac:(lia) Hsizes)
    as [Hload Hbal]; try done.
  - intros Hnil. apply (f_equal length) in Hnil.
    rewrite length_replicate in Hnil. cbn in Hnil. lia.
  - rewrite length_replicate. lia.
  - by rewrite fmap_replicate.
  - apply Forall_replicate. lia.
  - rewrite sumZ_replicate_0. lia.
  - intros a b x y [-> _]%lookup_replicate [-> _]%lookup_replicate. lia.
  - split; [done|].
    intros ga gb [a Ha]%list_elem_of_lookup [b Hb]%list_elem_of_lookup.
    apply (Hbal a b); rewrite Hload, list_lookup_fmap.
    + by rewrite Ha.
    + by rewrite Hb.
Qed.

End BalancedForFacts.

(** *** [Split]: the blocks of a parallel loop do not interfere *)

Ltac no_conflict :=
  unfold conflict; cbn [touched is_write fst snd];
  intros (Hw & Hb & p & Hp1 & Hp2);
  first [ discriminate Hb
        | (destruct Hw as [Hw|Hw]; discriminate Hw)
        | lia ].

Ltac each_event H :=
  repeat (apply elem_of_cons in H as [->|H]); [..|by apply elem_of_nil in H].

(** X14. The two parallel loops of [Split] are free of conflicts: in the
    first loop, and in the loop that copies the scratch sections back, no
    access of one block conflicts with an access of another block, that
    is, no element that one block writes is read or written by another
    block. *)
Theorem Split_blocks_do_not_interfere
        (kAlignedSize : Z) (dataset : Dataset) (feature : Z)
        (threshold : list Z) (num_threshold : Z) (default_left : bool)
        (T leaf right_leaf : Z) (dp : DataPartition) (begin cnt nb bs : Z) :
  1 <= kAlignedSize ->
  oracle_counts dataset ->
  Split_pre kAlignedSize T leaf right_leaf dp begin cnt ->
  0 < cnt ->
  BlockInfo kAlignedSize T cnt 1024 = (nb, bs) ->
  let oracle := dataset feature threshold num_threshold default_left in
  let outs := block_outs oracle (indices_ dp) begin cnt nb bs in
  let right_start := begin + lengthZ (concat outs.*1) in
  trace (Split kAlignedSize dataset feature threshold num_threshold
               default_left T leaf right_leaf dp)
  = Split_trace oracle (indices_ dp) leaf right_leaf begin cnt nb bs /\
  forall i j, 0 <= i < nb -> 0 <= j < nb -> i <> j ->
    (forall e1 e2,
        e1 ∈ scatter_trace begin (block 0 cnt bs i)
               (block_out oracle (indices_ dp) begin (block 0 cnt bs i)) ->
        e2 ∈ scatter_trace begin (block 0 cnt bs j)
               (block_out oracle (indices_ dp) begin (block 0 cnt bs j)) ->
        ~ conflict e1 e2) /\
    (forall e1 e2,
        e1 ∈ gather_trace begin right_start outs (block 0 cnt bs i) ->
        e2 ∈ gather_trace begin right_start outs (block 0 cnt bs j) ->
        ~ conflict e1 e2).
Proof.
  intros HA Hcounts Hpre Hcnt HB oracle outs right_start.
  destruct (ok_with_Ok _ _ (Split_spec dataset feature threshold num_threshold
                              default_left Hcounts kAlignedSize HA T leaf
                              right_leaf dp begin cnt nb bs Hpre Hcnt HB))
    as (dp' & t & HS & Ht & _).
  rewrite HS. cbn [trace]. split; [exact Ht|]. clear HS Ht dp' t.
  destruct Hpre as (Hwf & HT & Hleaf & Hright & Hne' & Hbegin & Hcount & Hb0
                    & _ & Hbc & Hfit1 & Hfit2).
  pose proof (BlockInfo_spec kAlignedSize HA T cnt 1024 nb bs
                ltac:(lia) ltac:(lia) ltac:(lia) ltac:(lia)
                ltac:(unfold INT_MAX in *; nia) ltac:(unfold INT_MAX in *; nia)
                HB) as (_ & _ & _ & Hcov & Hnb & Hbs & _).
  destruct Hwf as (_ & _ & Lidx & _).
  intros i j Hi Hj Hij.
  (* what the two blocks hold *)
  set (oi := block_out oracle (indices_ dp) begin (block 0 cnt bs i)).
  set (oj := block_out oracle (indices_ dp) begin (block 0 cnt bs j)).
  pose proof (block_out_counts dataset feature threshold num_threshold
                default_left Hcounts (indices_ dp) begin cnt bs i
                Hb0 ltac:(lia) ltac:(lia) Hbs) as Hci.
  pose proof (block_out_counts dataset feature threshold num_threshold
                default_left Hcounts (indices_ dp) begin cnt bs j
                Hb0 ltac:(lia) ltac:(lia) Hbs) as Hcj.
  fold oracle in Hci, Hcj. fold oi in Hci. fold oj in Hcj.
  pose proof (lengthZ_nonneg oi.1). pose proof (lengthZ_nonneg oi.2).
  pose proof (lengthZ_nonneg oj.1). pose proof (lengthZ_nonneg oj.2).
  assert (i < j -> (i + 1) * bs <= j * bs) as Hlt1 by (intros; nia).
  assert (j < i -> (j + 1) * bs <= i * bs) as Hlt2 by (intros; nia).
  split.
  - intros e1 e2. unfold scatter_trace, block.
    destruct (Z.min cnt (0 + (i + 1) * bs) - (0 + i * bs) <=? 0) eqn:Ei;
      destruct (Z.min cnt (0 + (j + 1) * bs) - (0 + j * bs) <=? 0) eqn:Ej;
      rewrite ?Z.leb_le, ?Z.leb_gt in Ei, Ej;
      intros He1 He2; each_event He1; each_event He2; no_conflict.
  - (* the write positions of the two blocks *)
    assert (outs.*1 !! Z.to_nat i = Some oi.1 /\ outs.*2 !! Z.to_nat i = Some oi.2
            /\ outs.*1 !! Z.to_nat j = Some oj.1
            /\ outs.*2 !! Z.to_nat j = Some oj.2) as (Hi1 & Hi2 & Hj1 & Hj2).
    { subst outs. rewrite !list_lookup_fmap.
      rewrite !(block_outs_lookup dataset feature threshold num_threshold
                  default_left) by done.
      done. }
    destruct (write_pos_succ outs.*1 i _ ltac:(lia) Hi1) as [Wi1 _].
    destruct (write_pos_succ outs.*2 i _ ltac:(lia) Hi2) as [Wi2 _].
    destruct (write_pos_succ outs.*1 j _ ltac:(lia) Hj1) as [Wj1 _].
    destruct (write_pos_succ outs.*2 j _ ltac:(lia) Hj2) as [Wj2 _].
    pose proof (write_pos_bounds outs.*1 i). pose proof (write_pos_bounds outs.*2 i).
    pose proof (write_pos_bounds outs.*1 j). pose proof (write_pos_bounds outs.*2 j).
    pose proof (write_pos_bounds outs.*1 (i + 1)).
    pose proof (write_pos_bounds outs.*1 (j + 1)).
    assert (i < j -> write_pos outs.*1 (i + 1) <= write_pos outs.*1 j /\
                     write_pos outs.*2 (i + 1) <= write_pos outs.*2 j) as Hm1
      by (intros; split; apply write_pos_mono; lia).
    assert (j < i -> write_pos outs.*1 (j + 1) <= write_pos outs.*1 i /\
                     write_pos outs.*2 (j + 1) <= write_pos outs.*2 i) as Hm2
      by (intros; split; apply write_pos_mono; lia).
    intros e1 e2. unfold gather_trace, block.
    assert (outs !! Z.to_nat i = Some oi /\ outs !! Z.to_nat j = Some oj)
      as [-> ->].
    { subst outs. split;
        by apply (block_outs_lookup dataset feature threshold num_threshold
                    default_left). }
    cbn [from_option]. unfold id.
    subst right_start.
    destruct (lengthZ oi.1 <=? 0), (lengthZ oi.2 <=? 0),
             (lengthZ oj.1 <=? 0), (lengthZ oj.2 <=? 0);
      cbn [app]; intros He1 He2; each_event He1; each_event He2; no_conflict.
Qed.

(** *** The further properties on concrete inputs *)

Lemma first_min_spec v :
  forall best_pos best cur,
    let r := first_min best_pos best cur v in
    (r = best_pos /\ Forall (fun y => best <= y) v) \/
    (exists x, cur <= r < cur + lengthZ v /\
               v !! Z.to_nat (r - cur) = Some x /\ x < best /\
               Forall (fun y => x <= y) v).
Proof.
  induction v as [|x v IH]; intros bp b cur; cbn [first_min]; cbv zeta.
  { by left. }
  destruct (x <? b) eqn:E; [apply Z.ltb_lt in E | apply Z.ltb_ge in E].
  - right. destruct (IH cur x (cur + 1)) as [[-> Hall]|(x' & Hr & Hx' & Hlt & Hall)].
    + exists x. rewrite Z.sub_diag. cbn [length]. split_and!; try done; try lia.
      constructor; [lia | done].
    + exists x'. cbn [length]. split_and!; try lia.
      * replace (Z.to_nat (first_min cur x (cur + 1) v - cur))
          with (Datatypes.S (Z.to_nat (first_min cur x (cur + 1) v - (cur + 1))))
          by lia.
        done.
      * constructor; [lia | done].
  - destruct (IH bp b (cur + 1)) as [[-> Hall]|(x' & Hr & Hx' & Hlt & Hall)].
    + left. split; [done|]. constructor; [lia | done].
    + right. exists x'. cbn [length]. split_and!; try lia.
      * replace (Z.to_nat (first_min bp b (cur + 1) v - cur))
          with (Datatypes.S (Z.to_nat (first_min bp b (cur + 1) v - (cur + 1))))
          by lia.
        done.
      * constructor; [lia | done].
Qed.

Lemma first_ArgMin_in_range : ArgMin_in_range first_ArgMin.
Proof.
  intros [|x v] Hne; [done|]. unfold first_ArgMin. cbn [length].
  destruct (first_min_spec v 0 x 1) as [[-> _]|(x' & Hr & _)]; lia.
Qed.

Lemma first_ArgMin_smallest : ArgMin_smallest first_ArgMin.
Proof.
  intros [|x v] j x0 y Hx0 Hy; [done|]. unfold first_ArgMin in Hx0.
  destruct (first_min_spec v 0 x 1) as [[Hr Hall]|(x' & Hr & Hx' & Hlt & Hall)].
  - rewrite Hr in Hx0. injection Hx0 as <-.
    destruct j as [|j]; [injection Hy as <-; lia|].
    apply (proj1 (list.Forall_lookup _ _) Hall j y Hy).
  - replace (Z.to_nat (first_min 0 x 1 v))
      with (Datatypes.S (Z.to_nat (first_min 0 x 1 v - 1))) in Hx0 by lia.
    change (v !! Z.to_nat (first_min 0 x 1 v - 1) = Some x0) in Hx0.
    rewrite Hx' in Hx0. injection Hx0 as <-.
    destruct j as [|j]; [injection Hy as <-; lia|].
    apply (proj1 (list.Forall_lookup _ _) Hall j y Hy).
Qed.

Lemma even_left_routes :
  routes_by even_left (fun _ _ _ _ x => Z.even x).
Proof. by intros ? ? ? ? ?. Qed.

Lemma from_Ok {A : Type} (m : outcome A) (a : A) tr (d : A) :
  m = Ok a tr -> a = match m with Ok x _ => x | Fault _ _ _ _ => d end.
Proof. by intros ->. Qed.

Lemma partition_invariant_eq dp dp' :
  dp = dp' -> partition_invariant dp -> partition_invariant dp'.
Proof. by intros ->. Qed.

Lemma store8_invariant : partition_invariant store8.
Proof.
  destruct (Init_partition_invariant (DataPartition_new 4 0 8 4))
    as (dp' & tr & HI & Hinv & _); [concrete..|].
  apply (from_Ok _ _ _ store8) in HI. subst dp'.
  revert Hinv. apply partition_invariant_eq. vm_compute. reflexivity.
Qed.

Lemma store8_all_left_invariant : partition_invariant store8_all_left.
Proof.
  destruct (Split_partition_invariant 32 all_left 0 [] 0 true 4 0 1 store8 8)
    as (dp' & tr & HS & Hinv & _);
    [lia | exact all_left_stable | exact store8_invariant | concrete | lia |].
  apply (from_Ok _ _ _ store8) in HS. subst dp'. exact Hinv.
Qed.

Lemma store5_split_invariant : partition_invariant store5_split.
Proof.
  destruct (Init_partition_invariant bagged5)
    as (dp0 & tr0 & HI & Hinv0 & _); [concrete..|].
  apply (from_Ok _ _ _ bagged5) in HI. subst dp0.
  destruct (Split_partition_invariant 32 even_left 0 [] 0 true 4 0 1 store5 5)
    as (dp1 & tr1 & HS1 & Hinv1 & _);
    [lia | exact even_left_stable | exact Hinv0 | concrete | lia |].
  apply (from_Ok _ _ _ store5) in HS1. subst dp1.
  match type of Hinv1 with
  | partition_invariant ?dp1 =>
      destruct (Split_partition_invariant 32 even_left 0 [] 0 true 4 1 2 dp1 4)
        as (dp2 & tr2 & HS2 & Hinv2 & _);
        [lia | exact even_left_stable | exact Hinv1 | concrete | lia |];
      apply (from_Ok _ _ _ dp1) in HS2; subst dp2
  end.
  revert Hinv2. apply partition_invariant_eq. vm_compute. reflexivity.
Qed.

(** [store8_all_left]: leaf 0 holds the 8 ids, the other leaves none. *)
Lemma GetIndexOnLeaf_in_bounds_witness :
  (forall leaf, 0 <= leaf < num_leaves_ store8_all_left ->
     exists begin len,
       GetIndexOnLeaf leaf store8_all_left
       = Ok (begin, len) [Rd LeafBegin leaf 1; Rd LeafCount leaf 1] /\
       leaf_begin leaf store8_all_left = Ok begin [Rd LeafBegin leaf 1] /\
       leaf_count leaf store8_all_left = Ok len [Rd LeafCount leaf 1] /\
       0 <= begin /\ 0 <= len /\
       begin + len <= lengthZ (indices_ store8_all_left) /\
       lengthZ (leaf_range store8_all_left leaf) = len) /\
  (forall leaf, ~ (0 <= leaf < num_leaves_ store8_all_left) ->
     GetIndexOnLeaf leaf store8_all_left = Fault LeafBegin leaf 1 []).
Proof.
  apply (GetIndexOnLeaf_in_bounds store8_all_left).
  exact store8_all_left_invariant.
Defined.

(** [store5_split]: splitting leaf 2, which holds [5; 9; 1; 7], into
    leaves 2 and 3 leaves the id 2 of leaf 0 where it is. *)
Lemma Split_other_leaves_unchanged_witness :
  exists dp' tr,
    Split 32 even_left 0 [] 0 true 4 2 3 store5_split = Ok dp' tr /\
    forall other, other <> 2 -> other <> 3 ->
      leaf_range dp' other = leaf_range store5_split other.
Proof.
  apply (Split_other_leaves_unchanged 32 even_left 0 [] 0 true 4 2 3
           store5_split 4);
    [lia | exact even_left_counts | exact store5_split_invariant | concrete
    | lia].
Defined.

(** The 34817 ids of [store34817] with 34 threads, in 34 blocks: the
    even ids, then the odd. *)
Lemma Split_by_predicate_witness :
  exists dp' tr,
    Split 32 even_left 0 [] 0 true 34 0 1 store34817 = Ok dp' tr /\
    leaf_range dp' 0
    = filter (fun x => Z.even x = true) (leaf_range store34817 0) /\
    leaf_range dp' 1
    = filter (fun x => Z.even x = false) (leaf_range store34817 0).
Proof.
  apply (Split_by_predicate 32 even_left (fun _ _ _ _ x => Z.even x)
           0 [] 0 true 34 0 1 store34817 0 34817);
    [lia | exact even_left_routes | concrete | lia].
Defined.

(** Six leaves instead of four for [store8_all_left]. *)
Lemma ResetLeaves_keeps_invariant_witness :
  partition_invariant (ResetLeaves 6 store8_all_left) /\
  num_leaves_ (ResetLeaves 6 store8_all_left) = 6 /\
  indices_ (ResetLeaves 6 store8_all_left) = indices_ store8_all_left /\
  (forall leaf, leaf_range (ResetLeaves 6 store8_all_left) leaf
                = leaf_range store8_all_left leaf) /\
  (forall leaf, num_leaves_ store8_all_left <= leaf < 6 ->
                GetIndexOnLeaf leaf (ResetLeaves 6 store8_all_left)
                = Ok (0, 0) [Rd LeafBegin leaf 1; Rd LeafCount leaf 1]).
Proof.
  apply (ResetLeaves_keeps_invariant store8_all_left 6);
    [exact store8_all_left_invariant | lia |].
  intros leaf cnt Hleaf Hcnt. apply lookup_lt_Some in Hcnt.
  assert (length (leaf_count_ store8_all_left) = 4%nat) as E
    by (vm_compute; reflexivity).
  rewrite E in Hcnt. lia.
Defined.

(** [store8] cut down to 5 examples. *)
Lemma ResetNumData_Init_witness :
  exists dp' tr,
    Init (ResetNumData 5 store8) = Ok dp' tr /\
    partition_invariant dp' /\
    num_data_ dp' = 5 /\
    lengthZ (indices_ dp') = 5 /\
    leaf_range dp' 0 = active (ResetNumData 5 store8) /\
    (used_data_indices_ store8 = None -> indices_ dp' = seqZ 0 5).
Proof. apply (ResetNumData_Init store8 5); concrete. Defined.

(** A store built for 3 examples, and a bagging subset of 5 ids. *)
Lemma Init_bagging_overflow_witness :
  Init (SetUsedDataIndices (Some [5; 2; 9; 1; 7]) 5
          (DataPartition_new 4 0 3 4))
  = Fault Indices 0 5
          [Wr LeafBegin 0 4; Wr LeafCount 0 4;
           Wr LeafCount 0 1; Rd UsedData 0 5].
Proof.
  apply (Init_bagging_overflow 4 0 3 4 [5; 2; 9; 1; 7] 5); [lia | lia |].
  change (lengthZ [5; 2; 9; 1; 7]) with 5. lia.
Defined.

(** Five examples predicted on leaves 1, 0, 1, 2, 0. *)
Lemma ResetByLeafPred_partition_witness :
  exists dp',
    ResetByLeafPred [1; 0; 1; 2; 0] 3 (DataPartition_new 4 0 5 2) = Some dp' /\
    wf dp' /\ num_leaves_ dp' = 3 /\
    (forall leaf, 0 <= leaf < 3 ->
       leaf_range dp' leaf = on_leaf [1; 0; 1; 2; 0] leaf) /\
    sumZ (leaf_count_ dp') = lengthZ [1; 0; 1; 2; 0] /\
    tiles dp' (lengthZ [1; 0; 1; 2; 0]) /\
    (used_data_indices_ (DataPartition_new 4 0 5 2) = None ->
     lengthZ [1; 0; 1; 2; 0] = num_data_ (DataPartition_new 4 0 5 2) ->
     partition_invariant dp').
Proof.
  apply (ResetByLeafPred_partition (DataPartition_new 4 0 5 2)
           [1; 0; 1; 2; 0] 3);
    [concrete | lia | concrete | concrete | repeat constructor; lia].
Defined.

(** The third example is predicted on leaf 3 of 3. *)
Lemma ResetByLeafPred_invalid_leaf_witness :
  ResetByLeafPred [1; 0; 3] 3 (DataPartition_new 4 0 5 2) = None.
Proof.
  apply (ResetByLeafPred_invalid_leaf (DataPartition_new 4 0 5 2)
           [1; 0; 3] 3 2 3);
    [lia | concrete | reflexivity | lia].
Defined.

(** Three tasks of sizes 5, 3, 4 on two threads. *)
Lemma BalancedFor_each_task_once_witness :
  (3 <= lengthZ [5; 3; 4] ->
   exists group_sizes groups,
     assign_loop first_ArgMin (Z.to_nat 3) 0 [5; 3; 4]
                 (replicate (Z.to_nat 2) 0) (replicate (Z.to_nat 2) [])
     = Some (group_sizes, groups) /\
     lengthZ groups = 2 /\
     concat groups ≡ₚ seqZ 0 3 /\
     (forall g, g ∈ groups -> sublist g (seqZ 0 3)) /\
     BalancedFor first_ArgMin 2 3 [5; 3; 4]
                 (fun j (s : list Z) => Some (s ++ [j])) []
     = run_tasks (fun j (s : list Z) => Some (s ++ [j])) (concat groups) []) /\
  (lengthZ [5; 3; 4] < 3 ->
   BalancedFor first_ArgMin 2 3 [5; 3; 4]
               (fun j (s : list Z) => Some (s ++ [j])) [] = None).
Proof.
  apply (BalancedFor_each_task_once first_ArgMin first_ArgMin_in_range
           (fun j (s : list Z) => Some (s ++ [j])) 2 3 [5; 3; 4] []);
    unfold INT_MAX; lia.
Defined.

(** Four tasks of sizes 5, 3, 4, 1 on two threads: groups of sizes 6 and
    7. *)
Lemma BalancedFor_balanced_witness :
  [6; 7] = load [5; 3; 4; 1] <$> [[0; 3]; [1; 2]] /\
  (forall ga gb, ga ∈ [[0; 3]; [1; 2]] -> gb ∈ [[0; 3]; [1; 2]] ->
                 load [5; 3; 4; 1] ga <= load [5; 3; 4; 1] gb + 5).
Proof.
  apply (BalancedFor_balanced first_ArgMin first_ArgMin_in_range
           first_ArgMin_smallest 2 4 5 [5; 3; 4; 1] [6; 7] [[0; 3]; [1; 2]]);
    [ unfold INT_MAX; lia | cbn; lia | lia
    | repeat constructor; lia | vm_compute; discriminate
    | vm_compute; reflexivity ].
Defined.

(** The 34 blocks of the call on [store34817] with 34 threads. *)
Lemma Split_blocks_do_not_interfere_witness :
  let oracle := even_left 0 [] 0 true in
  let outs := block_outs oracle (indices_ store34817) 0 34817 34 1056 in
  let right_start := 0 + lengthZ (concat outs.*1) in
  trace (Split 32 even_left 0 [] 0 true 34 0 1 store34817)
  = Split_trace oracle (indices_ store34817) 0 1 0 34817 34 1056 /\
  forall i j, 0 <= i < 34 -> 0 <= j < 34 -> i <> j ->
    (forall e1 e2,
        e1 ∈ scatter_trace 0 (block 0 34817 1056 i)
               (block_out oracle (indices_ store34817) 0
                          (block 0 34817 1056 i)) ->
        e2 ∈ scatter_trace 0 (block 0 34817 1056 j)
               (block_out oracle (indices_ store34817) 0
                          (block 0 34817 1056 j)) ->
        ~ conflict e1 e2) /\
    (forall e1 e2,
        e1 ∈ gather_trace 0 right_start outs (block 0 34817 1056 i) ->
        e2 ∈ gather_trace 0 right_start outs (block 0 34817 1056 j) ->
        ~ conflict e1 e2).
Proof.
  apply (Split_blocks_do_not_interfere 32 even_left 0 [] 0 true 34 0 1
           store34817 0 34817 34 1056);
    [lia | exact even_left_counts | concrete | lia | vm_compute; reflexivity].
Defined.
